(** * yosys2digitaljs, [process.js]: netlist to circuit-diagram conversion

    A shallow embedding of the script [src/process.js] and the properties of
    its stages: [module_deps], [order_ports], [yosys_to_simcir],
    [layout_circuit] and the top-level emission.

    JavaScript objects that the script walks with [for ... in] are
    association lists in enumeration order; exceptions are the [Err] side of
    a result type; the two library calls of the script ([topsort] and
    [dagre.layout]) are parameters of the sections that use them.

    Numbers: net ids and counters are natural numbers, coordinates are
    exact rationals.  The input is the value [JSON.parse] returns for a
    Yosys netlist: the fields the script reads are present, and the bits of
    ports and connections are numbers. *)

From Stdlib Require Import List String Ascii Bool Arith NArith ZArith Lia.
From Stdlib Require Import QArith Qminmax.
From Stdlib Require Import Permutation Sorted.
From Stdlib Require Import DecimalString DecimalNat.
Import ListNotations.

Close Scope Q_scope.
Open Scope string_scope.
Open Scope nat_scope.
Open Scope list_scope.

(** ** Exceptions and the result type *)

(** The [assert(...)] calls of the script, by what they check. *)
Inductive assertion : Type :=
| net_source_undefined                 (* assert(net.source === undefined) *)
| port_bits_length                     (* assert(port.bits.length == 1) *)
| connection_length (pname : string)   (* assert(cell.connections.A.length == 1), B, Y *)
| gate_direction (pname : string).     (* assert(cell.port_directions.A == 'input'), B, Y *)

(** What the script can throw. *)
Inductive exn : Type :=
| AssertionError (a : assertion)
| Error (message : string)             (* throw Error(message) *)
| TypeError                            (* a property read on undefined *)
| TopsortError.                        (* thrown inside topsort(...) *)

Inductive result (A : Type) : Type :=
| Ok (a : A)
| Err (e : exn).
Arguments Ok {A} a.
Arguments Err {A} e.

Definition bind {A B : Type} (r : result A) (k : A -> result B) : result B :=
  match r with
  | Ok a => k a
  | Err e => Err e
  end.

Declare Scope result_scope.
Delimit Scope result_scope with result.
Notation "x <- c ;; k" := (bind c (fun x => k))
  (at level 100, c at next level, right associativity) : result_scope.
Notation "c ;;; k" := (bind c (fun _ => k))
  (at level 100, right associativity) : result_scope.
Open Scope result_scope.

Definition assert (b : bool) (a : assertion) : result unit :=
  if b then Ok tt else Err (AssertionError a).

(** A loop whose body may throw: the first exception ends it. *)
Fixpoint foldM {A S : Type} (step : S -> A -> result S) (l : list A) (s : S)
  : result S :=
  match l with
  | [] => Ok s
  | a :: l' => s' <- step s a ;; foldM step l' s'
  end.

(** ** JavaScript objects used as maps *)

(** An object is the list of its own properties in [for ... in] order.  A
    value produced by [JSON.parse] has pairwise distinct keys; the theorems
    that need it say so with [NoDup (keys o)].

    A plain object also answers to the names it inherits from
    [Object.prototype]: [o.constructor] is a function on every object, and
    [o['__proto__'] = v] adds no property.  The reads and writes below are
    those of JavaScript for every name that is an own property or is not
    [inherited].  The netlists in which every name the script uses as a key
    is of that kind are the [plain_netlist]s; a theorem that is true of the
    script on those only asks for one. *)

(** The property names of [Object.prototype]. *)
Definition inherited (k : string) : bool :=
  existsb (String.eqb k)
    ["constructor"; "__defineGetter__"; "__defineSetter__"; "hasOwnProperty";
     "__lookupGetter__"; "__lookupSetter__"; "isPrototypeOf";
     "propertyIsEnumerable"; "toString"; "valueOf"; "__proto__";
     "toLocaleString"].

Definition plain (k : string) : bool := negb (inherited k).

Section JsObject.
Context {V : Type}.

Definition obj : Type := list (string * V).

Definition keys (o : obj) : list string := map fst o.

(** [o[k]] for a name that is own or [plain]: [None] is [undefined]. *)
Fixpoint obj_get (o : obj) (k : string) : option V :=
  match o with
  | [] => None
  | (k', v) :: o' => if String.eqb k' k then Some v else obj_get o' k
  end.

(** [k in o] for a name that is own or [plain] *)
Definition obj_in (k : string) (o : obj) : bool :=
  match obj_get o k with
  | Some _ => true
  | None => false
  end.

(** [o[k] = v] for a [plain] name: an existing property keeps its place, a
    new one is added last.  (The objects the script builds this way take module names, port
    names and device ids as property names, in enumeration order.) *)
Fixpoint obj_set (o : obj) (k : string) (v : V) : obj :=
  match o with
  | [] => [(k, v)]
  | (k', v') :: o' =>
      if String.eqb k' k then (k', v) :: o' else (k', v') :: obj_set o' k v
  end.
End JsObject.
Arguments obj V : clear implicits.

(** [String(k)] for an array index or a counter. *)
Definition dec (k : nat) : string := NilZero.string_of_uint (Nat.to_uint k).

(** String concatenation with a value that may be [undefined]. *)
Definition js_str (p : option string) : string :=
  match p with
  | Some s => s
  | None => "undefined"
  end.

(** ** The input netlist *)

(** Net ids are the natural numbers of Yosys' JSON. *)
Record port : Type := {
  direction : string;
  bits : list N
}.

Record cell : Type := {
  cell_type : string;
  port_directions : obj string;
  connections : obj (list N)
}.

Record module : Type := {
  ports : obj port;
  cells : obj cell
}.

Record netlist : Type := {
  modules : obj module
}.

(** The names the script uses as keys of the objects it builds or reads
    with a computed name: the module names ([out[name]]), the port names
    ([portmap[pname]]), the cell types ([portmaps[cell.type]],
    [cell.type in data.modules]) and the connection names
    ([cell.connections[pname]], [portmap[pname]]). *)
Definition plain_cell (c : cell) : bool :=
  plain (cell_type c)
  && forallb plain (keys (port_directions c))
  && forallb plain (keys (connections c)).

Definition plain_module (mdl : module) : bool :=
  forallb plain (keys (ports mdl))
  && forallb (fun kv : string * cell => plain_cell (snd kv)) (cells mdl).

Definition plain_netlist (data : netlist) : bool :=
  forallb (fun kv : string * module => plain (fst kv) && plain_module (snd kv))
          (modules data).

(** ** [module_deps] *)

(** [cell.type in data.modules] is [obj_in]: the cell types are taken to be
    module names or [plain]. *)
Definition module_deps (data : netlist) : list (string * string) :=
  flat_map (fun '(name, mdl) =>
    flat_map (fun '(cname, c) =>
      if obj_in (cell_type c) (modules data)
      then [(cell_type c, name)]
      else []) (cells mdl)) (modules data).

(** ** [order_ports] *)

(** [{name: pname, num: port.bits[0]}]; [num] is [undefined] for an empty
    [bits]. *)
Record pdata : Type := {
  pd_name : string;
  pd_num : option N
}.

(** [a.num - b.num]; [None] is [NaN]. *)
Definition comp (a b : pdata) : option Z :=
  match pd_num a, pd_num b with
  | Some x, Some y => Some (Z.of_N x - Z.of_N y)%Z
  | _, _ => None
  end.

(** [cmp(y, x) > 0]: the one comparator outcome that puts [x] before [y]. *)
Definition comes_after {A : Type} (cmp : A -> A -> option Z) (y x : A) : bool :=
  match cmp y x with
  | Some d => (0 <? d)%Z
  | None => false
  end.

(** [Array.prototype.sort(cmp)] is a stable sort: an element moves in front
    of those that compare greater and stays behind the others.  A [NaN]
    from the comparator counts as 0; the order is then the one of this
    insertion, where ECMAScript leaves it to the implementation. *)
Fixpoint sort_insert {A : Type} (cmp : A -> A -> option Z) (x : A) (l : list A)
  : list A :=
  match l with
  | [] => [x]
  | y :: l' =>
      if comes_after cmp y x then x :: y :: l' else y :: sort_insert cmp x l'
  end.

Definition js_sort {A : Type} (cmp : A -> A -> option Z) (l : list A) : list A :=
  fold_left (fun acc x => sort_insert cmp x acc) l [].

Definition binmap : obj string := [("A", "in0"); ("B", "in1"); ("Y", "out0")].

(** The [switch (port.direction)] of [order_ports]. *)
Definition split_port (acc : list pdata * list pdata) (kv : string * port)
  : result (list pdata * list pdata) :=
  let '(ins, outs) := acc in
  let '(pname, p) := kv in
  let pd := {| pd_name := pname; pd_num := nth_error (bits p) 0 |} in
  if String.eqb (direction p) "input" then Ok (ins ++ [pd], outs)
  else if String.eqb (direction p) "output" then Ok (ins, outs ++ [pd])
  else Err (Error ("Invalid port direction: " ++ direction p)).

(** [for (const k in l) portmap[l[k].name] = prefix + k], from index [k]. *)
Fixpoint assign_slots (prefix : string) (l : list pdata) (k : nat)
  (portmap : obj string) : obj string :=
  match l with
  | [] => portmap
  | p :: l' =>
      assign_slots prefix l' (S k) (obj_set portmap (pd_name p) (prefix ++ dec k)%string)
  end.

Definition module_portmap (mdl : module) : result (obj string) :=
  io <- foldM split_port (ports mdl) ([], []) ;;
  let ins := js_sort comp (fst io) in
  let outs := js_sort comp (snd io) in
  Ok (assign_slots "out" outs 0 (assign_slots "in" ins 0 [])).

Definition order_ports (data : netlist) : result (obj (obj string)) :=
  let out := fold_left (fun out nm => obj_set out nm binmap)
               ["$and"; "$or"; "$xor"] [] in
  foldM (fun out '(name, mdl) =>
           portmap <- module_portmap mdl ;;
           Ok (obj_set out name portmap))
        (modules data) out.

(** ** [yosys_to_simcir] *)

(** *** The net table [nets] *)

(** A property name of [nets]: a net id, or [None] for the name
    ["undefined"] that [pconn[0]] gives on an empty connection. *)
Definition netkey : Type := option N.

Definition netkey_eqb (k k' : netkey) : bool :=
  match k, k' with
  | Some i, Some j => N.eqb i j
  | None, None => true
  | _, _ => false
  end.

(** [{source: ..., targets: [...]}] *)
Record net : Type := {
  source : option string;
  targets : list string
}.

(** [nets], in [for ... in] order: array indices (below 2^32 - 1) ascending,
    then the other names in creation order. *)
Definition net_table : Type := list (netkey * net).

Definition array_index (k : netkey) : option N :=
  match k with
  | Some i => if (i <? 4294967295)%N then Some i else None
  | None => None
  end.

Definition enumerated_before (k k' : netkey) : bool :=
  match array_index k, array_index k' with
  | Some i, Some j => (i <? j)%N
  | Some _, None => true
  | None, _ => false
  end.

Fixpoint nets_get (t : net_table) (k : netkey) : option net :=
  match t with
  | [] => None
  | (k', nt) :: t' => if netkey_eqb k' k then Some nt else nets_get t' k
  end.

(** Creation of the property [k]. *)
Fixpoint nets_new (t : net_table) (k : netkey) (nt : net) : net_table :=
  match t with
  | [] => [(k, nt)]
  | (k', nt') :: t' =>
      if enumerated_before k k' then (k, nt) :: t
      else (k', nt') :: nets_new t' k nt
  end.

(** A write to a field of the net object stored under [k]. *)
Fixpoint nets_put (t : net_table) (k : netkey) (nt : net) : net_table :=
  match t with
  | [] => []
  | (k', nt') :: t' =>
      if netkey_eqb k' k then (k', nt) :: t' else (k', nt') :: nets_put t' k nt
  end.

Definition get_net (t : net_table) (k : netkey) : net_table * net :=
  match nets_get t k with
  | Some nt => (t, nt)
  | None =>
      let nt := {| source := None; targets := [] |} in
      (nets_new t k nt, nt)
  end.

(** [d+'.'+p] *)
Definition endpoint (d : string) (p : option string) : string :=
  (d ++ "." ++ js_str p)%string.

Definition add_net_source (t : net_table) (k : netkey) (d : string)
  (p : option string) : result net_table :=
  let '(t', nt) := get_net t k in
  assert (match source nt with None => true | Some _ => false end)
         net_source_undefined ;;;
  Ok (nets_put t' k {| source := Some (endpoint d p); targets := targets nt |}).

Definition add_net_target (t : net_table) (k : netkey) (d : string)
  (p : option string) : net_table :=
  let '(t', nt) := get_net t k in
  nets_put t' k {| source := source nt; targets := targets nt ++ [endpoint d p] |}.

(** *** Devices, connectors and the module diagram *)

Record device : Type := {
  dev_id : string;
  dev_x : Q;
  dev_y : Q;
  dev_label : string;
  dev_order : option nat;      (* set on port devices only *)
  dev_type : string
}.

(** [{from: ..., to: ...}]; [conn_to] is [None] when [net.source] is
    [undefined]. *)
Record connector : Type := {
  conn_from : string;
  conn_to : option string
}.

Record diagram : Type := {
  width : Q;
  height : Q;
  devices : list device;
  connectors : list connector
}.

(** The state of one turn of the loop over [data.modules]: the counter [n]
    of [gen_name], [nets] and [mout.devices]. *)
Record builder : Type := {
  b_n : nat;
  b_nets : net_table;
  b_devices : list device
}.

Definition builder0 : builder :=
  {| b_n := 0; b_nets := []; b_devices := [] |}.

(** ['dev' + n] *)
Definition gen_name (n : nat) : string := ("dev" ++ dec n)%string.

(** The body of [for (const pname in mod.ports)]. *)
Definition port_step (b : builder) (kv : string * port) : result builder :=
  let '(pname, p) := kv in
  let dname := gen_name (b_n b) in
  let n := S (b_n b) in
  let dev ty := {| dev_id := dname; dev_x := 0; dev_y := 0; dev_label := pname;
                   dev_order := Some n; dev_type := ty |} in
  assert (Nat.eqb (List.length (bits p)) 1) port_bits_length ;;;
  if String.eqb (direction p) "input" then
    t <- add_net_source (b_nets b) (nth_error (bits p) 0) dname (Some "out0") ;;
    Ok {| b_n := n; b_nets := t; b_devices := b_devices b ++ [dev "In"] |}
  else if String.eqb (direction p) "output" then
    let t := add_net_target (b_nets b) (nth_error (bits p) 0) dname (Some "in0") in
    Ok {| b_n := n; b_nets := t; b_devices := b_devices b ++ [dev "Out"] |}
  else Err (Error ("Invalid port direction: " ++ direction p)).

(** The first [switch (cell.type)]. *)
Definition display_type (ty : string) : string :=
  if String.eqb ty "$and" then "AND"
  else if String.eqb ty "$or" then "OR"
  else if String.eqb ty "$xor" then "XOR"
  else ty.

Definition is_gate (ty : string) : bool :=
  String.eqb ty "$and" || String.eqb ty "$or" || String.eqb ty "$xor".

(** [assert(cell.connections.P.length == 1)] *)
Definition assert_connection_length (c : cell) (pname : string) : result unit :=
  match obj_get (connections c) pname with
  | None => Err TypeError
  | Some pconn => assert (Nat.eqb (List.length pconn) 1) (connection_length pname)
  end.

(** [assert(cell.port_directions.P == dir)] *)
Definition assert_gate_direction (c : cell) (pname dir : string) : result unit :=
  assert (match obj_get (port_directions c) pname with
          | Some d => String.eqb d dir
          | None => false
          end) (gate_direction pname).

(** The second [switch (cell.type)]. *)
Definition gate_asserts (c : cell) : result unit :=
  if is_gate (cell_type c) then
    assert_connection_length c "A" ;;;
    assert_connection_length c "B" ;;;
    assert_connection_length c "Y" ;;;
    assert_gate_direction c "A" "input" ;;;
    assert_gate_direction c "B" "input" ;;;
    assert_gate_direction c "Y" "output"
  else Ok tt.

(** [pconn[0]], then [portmap[pname]]: either read throws on [undefined].
    The connection names are taken to be own names or [plain]. *)
Definition connection_args (portmap : option (obj string)) (c : cell)
  (pname : string) : result (netkey * option string) :=
  match obj_get (connections c) pname with
  | None => Err TypeError
  | Some pconn =>
      match portmap with
      | None => Err TypeError
      | Some pm => Ok (nth_error pconn 0, obj_get pm pname)
      end
  end.

(** The body of [for (const pname in cell.port_directions)]. *)
Definition connection_step (portmap : option (obj string)) (c : cell)
  (dname : string) (t : net_table) (kv : string * string) : result net_table :=
  let '(pname, pdir) := kv in
  if String.eqb pdir "input" then
    a <- connection_args portmap c pname ;;
    Ok (add_net_target t (fst a) dname (snd a))
  else if String.eqb pdir "output" then
    a <- connection_args portmap c pname ;;
    add_net_source t (fst a) dname (snd a)
  else Err (Error ("Invalid port direction: " ++ pdir)).

(** The body of [for (const cname in mod.cells)]; [portmaps[cell.type]] is
    [obj_get], for a cell type that is an own name of the table or [plain]. *)
Definition cell_step (portmaps : obj (obj string)) (b : builder)
  (kv : string * cell) : result builder :=
  let '(cname, c) := kv in
  let portmap := obj_get portmaps (cell_type c) in
  let dname := gen_name (b_n b) in
  let dev := {| dev_id := dname; dev_x := 0; dev_y := 0; dev_label := cname;
                dev_order := None; dev_type := display_type (cell_type c) |} in
  gate_asserts c ;;;
  t <- foldM (connection_step portmap c dname) (port_directions c) (b_nets b) ;;
  Ok {| b_n := S (b_n b); b_nets := t; b_devices := b_devices b ++ [dev] |}.

(** [for (const nnum in nets) for (const target in net.targets)
    mout.connectors.push({from: net.targets[target], to: net.source})] *)
Definition push_connectors (cs : list connector) (t : net_table)
  : list connector :=
  fold_left (fun cs '(nnum, nt) =>
    fold_left (fun cs target =>
                 cs ++ [{| conn_from := target; conn_to := source nt |}])
              (targets nt) cs) t cs.

(** Ports, then cells: the state when the connectors are emitted. *)
Definition register_devices (portmaps : obj (obj string)) (mdl : module)
  : result builder :=
  b <- foldM port_step (ports mdl) builder0 ;;
  foldM (cell_step portmaps) (cells mdl) b.

(** One turn of [for (const name in data.modules)]: the finished [mout]. *)
Definition convert_module (portmaps : obj (obj string)) (mdl : module)
  : result diagram :=
  b <- register_devices portmaps mdl ;;
  Ok {| width := 800; height := 500; devices := b_devices b;
        connectors := push_connectors [] (b_nets b) |}.

Definition yosys_to_simcir (data : netlist) (portmaps : obj (obj string))
  : result (obj diagram) :=
  foldM (fun out '(name, mdl) =>
           mout <- convert_module portmaps mdl ;;
           Ok (obj_set out name mout))
        (modules data) [].

(** ** [layout_circuit] *)

(** [s.split('.')[0]] *)
Fixpoint before_dot (s : string) : string :=
  match s with
  | EmptyString => EmptyString
  | String c s' =>
      if Ascii.eqb c "."%char then EmptyString else String c (before_dot s')
  end.

(** The [graphlib] graph [g]: the nodes in creation order, each with the
    [id] of its label ([None] for a node that [setEdge] created, which has
    no label), and the edges. *)
Record graph : Type := {
  g_nodes : obj (option string);
  g_edges : list (string * string)
}.

Definition graph0 : graph := {| g_nodes := []; g_edges := [] |}.

(** [g.setNode(v, {id: v, width: 32, height: 32})] *)
Definition setNode (g : graph) (v : string) : graph :=
  {| g_nodes := obj_set (g_nodes g) v (Some v); g_edges := g_edges g |}.

Definition has_edge (g : graph) (v w : string) : bool :=
  existsb (fun e => String.eqb (fst e) v && String.eqb (snd e) w) (g_edges g).

(** The node [v] that an edge needs: created without a label when absent. *)
Definition ensure_node (nodes : obj (option string)) (v : string)
  : obj (option string) :=
  if obj_in v nodes then nodes else obj_set nodes v None.

(** [g.setEdge(v, w)] *)
Definition setEdge (g : graph) (v w : string) : graph :=
  if has_edge g v w then g
  else {| g_nodes := ensure_node (ensure_node (g_nodes g) v) w;
          g_edges := g_edges g ++ [(v, w)] |}.

(** [dev.x = x; dev.y = y] *)
Definition move_to (d : device) (xy : Q * Q) : device :=
  {| dev_id := dev_id d; dev_x := fst xy; dev_y := snd xy;
     dev_label := dev_label d; dev_order := dev_order d;
     dev_type := dev_type d |}.

(** [devmap[id].x = x; devmap[id].y = y], where [devmap[id]] is the last
    device of the list whose id is [id]. *)
Fixpoint place (devs : list device) (id : string) (xy : Q * Q) : list device :=
  match devs with
  | [] => []
  | d :: devs' =>
      if String.eqb (dev_id d) id
         && negb (existsb (fun d' => String.eqb (dev_id d') id) devs')
      then move_to d xy :: devs'
      else d :: place devs' id xy
  end.

(** The locals [circ.devices], [maxx] and [maxy] of the last loop. *)
Record placing : Type := {
  pl_devices : list device;
  maxx : Q;
  maxy : Q
}.

Section Layout.
(** [dagre.layout(g)]: the position it writes into the label of each node.
    The library is no part of the script; its result enters as a function
    of the graph, and the call is taken to return on every graph. *)
Variable dagre_layout : graph -> string -> Q * Q.

(** The body of [for (const conn of circ.connectors)]. *)
Definition edge_step (g : graph) (conn : connector) : result graph :=
  match conn_to conn with
  | None => Err TypeError
  | Some to => Ok (setEdge g (before_dot (conn_from conn)) (before_dot to))
  end.

(** The body of [for (const nname of g.nodes())]. *)
Definition node_step (g : graph) (s : placing) (kv : string * option string)
  : result placing :=
  let '(nname, node) := kv in
  match node with
  | None => Err TypeError
  | Some id =>
      let xy := dagre_layout g nname in
      Ok {| pl_devices := place (pl_devices s) id xy;
            maxx := Qmax (maxx s) (fst xy);
            maxy := Qmax (maxy s) (snd xy) |}
  end.

Definition layout_circuit (circ : diagram) : result diagram :=
  let g := fold_left (fun g dev => setNode g (dev_id dev)) (devices circ) graph0 in
  g <- foldM edge_step (connectors circ) g ;;
  s <- foldM (node_step g) (g_nodes g)
         {| pl_devices := devices circ; maxx := 0; maxy := 0 |} ;;
  Ok {| width := maxx s + 256; height := maxy s + 64;
        devices := pl_devices s; connectors := connectors circ |}.

Definition layout_circuits (circs : obj diagram) : result (obj diagram) :=
  foldM (fun out '(name, circ) =>
           circ' <- layout_circuit circ ;;
           Ok (out ++ [(name, circ')]))
        circs [].
End Layout.

(** ** The top level of the script *)

(** What the script prints: a [simcir.registerDevice(name, ...)] call for
    each module but the last of [toporder], then the diagram of [toplevel].
    [None] stands for the [undefined] that [out[x]] gives for an absent [x]. *)
Record document : Type := {
  registered : list (string * option diagram);
  toplevel : option string;
  toplevel_diagram : option diagram
}.

(** [toporder.pop()]: the last element, [undefined] on an empty array. *)
Definition pop {A : Type} (l : list A) : list A * option A :=
  match rev l with
  | [] => ([], None)
  | a :: r => (rev r, Some a)
  end.

Section TopLevel.
Variable dagre_layout : graph -> string -> Q * Q.

(** [topsort(edges)] of the npm package [topsort]; [None] when it throws. *)
Variable topsort : list (string * string) -> option (list string).

Definition process (data : netlist) : result document :=
  portmaps <- order_ports data ;;
  out <- yosys_to_simcir data portmaps ;;
  out <- layout_circuits dagre_layout out ;;
  toporder <- match topsort (module_deps data) with
              | Some l => Ok l
              | None => Err TopsortError
              end ;;
  let '(toporder, toplevel) := pop toporder in
  Ok {| registered := map (fun x => (x, obj_get out x)) toporder;
        toplevel := toplevel;
        toplevel_diagram := obj_get out (js_str toplevel) |}.
End TopLevel.

(** The module names in the order the document shows them. *)
Definition emission_order (doc : document) : list string :=
  map fst (registered doc) ++
  match toplevel doc with
  | Some x => [x]
  | None => []
  end.

(** ** The two libraries the script calls *)

(** [v] occurs in [l] strictly before [w]. *)
Definition before (v w : string) (l : list string) : Prop :=
  exists l1 l2 l3, l = l1 ++ v :: l2 ++ w :: l3.

Definition edge_nodes (edges : list (string * string)) : list string :=
  flat_map (fun e => [fst e; snd e]) edges.

(** What a result of [topsort(edges)] is: the nodes of the edges, each once,
    every edge pointing forward. *)
Record topological (edges : list (string * string)) (order : list string)
  : Prop := {
  topo_nodup : NoDup order;
  topo_nodes : forall v, In v order <-> In v (edge_nodes edges);
  topo_before : forall v w, In (v, w) edges -> before v w order
}.

Definition mem (v : string) (l : list string) : bool :=
  existsb (String.eqb v) l.

Fixpoint nodupb (l : list string) : bool :=
  match l with
  | [] => true
  | v :: l' => negb (mem v l') && nodupb l'
  end.

Fixpoint position (v : string) (l : list string) : option nat :=
  match l with
  | [] => None
  | w :: l' =>
      if String.eqb w v then Some 0
      else match position v l' with
           | Some i => Some (S i)
           | None => None
           end
  end.

Definition forward (order : list string) (e : string * string) : bool :=
  match position (fst e) order, position (snd e) order with
  | Some i, Some j => i <? j
  | _, _ => false
  end.

Definition is_topological (edges : list (string * string)) (order : list string)
  : bool :=
  nodupb order
  && forallb (fun v => mem v (edge_nodes edges)) order
  && forallb (fun v => mem v order) (edge_nodes edges)
  && forallb (forward order) edges.

(** The nodes of [remaining] are taken one at a time, each time the first
    one that no edge from another remaining node points to. *)
Fixpoint sources_first (fuel : nat) (edges : list (string * string))
  (remaining : list string) : list string :=
  match fuel with
  | 0 => []
  | S fuel' =>
      match find (fun v => negb (existsb (fun e => String.eqb (snd e) v
                                                   && mem (fst e) remaining)
                                         edges)) remaining with
      | None => []
      | Some v =>
          v :: sources_first fuel' edges
                 (filter (fun w => negb (String.eqb w v)) remaining)
      end
  end.

(** Modelled from the spec: [topsort] is the npm package the script loads
    with [require('topsort')]; its code is not under src/.  Section 4.2 asks
    for a topological sort of the edge set that fails when the sort cannot
    complete: the candidate order is built source-first and returned only if
    it is a topological order of the edges. *)
Definition topsort_ref (edges : list (string * string)) : option (list string) :=
  let nodes := nodup string_dec (edge_nodes edges) in
  let order := sources_first (List.length nodes) edges nodes in
  if is_topological edges order then Some order else None.

(** Modelled from the spec: [dagre.layout] is the npm package [dagre]; its
    code is not under src/.  Section 4.4 asks for non-negative coordinates
    for every node, connected or not; this placement puts the nodes of the
    graph on one row, 82 units apart, the first at (16, 16). *)
Definition row_layout (g : graph) (v : string) : Q * Q :=
  match position v (keys (g_nodes g)) with
  | Some i => (inject_Z (16 + 82 * Z.of_nat i), 16%Q)
  | None => (16%Q, 16%Q)
  end.

(** * Vocabulary of the properties *)

(** [nets[k].source] and [nets[k].targets], read through an absent [k]. *)
Definition net_driver (t : net_table) (k : netkey) : option string :=
  match nets_get t k with
  | Some nt => source nt
  | None => None
  end.

Definition net_targets (t : net_table) (k : netkey) : list string :=
  match nets_get t k with
  | Some nt => targets nt
  | None => []
  end.

(** The nets on which a module registers a driver, in registration order:
    the input ports, then the output connections of the cells. *)
Definition port_drivers (ps : obj port) : list netkey :=
  flat_map (fun kv : string * port =>
    if String.eqb (direction (snd kv)) "input"
    then [nth_error (bits (snd kv)) 0] else []) ps.

Definition connection_drivers (c : cell) (pds : obj string) : list netkey :=
  flat_map (fun kv : string * string =>
    if String.eqb (snd kv) "output"
    then match obj_get (connections c) (fst kv) with
         | Some pconn => [nth_error pconn 0]
         | None => []
         end
    else []) pds.

Definition cell_drivers (cs : obj cell) : list netkey :=
  flat_map (fun kv : string * cell =>
              connection_drivers (snd kv) (port_directions (snd kv))) cs.

Definition module_drivers (mdl : module) : list netkey :=
  port_drivers (ports mdl) ++ cell_drivers (cells mdl).

(** The nets of [ds] are pairwise distinct and are the nets that have a
    driver in [t]. *)
Definition driven (t : net_table) (ds : list netkey) : Prop :=
  NoDup ds /\ forall k, In k ds <-> net_driver t k <> None.

(** The [(net, endpoint)] pairs a module registers with [add_net_target], in
    registration order; [n] is the counter of [gen_name] when the loop
    starts. *)
Fixpoint port_listeners (n : nat) (ps : obj port) : list (netkey * string) :=
  match ps with
  | [] => []
  | (pname, p) :: ps' =>
      (if String.eqb (direction p) "output"
       then [(nth_error (bits p) 0, endpoint (gen_name n) (Some "in0"))]
       else [])
      ++ port_listeners (S n) ps'
  end.

Definition connection_listeners (portmap : option (obj string)) (c : cell)
  (dname : string) (pds : obj string) : list (netkey * string) :=
  flat_map (fun kv : string * string =>
    if String.eqb (snd kv) "input"
    then match obj_get (connections c) (fst kv), portmap with
         | Some pconn, Some pm =>
             [(nth_error pconn 0, endpoint dname (obj_get pm (fst kv)))]
         | _, _ => []
         end
    else []) pds.

Fixpoint cell_listeners (portmaps : obj (obj string)) (n : nat) (cs : obj cell)
  : list (netkey * string) :=
  match cs with
  | [] => []
  | (cname, c) :: cs' =>
      connection_listeners (obj_get portmaps (cell_type c)) c (gen_name n)
        (port_directions c)
      ++ cell_listeners portmaps (S n) cs'
  end.

Definition module_listeners (portmaps : obj (obj string)) (mdl : module)
  : list (netkey * string) :=
  port_listeners 0 (ports mdl)
  ++ cell_listeners portmaps (List.length (ports mdl)) (cells mdl).

(** The listeners of [ls] that are on net [k]. *)
Definition listeners_on (ls : list (netkey * string)) (k : netkey) : list string :=
  map snd (filter (fun e => netkey_eqb (fst e) k) ls).

(** [nets] holds, net by net, the listeners of [ls] in their order. *)
Definition listening (t : net_table) (ls : list (netkey * string)) : Prop :=
  forall k, net_targets t k = listeners_on ls k.

(** One connector for each listener of the net, to the driver of the net. *)
Definition net_connectors (kn : netkey * net) : list connector :=
  map (fun target => {| conn_from := target; conn_to := source (snd kn) |})
      (targets (snd kn)).

(** ** Port ranks *)






(** ** Canvas size *)

(** The maximum of a list of coordinates, 0 for the empty list. *)
Definition max_or_zero (xs : list Q) : Q :=
  match xs with
  | [] => 0
  | x :: xs' => fold_left Qmax xs' x
  end.

(** The node [g.setNode(dev.id, ...)] creates. *)
Definition device_node (d : device) : string * option string :=
  (dev_id d, Some (dev_id d)).

(** A node without a label: [g.node(nname)] is [undefined]. *)
Definition unlabelled (kv : string * option string) : Prop := snd kv = None.

(** The devices built so far are [dev0], [dev1], ..., one per turn. *)
Definition numbered (b : builder) : Prop :=
  map dev_id (b_devices b) = map gen_name (seq 0 (b_n b)).

(** ** Module dependencies *)

(** Module [user] has a cell whose type is the module [used]. *)
Definition instantiates (data : netlist) (user used : string) : Prop :=
  exists mdl cname c,
    In (user, mdl) (modules data)
    /\ In (cname, c) (cells mdl)
    /\ cell_type c = used
    /\ In used (keys (modules data)).

(** ** Example netlists *)

Definition in_port (bit : N) : port := {| direction := "input"; bits := [bit] |}.
Definition out_port (bit : N) : port := {| direction := "output"; bits := [bit] |}.

(** One AND gate between the inputs [a], [b] and the output [y]. *)
Definition and_module : module := {|
  ports := [("a", in_port 2); ("b", in_port 3); ("y", out_port 4)];
  cells := [("g", {| cell_type := "$and";
                     port_directions := [("A", "input"); ("B", "input");
                                         ("Y", "output")];
                     connections := [("A", [2%N]); ("B", [3%N]); ("Y", [4%N])] |})]
|}.

Definition and_netlist : netlist := {| modules := [("top", and_module)] |}.

(** The port maps [order_ports] gives for [and_netlist]. *)
Definition and_portmaps : obj (obj string) :=
  [("$and", binmap); ("$or", binmap); ("$xor", binmap);
   ("top", [("a", "in0"); ("b", "in1"); ("y", "out0")])].

(** Three inputs declared at the bit indices 3, 1 and 2. *)
Definition inputs_312 : module := {|
  ports := [("p3", in_port 3); ("p1", in_port 1); ("p2", in_port 2)];
  cells := []
|}.

Definition inputs_312_netlist : netlist := {| modules := [("m", inputs_312)] |}.

(** An output port on net 5, which nothing drives. *)
Definition dangling_module : module := {|
  ports := [("y", out_port 5)];
  cells := []
|}.

Definition dangling_netlist : netlist :=
  {| modules := [("top", dangling_module)] |}.

(** A cell of a type that is neither a gate nor a module of the netlist. *)
Definition not_cell : cell := {|
  cell_type := "$not";
  port_directions := [("A", "input"); ("Y", "output")];
  connections := [("A", [2%N]); ("Y", [3%N])]
|}.

Definition unknown_cell_netlist : netlist := {|
  modules := [("top", {| ports := [("a", in_port 2); ("y", out_port 3)];
                         cells := [("u", not_cell)] |})]
|}.

(** The same cell type on a cell without connections. *)
Definition bare_cell_netlist : netlist := {|
  modules := [("top", {| ports := [];
                         cells := [("u", {| cell_type := "$not";
                                            port_directions := [];
                                            connections := [] |})] |})]
|}.

(** [top] instantiates [sub] and connects the two nets 2 and 3 to its
    one-bit port [i]. *)
Definition wide_connection_netlist : netlist := {|
  modules :=
    [("top", {| ports := [("a", in_port 2)];
                cells := [("u", {| cell_type := "sub";
                                   port_directions := [("i", "input")];
                                   connections := [("i", [2%N; 3%N])] |})] |});
     ("sub", {| ports := [("i", in_port 2)]; cells := [] |})]
|}.

(** An AND gate with a connection [C] that the port map of [$and] lacks. *)
Definition extra_port_netlist : netlist := {|
  modules :=
    [("top", {| ports := [("a", in_port 2); ("b", in_port 3); ("y", out_port 4)];
                cells := [("g", {| cell_type := "$and";
                                   port_directions :=
                                     [("A", "input"); ("B", "input");
                                      ("Y", "output"); ("C", "input")];
                                   connections :=
                                     [("A", [2%N]); ("B", [3%N]); ("Y", [4%N]);
                                      ("C", [2%N])] |})] |})]
|}.

(** [top] instantiates [sub]. *)
Definition hierarchy_netlist : netlist := {|
  modules :=
    [("top", {| ports := [("i", in_port 2); ("o", out_port 3)];
                cells := [("u", {| cell_type := "sub";
                                   port_directions := [("a", "input");
                                                       ("q", "output")];
                                   connections := [("a", [2%N]); ("q", [3%N])] |})] |});
     ("sub", {| ports := [("a", in_port 2); ("q", out_port 2)]; cells := [] |})]
|}.

(** Two AND gates that both drive net 4. *)
Definition two_drivers_netlist : netlist := {|
  modules :=
    [("top",
      {| ports := [("a", in_port 2); ("b", in_port 3); ("y", out_port 4)];
         cells :=
           [("g1", {| cell_type := "$and";
                      port_directions := [("A", "input"); ("B", "input");
                                          ("Y", "output")];
                      connections := [("A", [2%N]); ("B", [3%N]); ("Y", [4%N])] |});
            ("g2", {| cell_type := "$and";
                      port_directions := [("A", "input"); ("B", "input");
                                          ("Y", "output")];
                      connections := [("A", [3%N]); ("B", [2%N]); ("Y", [4%N])] |})]
      |})]
|}.

(** One module with one input port, its diagram, and the diagram laid out
    on one row. *)
Definition one_port_netlist : netlist :=
  {| modules := [("top", {| ports := [("a", in_port 2)]; cells := [] |})] |}.

Definition one_port_out : obj diagram :=
  [("top",
    {| width := 800; height := 500;
       devices := [{| dev_id := "dev0"; dev_x := 0; dev_y := 0;
                      dev_label := "a"; dev_order := Some 1;
                      dev_type := "In" |}];
       connectors := [] |})].

Definition one_port_layout : obj diagram :=
  [("top",
    {| width := 16 + 256; height := 16 + 64;
       devices := [{| dev_id := "dev0"; dev_x := 16; dev_y := 16;
                      dev_label := "a"; dev_order := Some 1;
                      dev_type := "In" |}];
       connectors := [] |})].

(** ** The devices of a module *)

(** The device of the port [kv], made when the counter of [gen_name] is [n]. *)
Definition port_device (n : nat) (kv : string * port) : device :=
  {| dev_id := gen_name n; dev_x := 0; dev_y := 0; dev_label := fst kv;
     dev_order := Some (S n);
     dev_type := if String.eqb (direction (snd kv)) "input" then "In" else "Out" |}.

(** The device of the cell [kv]. *)
Definition cell_device (n : nat) (kv : string * cell) : device :=
  {| dev_id := gen_name n; dev_x := 0; dev_y := 0; dev_label := fst kv;
     dev_order := None; dev_type := display_type (cell_type (snd kv)) |}.

(** [f n a0; f (n+1) a1; ...] *)
Fixpoint map_from {A B : Type} (f : nat -> A -> B) (n : nat) (l : list A)
  : list B :=
  match l with
  | [] => []
  | a :: l' => f n a :: map_from f (S n) l'
  end.

(** One device per port, then one per cell, numbered from 0. *)
Definition module_devices (mdl : module) : list device :=
  map_from port_device 0 (ports mdl)
  ++ map_from cell_device (List.length (ports mdl)) (cells mdl).

(** ** Port directions *)

(** The two directions the [switch] statements accept. *)
Definition valid_direction (d : string) : Prop := d = "input" \/ d = "output".

(** The message of [throw Error('Invalid port direction: ' + d)]. *)
Definition invalid_direction (d : string) : exn :=
  Error ("Invalid port direction: " ++ d).

(** ** Gate cells *)

(** The shape the assertions on a [$and], [$or] or [$xor] cell ask for: one
    net on each of A, B and Y, and A, B inputs, Y an output. *)
Definition gate_shaped (c : cell) : Prop :=
  (exists a b y,
      obj_get (connections c) "A" = Some [a]
      /\ obj_get (connections c) "B" = Some [b]
      /\ obj_get (connections c) "Y" = Some [y])
  /\ obj_get (port_directions c) "A" = Some "input"
  /\ obj_get (port_directions c) "B" = Some "input"
  /\ obj_get (port_directions c) "Y" = Some "output".

(** The AND gate of [and_module]. *)
Definition and_cell : cell := {|
  cell_type := "$and";
  port_directions := [("A", "input"); ("B", "input"); ("Y", "output")];
  connections := [("A", [2%N]); ("B", [3%N]); ("Y", [4%N])]
|}.

(** ** What the layout keeps and what it sets *)

(** The same device up to its position. *)
Definition same_device (d d' : device) : Prop :=
  dev_id d = dev_id d' /\ dev_label d = dev_label d'
  /\ dev_order d = dev_order d' /\ dev_type d = dev_type d'.

(** The edge of a connector: from the device of the listener to the device
    of the driver. *)
Definition connector_edge (c : connector) (e : string * string) : Prop :=
  exists to, conn_to c = Some to
             /\ e = (before_dot (conn_from c), before_dot to).

(** ** Driver endpoints *)

(** The [(net, endpoint)] pairs a module registers with [add_net_source], in
    registration order; [n] is the counter of [gen_name] when the loop
    starts. *)
Fixpoint port_sources (n : nat) (ps : obj port) : list (netkey * string) :=
  match ps with
  | [] => []
  | (pname, p) :: ps' =>
      (if String.eqb (direction p) "input"
       then [(nth_error (bits p) 0, endpoint (gen_name n) (Some "out0"))]
       else [])
      ++ port_sources (S n) ps'
  end.

Definition connection_sources (portmap : option (obj string)) (c : cell)
  (dname : string) (pds : obj string) : list (netkey * string) :=
  flat_map (fun kv : string * string =>
    if String.eqb (snd kv) "output"
    then match obj_get (connections c) (fst kv), portmap with
         | Some pconn, Some pm =>
             [(nth_error pconn 0, endpoint dname (obj_get pm (fst kv)))]
         | _, _ => []
         end
    else []) pds.

Fixpoint cell_sources (portmaps : obj (obj string)) (n : nat) (cs : obj cell)
  : list (netkey * string) :=
  match cs with
  | [] => []
  | (cname, c) :: cs' =>
      connection_sources (obj_get portmaps (cell_type c)) c (gen_name n)
        (port_directions c)
      ++ cell_sources portmaps (S n) cs'
  end.

Definition module_sources (portmaps : obj (obj string)) (mdl : module)
  : list (netkey * string) :=
  port_sources 0 (ports mdl)
  ++ cell_sources portmaps (List.length (ports mdl)) (cells mdl).

(** The endpoint registered on net [k] in [ss], if any. *)
Definition source_on (ss : list (netkey * string)) (k : netkey) : option string :=
  option_map snd (find (fun e => netkey_eqb (fst e) k) ss).

(** [nets] holds, net by net, the driver [ss] registers there, and [ss]
    registers at most one driver on a net. *)
Definition sourcing (t : net_table) (ss : list (netkey * string)) : Prop :=
  NoDup (map fst ss) /\ forall k, net_driver t k = source_on ss k.

(** The endpoint [devI.slot] of one of the first [n] devices. *)
Definition device_endpoint (n : nat) (s : string) : Prop :=
  exists i p, i < n /\ s = endpoint (gen_name i) p.

(** ** The stages, module by module *)

(** [o] is the entry of [out] for the module [m]. *)
Definition converts_to (portmaps : obj (obj string)) (m : string * module)
  (o : string * diagram) : Prop :=
  fst o = fst m /\ convert_module portmaps (snd m) = Ok (snd o).

(** [o] is the entry [c] after its layout. *)
Definition laid_out (dagre_layout : graph -> string -> Q * Q)
  (c o : string * diagram) : Prop :=
  fst o = fst c /\ layout_circuit dagre_layout (snd c) = Ok (snd o).


(** Module [user] instantiates [used], directly or through other modules. *)
Inductive depends_on (data : netlist) : string -> string -> Prop :=
| depends_step user used :
    instantiates data user used -> depends_on data user used
| depends_trans user via used :
    depends_on data user via -> depends_on data via used ->
    depends_on data user used.

(** Two modules that instantiate each other. *)
Definition mutual_netlist : netlist := {|
  modules :=
    [("a", {| ports := [];
              cells := [("u", {| cell_type := "b"; port_directions := [];
                                 connections := [] |})] |});
     ("b", {| ports := [];
              cells := [("v", {| cell_type := "a"; port_directions := [];
                                 connections := [] |})] |})]
|}.

(** ** The modules that convert *)

(** What the port loop asks of a port. *)
Definition port_ok (p : port) : Prop :=
  List.length (bits p) = 1 /\ valid_direction (direction p).

(** What the cell loop asks of a cell: the shape of a gate if it is one,
    and for every declared connection a valid direction, an entry in
    [cell.connections] and a port map for the type of the cell. *)
Definition cell_ok (portmaps : obj (obj string)) (c : cell) : Prop :=
  (is_gate (cell_type c) = true -> gate_shaped c)
  /\ forall pname pdir,
       In (pname, pdir) (port_directions c) ->
       valid_direction pdir
       /\ obj_get (connections c) pname <> None
       /\ obj_get portmaps (cell_type c) <> None.

(** Ports and cells pass the checks, and no net is driven twice. *)
Definition convertible (portmaps : obj (obj string)) (mdl : module) : Prop :=
  (forall pname p, In (pname, p) (ports mdl) -> port_ok p)
  /\ (forall cname c, In (cname, c) (cells mdl) -> cell_ok portmaps c)
  /\ NoDup (module_drivers mdl).

(** ** The slots of a port map *)




(** ** The order of the connectors *)

(** The order of [for (const nnum in nets)]: the array indices ascending,
    then the other names. *)
Definition net_before (k k' : netkey) : Prop :=
  match array_index k, array_index k' with
  | Some i, Some j => (i < j)%N
  | Some _, None => True
  | None, Some _ => False
  | None, None => True
  end.

(** Every net of the table has a driver or a listener. *)
Definition populated (t : net_table) : Prop :=
  forall k nt, nets_get t k = Some nt -> source nt <> None \/ targets nt <> [].

(** The table enumerates in [net_before] order and has no empty net. *)
Definition tidy (t : net_table) : Prop :=
  StronglySorted net_before (map fst t) /\ populated t.

(** The connectors of net [k]: one per listener, to the driver. *)
Definition connectors_on (ls ss : list (netkey * string)) (k : netkey)
  : list connector :=
  map (fun target => {| conn_from := target; conn_to := source_on ss k |})
      (listeners_on ls k).

(** ** The netlists the script accepts *)

(** Every net that a port or a cell of the module listens on has a driver
    in the module. *)
Definition all_driven (portmaps : obj (obj string)) (mdl : module) : Prop :=
  forall e, In e (module_listeners portmaps mdl) ->
            In (fst e) (map fst (module_sources portmaps mdl)).
(** * Properties *)

(** ** Loops that may throw *)

Lemma bind_ok {A B : Type} (r : result A) (k : A -> result B) (b : B) :
  bind r k = Ok b -> exists a, r = Ok a /\ k a = Ok b.
Proof.
  destruct r as [a | e]; simpl; intros H.
  - exists a. split; [reflexivity | exact H].
  - discriminate H.
Qed.

Lemma assert_ok (c : bool) (a : assertion) (u : unit) :
  assert c a = Ok u -> c = true.
Proof. destruct c; simpl; [reflexivity | discriminate]. Qed.

Lemma foldM_app {A S : Type} (step : S -> A -> result S) (l1 l2 : list A) (s : S) :
  foldM step (l1 ++ l2) s = (s1 <- foldM step l1 s ;; foldM step l2 s1).
Proof.
  revert s. induction l1 as [| a l1 IH]; intros s; simpl.
  - reflexivity.
  - destruct (step s a) as [s' | e]; simpl; [apply IH | reflexivity].
Qed.

(** An exception in the body, with the loop state reached by the turns
    before it, is the outcome of the loop. *)
Lemma foldM_throws {A S : Type} (step : S -> A -> result S)
  (l1 l2 : list A) (a : A) (s s1 : S) (e : exn) :
  foldM step l1 s = Ok s1 -> step s1 a = Err e ->
  foldM step (l1 ++ a :: l2) s = Err e.
Proof.
  intros H1 H2. rewrite foldM_app, H1. simpl. rewrite H2. reflexivity.
Qed.

(** Invariant rule: [I done s] relates the turns done so far to the state. *)
Lemma foldM_invariant {A S : Type} (step : S -> A -> result S)
  (I : list A -> S -> Prop) :
  (forall done a s s', I done s -> step s a = Ok s' -> I (done ++ [a]) s') ->
  forall l done s s', I done s -> foldM step l s = Ok s' -> I (done ++ l) s'.
Proof.
  intros Hstep. induction l as [| a l IH]; intros done s s' HI H; simpl in H.
  - injection H as <-. rewrite app_nil_r. exact HI.
  - apply bind_ok in H. destruct H as (s1 & H1 & H2).
    replace (done ++ a :: l) with ((done ++ [a]) ++ l)
      by (rewrite <- app_assoc; reflexivity).
    apply (IH _ s1); [| exact H2].
    apply (Hstep done a s s1 HI H1).
Qed.

(** ** Objects *)

Section JsObjectFacts.
Context {V : Type}.
Implicit Types (o : obj V) (k : string) (v : V).

Lemma obj_get_set_same o k v : obj_get (obj_set o k v) k = Some v.
Proof.
  induction o as [| [k' v'] o IH]; simpl.
  - rewrite String.eqb_refl. reflexivity.
  - destruct (String.eqb k' k) eqn:E; simpl; rewrite E; [reflexivity | exact IH].
Qed.

Lemma obj_get_set_other o k k' v :
  k <> k' -> obj_get (obj_set o k v) k' = obj_get o k'.
Proof.
  intros Hne. induction o as [| [k0 v0] o IH]; simpl.
  - destruct (String.eqb k k') eqn:E; [| reflexivity].
    apply String.eqb_eq in E. contradiction.
  - destruct (String.eqb k0 k) eqn:E; simpl.
    + apply String.eqb_eq in E. subst k0.
      destruct (String.eqb k k') eqn:E'; [| reflexivity].
      apply String.eqb_eq in E'. contradiction.
    + rewrite IH. reflexivity.
Qed.

Lemma obj_get_none o k : ~ In k (keys o) -> obj_get o k = None.
Proof.
  induction o as [| [k' v'] o IH]; simpl; intros Hn; [reflexivity |].
  destruct (String.eqb k' k) eqn:E.
  - apply String.eqb_eq in E. exfalso. apply Hn. left. exact E.
  - apply IH. intros Hin. apply Hn. right. exact Hin.
Qed.

Lemma obj_get_in o k v : obj_get o k = Some v -> In (k, v) o.
Proof.
  induction o as [| [k' v'] o IH]; simpl; intros H; [discriminate |].
  destruct (String.eqb k' k) eqn:E.
  - apply String.eqb_eq in E. injection H as <-. left. subst. reflexivity.
  - right. apply IH. exact H.
Qed.


Lemma obj_set_in o k v k' v' :
  In (k', v') (obj_set o k v) -> (k' = k /\ v' = v) \/ In (k', v') o.
Proof.
  induction o as [| [k0 v0] o IH]; simpl.
  - intros [H | []]. injection H as <- <-. left. split; reflexivity.
  - destruct (String.eqb k0 k) eqn:E; simpl.
    + apply String.eqb_eq in E. subst k0.
      intros [H | H].
      * injection H as <- <-. left. split; reflexivity.
      * right. right. exact H.
    + intros [H | H].
      * right. left. exact H.
      * destruct (IH H) as [H' | H']; [left; exact H' | right; right; exact H'].
Qed.
End JsObjectFacts.

(** ** The net table *)

Lemma netkey_eqb_eq (k k' : netkey) : netkey_eqb k k' = true <-> k = k'.
Proof.
  destruct k as [i |], k' as [j |]; simpl; split; intros H;
    try reflexivity; try discriminate.
  - apply N.eqb_eq in H. subst. reflexivity.
  - injection H as ->. apply N.eqb_refl.
Qed.

Lemma netkey_eqb_refl (k : netkey) : netkey_eqb k k = true.
Proof. apply netkey_eqb_eq. reflexivity. Qed.

Lemma netkey_eqb_neq (k k' : netkey) : netkey_eqb k k' = false <-> k <> k'.
Proof.
  split.
  - intros H Heq. apply netkey_eqb_eq in Heq. congruence.
  - intros H. destruct (netkey_eqb k k') eqn:E; [| reflexivity].
    apply netkey_eqb_eq in E. contradiction.
Qed.

Lemma netkey_eqb_sym (k k' : netkey) : netkey_eqb k k' = netkey_eqb k' k.
Proof.
  destruct (netkey_eqb k k') eqn:E.
  - apply netkey_eqb_eq in E. subst. symmetry. apply netkey_eqb_refl.
  - apply netkey_eqb_neq in E. symmetry. apply netkey_eqb_neq. congruence.
Qed.

Lemma nets_get_new_same t k nt :
  nets_get t k = None -> nets_get (nets_new t k nt) k = Some nt.
Proof.
  induction t as [| [k' nt'] t IH]; simpl; intros H.
  - rewrite netkey_eqb_refl. reflexivity.
  - destruct (netkey_eqb k' k) eqn:E; [discriminate |].
    destruct (enumerated_before k k'); simpl.
    + rewrite netkey_eqb_refl. reflexivity.
    + rewrite E. apply IH. exact H.
Qed.

Lemma nets_get_new_other t k nt k' :
  k <> k' -> nets_get (nets_new t k nt) k' = nets_get t k'.
Proof.
  intros Hne. apply netkey_eqb_neq in Hne.
  induction t as [| [k0 nt0] t IH]; simpl.
  - rewrite Hne. reflexivity.
  - destruct (enumerated_before k k0); simpl.
    + rewrite Hne. reflexivity.
    + rewrite IH. reflexivity.
Qed.

Lemma nets_get_put_same t k nt nt0 :
  nets_get t k = Some nt0 -> nets_get (nets_put t k nt) k = Some nt.
Proof.
  induction t as [| [k' nt'] t IH]; simpl; intros H; [discriminate |].
  destruct (netkey_eqb k' k) eqn:E; simpl; rewrite E; [reflexivity |].
  apply IH. exact H.
Qed.

Lemma nets_get_put_other t k nt k' :
  k <> k' -> nets_get (nets_put t k nt) k' = nets_get t k'.
Proof.
  intros Hne. induction t as [| [k0 nt0] t IH]; simpl; [reflexivity |].
  destruct (netkey_eqb k0 k) eqn:E; simpl.
  - apply netkey_eqb_eq in E. subst k0.
    apply netkey_eqb_neq in Hne. rewrite Hne. reflexivity.
  - rewrite IH. reflexivity.
Qed.

(** [get_net] returns the entry stored under [k] and changes no other. *)
Lemma get_net_spec t k t' nt :
  get_net t k = (t', nt) ->
  nets_get t' k = Some nt
  /\ source nt = net_driver t k
  /\ targets nt = net_targets t k
  /\ forall k', k <> k' -> nets_get t' k' = nets_get t k'.
Proof.
  unfold get_net, net_driver, net_targets.
  destruct (nets_get t k) as [nt0 |] eqn:E; intros H; injection H as <- <-.
  - repeat split; auto.
  - repeat split; auto.
    + apply nets_get_new_same. exact E.
    + intros k' Hne. apply nets_get_new_other. exact Hne.
Qed.

Lemma add_net_target_driver t k d p k' :
  net_driver (add_net_target t k d p) k' = net_driver t k'.
Proof.
  unfold add_net_target. destruct (get_net t k) as [t' nt] eqn:G.
  apply get_net_spec in G. destruct G as (Hg & Hs & Ht & Ho).
  unfold net_driver at 1.
  destruct (netkey_eqb k k') eqn:E.
  - apply netkey_eqb_eq in E. subst k'.
    rewrite (nets_get_put_same _ _ _ _ Hg). simpl. exact Hs.
  - apply netkey_eqb_neq in E.
    rewrite nets_get_put_other by exact E. rewrite Ho by exact E. reflexivity.
Qed.

Lemma add_net_target_targets t k d p k' :
  net_targets (add_net_target t k d p) k' =
  net_targets t k' ++ (if netkey_eqb k k' then [endpoint d p] else []).
Proof.
  unfold add_net_target. destruct (get_net t k) as [t' nt] eqn:G.
  apply get_net_spec in G. destruct G as (Hg & Hs & Ht & Ho).
  unfold net_targets at 1.
  destruct (netkey_eqb k k') eqn:E.
  - apply netkey_eqb_eq in E. subst k'.
    rewrite (nets_get_put_same _ _ _ _ Hg). simpl. rewrite Ht. reflexivity.
  - apply netkey_eqb_neq in E.
    rewrite nets_get_put_other by exact E. rewrite Ho by exact E.
    rewrite app_nil_r. reflexivity.
Qed.

Lemma add_net_source_ok t k d p t' :
  add_net_source t k d p = Ok t' ->
  net_driver t k = None
  /\ net_driver t' k = Some (endpoint d p)
  /\ (forall k', k <> k' -> net_driver t' k' = net_driver t k')
  /\ forall k', net_targets t' k' = net_targets t k'.
Proof.
  unfold add_net_source. destruct (get_net t k) as [t1 nt] eqn:G.
  apply get_net_spec in G. destruct G as (Hg & Hs & Ht & Ho).
  destruct (source nt) as [s |] eqn:Es; simpl; [discriminate |].
  intros H. injection H as <-. repeat split.
  - symmetry. exact Hs.
  - unfold net_driver. rewrite (nets_get_put_same _ _ _ _ Hg). reflexivity.
  - intros k' Hne. unfold net_driver.
    rewrite nets_get_put_other by exact Hne. rewrite Ho by exact Hne. reflexivity.
  - intros k'. unfold net_targets at 1.
    destruct (netkey_eqb k k') eqn:E.
    + apply netkey_eqb_eq in E. subst k'.
      rewrite (nets_get_put_same _ _ _ _ Hg). simpl. exact Ht.
    + apply netkey_eqb_neq in E.
      rewrite nets_get_put_other by exact E. rewrite Ho by exact E. reflexivity.
Qed.

Lemma add_net_source_err t k d p e :
  add_net_source t k d p = Err e ->
  e = AssertionError net_source_undefined /\ exists s, net_driver t k = Some s.
Proof.
  unfold add_net_source. destruct (get_net t k) as [t1 nt] eqn:G.
  apply get_net_spec in G. destruct G as (Hg & Hs & Ht & Ho).
  destruct (source nt) as [s |] eqn:Es; simpl; [| discriminate].
  intros H. injection H as <-. split; [reflexivity |].
  exists s. symmetry. exact Hs.
Qed.

(** ** Driver registrations of a module *)

Lemma driven_source t k d p t' ds :
  add_net_source t k d p = Ok t' -> driven t ds -> driven t' (ds ++ [k]).
Proof.
  intros H [Hnd Hdr]. apply add_net_source_ok in H.
  destruct H as (Hnone & Hsome & Hother & _).
  assert (Hnotin : ~ In k ds).
  { intros Hin. apply (proj1 (Hdr k) Hin). exact Hnone. }
  split.
  - apply NoDup_rev in Hnd. rewrite <- (rev_involutive (ds ++ [k])).
    apply NoDup_rev. rewrite rev_app_distr. simpl.
    constructor; [| exact Hnd].
    intros Hin. apply Hnotin. apply in_rev. exact Hin.
  - intros k'. destruct (netkey_eqb k k') eqn:E.
    + apply netkey_eqb_eq in E. subst k'. rewrite Hsome. split.
      * discriminate.
      * intros _. apply in_or_app. right. left. reflexivity.
    + apply netkey_eqb_neq in E. rewrite (Hother k' E), <- Hdr. split.
      * intros Hin. apply in_app_or in Hin.
        destruct Hin as [Hin | [Heq | []]]; [exact Hin | contradiction].
      * intros Hin. apply in_or_app. left. exact Hin.
Qed.

Lemma driven_target t k d p ds :
  driven t ds -> driven (add_net_target t k d p) ds.
Proof.
  intros [Hnd Hdr]. split; [exact Hnd |].
  intros k'. rewrite add_net_target_driver. apply Hdr.
Qed.

Lemma port_step_driven b kv b' ds :
  port_step b kv = Ok b' -> driven (b_nets b) ds ->
  driven (b_nets b') (ds ++ port_drivers [kv]).
Proof.
  destruct kv as [pname p]. unfold port_step, port_drivers. simpl.
  intros H Hd. apply bind_ok in H. destruct H as (u & _ & H).
  destruct (String.eqb (direction p) "input") eqn:Ein.
  - apply bind_ok in H. destruct H as (t & Ht & H). injection H as <-. simpl.
    apply (driven_source _ _ _ _ _ _ Ht Hd).
  - simpl. rewrite ?app_nil_r.
    destruct (String.eqb (direction p) "output"); [| discriminate].
    injection H as <-. simpl. apply driven_target. exact Hd.
Qed.

Lemma connection_step_driven portmap c dname t kv t' ds :
  connection_step portmap c dname t kv = Ok t' -> driven t ds ->
  driven t' (ds ++ connection_drivers c [kv]).
Proof.
  destruct kv as [pname pdir]. unfold connection_step, connection_drivers. simpl.
  intros H Hd.
  destruct (String.eqb pdir "input") eqn:Ein.
  - assert (Eout : String.eqb pdir "output" = false).
    { apply String.eqb_eq in Ein. subst pdir. reflexivity. }
    rewrite Eout. simpl. rewrite ?app_nil_r.
    apply bind_ok in H. destruct H as (a & _ & H). injection H as <-.
    apply driven_target. exact Hd.
  - destruct (String.eqb pdir "output"); [| discriminate].
    apply bind_ok in H. destruct H as (a & Ha & H).
    unfold connection_args in Ha.
    destruct (obj_get (connections c) pname) as [pconn |]; [| discriminate].
    destruct portmap as [pm |]; [| discriminate].
    injection Ha as <-. simpl in *. rewrite ?app_nil_r.
    apply (driven_source _ _ _ _ _ _ H Hd).
Qed.

Lemma cell_step_driven portmaps b kv b' ds :
  cell_step portmaps b kv = Ok b' -> driven (b_nets b) ds ->
  driven (b_nets b') (ds ++ cell_drivers [kv]).
Proof.
  destruct kv as [cname c]. unfold cell_step, cell_drivers. simpl.
  intros H Hd. apply bind_ok in H. destruct H as (u & _ & H).
  apply bind_ok in H. destruct H as (t & Ht & H). injection H as <-. simpl.
  rewrite ?app_nil_r.
  apply (foldM_invariant _
           (fun done t => driven t (ds ++ connection_drivers c done)))
    with (done := []) (s := b_nets b) in Ht.
  - exact Ht.
  - intros done a s s' HI Hs. unfold connection_drivers.
    rewrite flat_map_app, app_assoc.
    apply (connection_step_driven _ _ _ _ _ _ _ Hs HI).
  - simpl. rewrite ?app_nil_r. exact Hd.
Qed.

Lemma register_devices_driven portmaps mdl b :
  register_devices portmaps mdl = Ok b -> driven (b_nets b) (module_drivers mdl).
Proof.
  unfold register_devices, module_drivers. intros H.
  apply bind_ok in H. destruct H as (b1 & H1 & H2).
  apply (foldM_invariant _ (fun done b => driven (b_nets b) (port_drivers done)))
    with (done := []) in H1.
  - apply (foldM_invariant _
             (fun done b => driven (b_nets b)
                              (port_drivers (ports mdl) ++ cell_drivers done)))
      with (done := []) in H2.
    + exact H2.
    + intros done a s s' HI Hs. unfold cell_drivers at 1.
      rewrite flat_map_app, app_assoc.
      apply (cell_step_driven _ _ _ _ _ Hs HI).
    + simpl. rewrite ?app_nil_r. exact H1.
  - intros done a s s' HI Hs. unfold port_drivers at 1.
    rewrite flat_map_app.
    apply (port_step_driven _ _ _ _ Hs HI).
  - split; [constructor |]. intros k. simpl. split; [tauto | intros H; apply H; reflexivity].
Qed.

(** Every module of a netlist that converts was converted. *)
Lemma yosys_to_simcir_modules data portmaps out name mdl :
  yosys_to_simcir data portmaps = Ok out -> In (name, mdl) (modules data) ->
  exists mout, convert_module portmaps mdl = Ok mout.
Proof.
  unfold yosys_to_simcir. intros H Hin.
  revert name mdl Hin. change (modules data) with ([] ++ modules data).
  refine (foldM_invariant _
            (fun done (_ : obj diagram) =>
               forall name mdl, In (name, mdl) done ->
                                exists mout, convert_module portmaps mdl = Ok mout)
            _ _ [] _ _ _ H).
  - intros done [nm md] s s' HI Hs nm' md' Hin'.
    apply in_app_or in Hin'. destruct Hin' as [Hin' | [Heq | []]].
    + apply (HI nm' md' Hin').
    + injection Heq as <- <-. apply bind_ok in Hs.
      destruct Hs as (mout & Hm & _). exists mout. exact Hm.
  - intros ? ? [].
Qed.

(** C4: [add_net_source] on a net that has a driver throws the assertion
    error of [assert(net.source === undefined)], and nothing else makes it
    throw; when it returns, the net had no driver, now has exactly the
    endpoint registered, and every other net keeps its driver.  The two
    places that register a driver, an input port and an output connection
    of a cell, throw that error on a net with a driver.  A netlist
    therefore converts only if, in each of its modules, the driver
    registrations are on pairwise distinct nets. *)
Theorem add_net_source_single_driver :
  (forall t k d p,
      match add_net_source t k d p with
      | Err e => e = AssertionError net_source_undefined
                 /\ exists s, net_driver t k = Some s
      | Ok t' => net_driver t k = None
                 /\ net_driver t' k = Some (endpoint d p)
                 /\ forall k', k <> k' -> net_driver t' k' = net_driver t k'
      end)
  /\ (forall b pname p s,
         List.length (bits p) = 1 ->
         direction p = "input" ->
         net_driver (b_nets b) (nth_error (bits p) 0) = Some s ->
         port_step b (pname, p) = Err (AssertionError net_source_undefined))
  /\ (forall pm c dname t pname pconn s,
         obj_get (connections c) pname = Some pconn ->
         net_driver t (nth_error pconn 0) = Some s ->
         connection_step (Some pm) c dname t (pname, "output")
         = Err (AssertionError net_source_undefined))
  /\ (forall data portmaps out name mdl,
         yosys_to_simcir data portmaps = Ok out ->
         In (name, mdl) (modules data) ->
         NoDup (module_drivers mdl)).
Proof.
  assert (Hdriven : forall t k d p s,
             net_driver t k = Some s ->
             add_net_source t k d p = Err (AssertionError net_source_undefined)).
  { intros t k d p s Hs. destruct (add_net_source t k d p) as [t' | e] eqn:H.
    - apply add_net_source_ok in H. destruct H as (H1 & _). congruence.
    - apply add_net_source_err in H. destruct H as [-> _]. reflexivity. }
  split; [| split; [| split]].
  - intros t k d p. destruct (add_net_source t k d p) as [t' | e] eqn:H.
    + apply add_net_source_ok in H. destruct H as (H1 & H2 & H3 & _). auto.
    + apply add_net_source_err in H. exact H.
  - intros b pname p s Hlen Hdir Hs. unfold port_step.
    rewrite Hlen, Hdir. simpl. rewrite (Hdriven _ _ _ _ _ Hs). reflexivity.
  - intros pm c dname t pname pconn s Hconn Hs.
    unfold connection_step, connection_args. simpl. rewrite Hconn. simpl.
    apply (Hdriven _ _ _ _ _ Hs).
  - intros data portmaps out name mdl H Hin.
    destruct (yosys_to_simcir_modules _ _ _ _ _ H Hin) as (mout & Hm).
    unfold convert_module in Hm. apply bind_ok in Hm.
    destruct Hm as (b & Hb & _).
    apply register_devices_driven in Hb. apply Hb.
Qed.

(** Two AND gates with their outputs on net 4: the second registration
    ends the conversion. *)
Example two_drivers_abort :
  (portmaps <- order_ports two_drivers_netlist ;;
   yosys_to_simcir two_drivers_netlist portmaps)
  = Err (AssertionError net_source_undefined).
Proof. reflexivity. Qed.

(** ** Listener registrations of a module *)

Lemma listeners_on_app ls1 ls2 k :
  listeners_on (ls1 ++ ls2) k = listeners_on ls1 k ++ listeners_on ls2 k.
Proof. unfold listeners_on. rewrite filter_app, map_app. reflexivity. Qed.

Lemma listening_target t k d p ls :
  listening t ls -> listening (add_net_target t k d p) (ls ++ [(k, endpoint d p)]).
Proof.
  intros H k'. rewrite add_net_target_targets, listeners_on_app, (H k').
  f_equal. unfold listeners_on. simpl.
  destruct (netkey_eqb k k'); reflexivity.
Qed.

Lemma listening_source t k d p t' ls :
  add_net_source t k d p = Ok t' -> listening t ls -> listening t' ls.
Proof.
  intros H Hl k'. apply add_net_source_ok in H.
  destruct H as (_ & _ & _ & Ht). rewrite Ht. apply Hl.
Qed.

Lemma port_listeners_app n ps1 ps2 :
  port_listeners n (ps1 ++ ps2) =
  port_listeners n ps1 ++ port_listeners (n + List.length ps1) ps2.
Proof.
  revert n. induction ps1 as [| [pname p] ps1 IH]; intros n; simpl.
  - rewrite Nat.add_0_r. reflexivity.
  - rewrite IH, <- app_assoc, Nat.add_succ_r. reflexivity.
Qed.

Lemma cell_listeners_app portmaps n cs1 cs2 :
  cell_listeners portmaps n (cs1 ++ cs2) =
  cell_listeners portmaps n cs1
  ++ cell_listeners portmaps (n + List.length cs1) cs2.
Proof.
  revert n. induction cs1 as [| [cname c] cs1 IH]; intros n; simpl.
  - rewrite Nat.add_0_r. reflexivity.
  - rewrite IH, <- app_assoc, Nat.add_succ_r. reflexivity.
Qed.

Lemma port_step_listening b kv b' ls :
  port_step b kv = Ok b' -> listening (b_nets b) ls ->
  b_n b' = S (b_n b)
  /\ listening (b_nets b') (ls ++ port_listeners (b_n b) [kv]).
Proof.
  destruct kv as [pname p]. unfold port_step. simpl.
  intros H Hl. apply bind_ok in H. destruct H as (u & _ & H).
  destruct (String.eqb (direction p) "input") eqn:Ein.
  - assert (Eout : String.eqb (direction p) "output" = false).
    { apply String.eqb_eq in Ein. rewrite Ein. reflexivity. }
    rewrite Eout. simpl. rewrite app_nil_r.
    apply bind_ok in H. destruct H as (t & Ht & H). injection H as <-. simpl.
    split; [reflexivity |]. apply (listening_source _ _ _ _ _ _ Ht Hl).
  - destruct (String.eqb (direction p) "output"); [| discriminate].
    injection H as <-. simpl. split; [reflexivity |].
    apply listening_target. exact Hl.
Qed.

Lemma connection_step_listening portmap c dname t kv t' ls :
  connection_step portmap c dname t kv = Ok t' -> listening t ls ->
  listening t' (ls ++ connection_listeners portmap c dname [kv]).
Proof.
  destruct kv as [pname pdir]. unfold connection_step, connection_listeners.
  simpl. intros H Hl.
  destruct (String.eqb pdir "input") eqn:Ein.
  - apply bind_ok in H. destruct H as (a & Ha & H). injection H as <-.
    unfold connection_args in Ha.
    destruct (obj_get (connections c) pname) as [pconn |]; [| discriminate].
    destruct portmap as [pm |]; [| discriminate].
    injection Ha as <-. simpl. apply listening_target. exact Hl.
  - rewrite app_nil_r.
    destruct (String.eqb pdir "output"); [| discriminate].
    apply bind_ok in H. destruct H as (a & _ & H).
    apply (listening_source _ _ _ _ _ _ H Hl).
Qed.

Lemma cell_step_listening portmaps b kv b' ls :
  cell_step portmaps b kv = Ok b' -> listening (b_nets b) ls ->
  b_n b' = S (b_n b)
  /\ listening (b_nets b') (ls ++ cell_listeners portmaps (b_n b) [kv]).
Proof.
  destruct kv as [cname c]. unfold cell_step. simpl.
  intros H Hl. apply bind_ok in H. destruct H as (u & _ & H).
  apply bind_ok in H. destruct H as (t & Ht & H). injection H as <-. simpl.
  split; [reflexivity |]. rewrite app_nil_r.
  set (pm := obj_get portmaps (cell_type c)) in *.
  set (dname := gen_name (b_n b)) in *.
  rewrite <- (app_nil_l (port_directions c)).
  refine (foldM_invariant _
            (fun done t => listening t (ls ++ connection_listeners pm c dname done))
            _ _ [] _ _ _ Ht).
  - intros done a s s' HI Hs. unfold connection_listeners.
    rewrite flat_map_app, app_assoc.
    apply (connection_step_listening _ _ _ _ _ _ _ Hs HI).
  - simpl. rewrite app_nil_r. exact Hl.
Qed.

Lemma register_devices_listening portmaps mdl b :
  register_devices portmaps mdl = Ok b ->
  listening (b_nets b) (module_listeners portmaps mdl).
Proof.
  unfold register_devices, module_listeners. intros H.
  apply bind_ok in H. destruct H as (b1 & H1 & H2).
  assert (P1 : b_n b1 = List.length ([] ++ ports mdl)
               /\ listening (b_nets b1) (port_listeners 0 ([] ++ ports mdl))).
  { refine (foldM_invariant _
              (fun done b => b_n b = List.length done
                             /\ listening (b_nets b) (port_listeners 0 done))
              _ _ [] _ _ _ H1).
    - intros done a s s' [Hn HI] Hs.
      destruct (port_step_listening _ _ _ _ Hs HI) as [Hn' HI'].
      split.
      + rewrite Hn', Hn, length_app. simpl. lia.
      + rewrite port_listeners_app. simpl (0 + _). rewrite <- Hn. exact HI'.
    - split; [reflexivity | intros k; reflexivity]. }
  simpl in P1. destruct P1 as [Hn1 Hl1].
  set (np := List.length (ports mdl)) in *.
  assert (P2 : b_n b = np + List.length ([] ++ cells mdl)
               /\ listening (b_nets b)
                    (port_listeners 0 (ports mdl)
                     ++ cell_listeners portmaps np ([] ++ cells mdl))).
  { refine (foldM_invariant _
              (fun done b => b_n b = np + List.length done
                             /\ listening (b_nets b)
                                  (port_listeners 0 (ports mdl)
                                   ++ cell_listeners portmaps np done))
              _ _ [] _ _ _ H2).
    - intros done a s s' [Hn HI] Hs.
      destruct (cell_step_listening _ _ _ _ _ Hs HI) as [Hn' HI'].
      split.
      + rewrite Hn', Hn, length_app. simpl. lia.
      + rewrite cell_listeners_app, app_assoc, <- Hn. exact HI'.
    - simpl. rewrite Nat.add_0_r, app_nil_r. split; assumption. }
  apply P2.
Qed.

(** *** Each net has one entry in the table *)

Lemma nets_get_none t k : nets_get t k = None -> ~ In k (map fst t).
Proof.
  induction t as [| [k' nt'] t IH]; simpl; intros H; [tauto |].
  destruct (netkey_eqb k' k) eqn:E; [discriminate |].
  apply netkey_eqb_neq in E. intros [Heq | Hin]; [contradiction |].
  apply (IH H Hin).
Qed.

Lemma nets_get_some t k nt : nets_get t k = Some nt -> In (k, nt) t.
Proof.
  induction t as [| [k' nt'] t IH]; simpl; intros H; [discriminate |].
  destruct (netkey_eqb k' k) eqn:E.
  - apply netkey_eqb_eq in E. injection H as <-. subst. left. reflexivity.
  - right. apply IH. exact H.
Qed.

Lemma nets_get_in t k nt :
  NoDup (map fst t) -> In (k, nt) t -> nets_get t k = Some nt.
Proof.
  induction t as [| [k' nt'] t IH]; simpl; intros Hnd Hin; [contradiction |].
  inversion Hnd as [| ? ? Hnotin Hnd']; subst.
  destruct Hin as [Heq | Hin].
  - injection Heq as -> ->. rewrite netkey_eqb_refl. reflexivity.
  - destruct (netkey_eqb k' k) eqn:E.
    + apply netkey_eqb_eq in E. subst k'. exfalso. apply Hnotin.
      apply (in_map fst) in Hin. exact Hin.
    + apply IH; assumption.
Qed.

Lemma nets_new_keys t k nt x :
  In x (map fst (nets_new t k nt)) <-> x = k \/ In x (map fst t).
Proof.
  induction t as [| [k' nt'] t IH]; simpl.
  - intuition.
  - destruct (enumerated_before k k'); simpl; [intuition |].
    rewrite IH. intuition.
Qed.

Lemma nets_new_nodup t k nt :
  NoDup (map fst t) -> ~ In k (map fst t) -> NoDup (map fst (nets_new t k nt)).
Proof.
  induction t as [| [k' nt'] t IH]; simpl; intros Hnd Hnotin.
  - constructor; [tauto | constructor].
  - destruct (enumerated_before k k'); simpl.
    + constructor; assumption.
    + inversion Hnd as [| ? ? Hn' Hnd']; subst. constructor.
      * rewrite nets_new_keys. intros [-> | Hin]; tauto.
      * apply IH; tauto.
Qed.

Lemma nets_put_keys t k nt : map fst (nets_put t k nt) = map fst t.
Proof.
  induction t as [| [k' nt'] t IH]; simpl; [reflexivity |].
  destruct (netkey_eqb k' k); simpl; [reflexivity | rewrite IH; reflexivity].
Qed.

Lemma get_net_nodup t k :
  NoDup (map fst t) -> NoDup (map fst (fst (get_net t k))).
Proof.
  unfold get_net. intros Hnd.
  destruct (nets_get t k) eqn:E; simpl; [exact Hnd |].
  apply nets_new_nodup; [exact Hnd | apply nets_get_none; exact E].
Qed.

Lemma add_net_target_nodup t k d p :
  NoDup (map fst t) -> NoDup (map fst (add_net_target t k d p)).
Proof.
  intros Hnd. unfold add_net_target.
  pose proof (get_net_nodup t k Hnd) as H.
  destruct (get_net t k) as [t' nt]. rewrite nets_put_keys. exact H.
Qed.

Lemma add_net_source_nodup t k d p t' :
  add_net_source t k d p = Ok t' -> NoDup (map fst t) -> NoDup (map fst t').
Proof.
  unfold add_net_source. intros H Hnd.
  pose proof (get_net_nodup t k Hnd) as Hg.
  destruct (get_net t k) as [t1 nt]. apply bind_ok in H.
  destruct H as (u & _ & H). injection H as <-. rewrite nets_put_keys. exact Hg.
Qed.

Lemma port_step_nodup b kv b' :
  port_step b kv = Ok b' -> NoDup (map fst (b_nets b)) ->
  NoDup (map fst (b_nets b')).
Proof.
  destruct kv as [pname p]. unfold port_step. intros H Hnd.
  apply bind_ok in H. destruct H as (u & _ & H).
  destruct (String.eqb (direction p) "input").
  - apply bind_ok in H. destruct H as (t & Ht & H). injection H as <-. simpl.
    apply (add_net_source_nodup _ _ _ _ _ Ht Hnd).
  - destruct (String.eqb (direction p) "output"); [| discriminate].
    injection H as <-. simpl. apply add_net_target_nodup. exact Hnd.
Qed.

Lemma connection_step_nodup portmap c dname t kv t' :
  connection_step portmap c dname t kv = Ok t' -> NoDup (map fst t) ->
  NoDup (map fst t').
Proof.
  destruct kv as [pname pdir]. unfold connection_step. intros H Hnd.
  destruct (String.eqb pdir "input").
  - apply bind_ok in H. destruct H as (a & _ & H). injection H as <-.
    apply add_net_target_nodup. exact Hnd.
  - destruct (String.eqb pdir "output"); [| discriminate].
    apply bind_ok in H. destruct H as (a & _ & H).
    apply (add_net_source_nodup _ _ _ _ _ H Hnd).
Qed.

Lemma cell_step_nodup portmaps b kv b' :
  cell_step portmaps b kv = Ok b' -> NoDup (map fst (b_nets b)) ->
  NoDup (map fst (b_nets b')).
Proof.
  destruct kv as [cname c]. unfold cell_step. intros H Hnd.
  apply bind_ok in H. destruct H as (u & _ & H).
  apply bind_ok in H. destruct H as (t & Ht & H). injection H as <-. simpl.
  rewrite <- (app_nil_l (port_directions c)) in Ht.
  refine (foldM_invariant _ (fun _ t => NoDup (map fst t)) _ _ [] _ _ Hnd Ht).
  intros done a s s' HI Hs. apply (connection_step_nodup _ _ _ _ _ _ Hs HI).
Qed.

Lemma register_devices_nodup portmaps mdl b :
  register_devices portmaps mdl = Ok b -> NoDup (map fst (b_nets b)).
Proof.
  unfold register_devices. intros H.
  apply bind_ok in H. destruct H as (b1 & H1 & H2).
  assert (Hnd1 : NoDup (map fst (b_nets b1))).
  { rewrite <- (app_nil_l (ports mdl)) in H1.
    refine (foldM_invariant _ (fun _ b => NoDup (map fst (b_nets b)))
              _ _ [] _ _ _ H1).
    - intros done a s s' HI Hs. apply (port_step_nodup _ _ _ Hs HI).
    - constructor. }
  rewrite <- (app_nil_l (cells mdl)) in H2.
  refine (foldM_invariant _ (fun _ b => NoDup (map fst (b_nets b)))
            _ _ [] _ _ Hnd1 H2).
  intros done a s s' HI Hs. apply (cell_step_nodup _ _ _ _ Hs HI).
Qed.

(** *** The connectors of a net table *)

Lemma push_connectors_flat_map cs t :
  push_connectors cs t = cs ++ flat_map net_connectors t.
Proof.
  unfold push_connectors. revert cs.
  induction t as [| [k nt] t IH]; intros cs; simpl.
  - rewrite app_nil_r. reflexivity.
  - rewrite IH. unfold net_connectors at 2. simpl.
    rewrite app_assoc. f_equal.
    generalize (targets nt) as l. clear. intros l. revert cs.
    induction l as [| tg l IH]; intros cs; simpl.
    + rewrite app_nil_r. reflexivity.
    + rewrite IH, <- app_assoc. reflexivity.
Qed.






(** An entry of the table reached after the last device holds the listeners
    registered on its net, and its driver. *)
Lemma net_table_entry portmaps mdl b kn :
  register_devices portmaps mdl = Ok b -> In kn (b_nets b) ->
  targets (snd kn) = listeners_on (module_listeners portmaps mdl) (fst kn)
  /\ source (snd kn) = net_driver (b_nets b) (fst kn).
Proof.
  intros Hb Hin. destruct kn as [k nt]. simpl.
  pose proof (nets_get_in _ _ _ (register_devices_nodup _ _ _ Hb) Hin) as Hg.
  rewrite <- (register_devices_listening _ _ _ Hb k).
  unfold net_targets, net_driver. rewrite Hg. auto.
Qed.

(** A net with a registered listener has an entry in the table. *)
Lemma listener_net_entry portmaps mdl b k target :
  register_devices portmaps mdl = Ok b ->
  In (k, target) (module_listeners portmaps mdl) ->
  exists nt, In (k, nt) (b_nets b).
Proof.
  intros Hb Hin.
  assert (Hon : In target (listeners_on (module_listeners portmaps mdl) k)).
  { unfold listeners_on. apply in_map_iff. exists (k, target).
    split; [reflexivity |]. apply filter_In.
    split; [exact Hin | apply netkey_eqb_refl]. }
  rewrite <- (register_devices_listening _ _ _ Hb k) in Hon.
  unfold net_targets in Hon.
  destruct (nets_get (b_nets b) k) as [nt |] eqn:Hg; [| contradiction].
  exists nt. apply nets_get_some. exact Hg.
Qed.

(** Every registered listener has its connector, to the driver of its net. *)
Lemma listener_connector portmaps mdl b k target :
  register_devices portmaps mdl = Ok b ->
  In (k, target) (module_listeners portmaps mdl) ->
  In {| conn_from := target; conn_to := net_driver (b_nets b) k |}
     (flat_map net_connectors (b_nets b)).
Proof.
  intros Hb Hin. destruct (listener_net_entry _ _ _ _ _ Hb Hin) as (nt & Hkn).
  apply in_flat_map. exists (k, nt). split; [exact Hkn |].
  destruct (net_table_entry _ _ _ _ Hb Hkn) as [Ht Hs]. simpl in Ht, Hs.
  unfold net_connectors. simpl. rewrite <- Hs. apply in_map_iff.
  exists target. split; [reflexivity |].
  rewrite Ht. unfold listeners_on. apply in_map_iff. exists (k, target).
  split; [reflexivity |]. apply filter_In.
  split; [exact Hin | apply netkey_eqb_refl].
Qed.



(** ** [order_ports] *)

Lemma foldM_total {A S : Type} (step : S -> A -> result S) (l : list A) :
  (forall a s, In a l -> exists s', step s a = Ok s') ->
  forall s, exists s', foldM step l s = Ok s'.
Proof.
  induction l as [| a l IH]; intros Hstep s; simpl.
  - exists s. reflexivity.
  - destruct (Hstep a s (or_introl eq_refl)) as (s1 & H1). rewrite H1. simpl.
    apply IH. intros a' s0 Hin. apply Hstep. right. exact Hin.
Qed.


















(** Inputs declared at the bit indices 3, 1, 2: the port at index 1 gets
    [in0], the one at index 2 [in1], the one at index 3 [in2]. *)
Example order_ports_312 :
  order_ports inputs_312_netlist
  = Ok [("$and", binmap); ("$or", binmap); ("$xor", binmap);
        ("m", [("p1", "in0"); ("p2", "in1"); ("p3", "in2")])].
Proof. reflexivity. Qed.

(** ** Device ids *)

Lemma to_uint_nonnil (n : nat) : Nat.to_uint n <> Decimal.Nil.
Proof.
  rewrite <- (DecimalNat.Unsigned.of_to n) at 1.
  rewrite DecimalNat.Unsigned.to_of. unfold Decimal.unorm.
  destruct (Decimal.nzhead (Nat.to_uint n)); discriminate.
Qed.

Lemma dec_inj (a b : nat) : dec a = dec b -> a = b.
Proof.
  unfold dec. intros H.
  pose proof (NilZero.usu _ (to_uint_nonnil a)) as Ha.
  pose proof (NilZero.usu _ (to_uint_nonnil b)) as Hb.
  rewrite H, Hb in Ha. injection Ha as Ha.
  apply DecimalNat.Unsigned.to_uint_inj. symmetry. exact Ha.
Qed.

Lemma gen_name_inj (a b : nat) : gen_name a = gen_name b -> a = b.
Proof.
  unfold gen_name. simpl. intros H. injection H as H. apply dec_inj. exact H.
Qed.

Lemma numbered_push b d t :
  numbered b -> dev_id d = gen_name (b_n b) ->
  numbered {| b_n := S (b_n b); b_nets := t; b_devices := b_devices b ++ [d] |}.
Proof.
  unfold numbered. cbn [b_n b_devices]. intros H Hd.
  rewrite map_app, H, seq_S, map_app. simpl. rewrite Hd. reflexivity.
Qed.

Lemma port_step_numbered b kv b' :
  port_step b kv = Ok b' -> numbered b -> numbered b'.
Proof.
  destruct kv as [pname p]. unfold port_step. intros H Hn.
  apply bind_ok in H. destruct H as (u & _ & H).
  destruct (String.eqb (direction p) "input").
  - apply bind_ok in H. destruct H as (t & _ & H). injection H as <-.
    apply numbered_push; [exact Hn | reflexivity].
  - destruct (String.eqb (direction p) "output"); [| discriminate].
    injection H as <-. apply numbered_push; [exact Hn | reflexivity].
Qed.

Lemma cell_step_numbered portmaps b kv b' :
  cell_step portmaps b kv = Ok b' -> numbered b -> numbered b'.
Proof.
  destruct kv as [cname c]. unfold cell_step. intros H Hn.
  apply bind_ok in H. destruct H as (u & _ & H).
  apply bind_ok in H. destruct H as (t & _ & H). injection H as <-.
  apply numbered_push; [exact Hn | reflexivity].
Qed.

Lemma convert_module_ids portmaps mdl mout :
  convert_module portmaps mdl = Ok mout -> NoDup (map dev_id (devices mout)).
Proof.
  unfold convert_module, register_devices. intros H.
  apply bind_ok in H. destruct H as (b & Hb & H). injection H as <-. simpl.
  apply bind_ok in Hb. destruct Hb as (b1 & H1 & H2).
  assert (N1 : numbered b1).
  { rewrite <- (app_nil_l (ports mdl)) in H1.
    refine (foldM_invariant _ (fun _ b => numbered b) _ _ [] _ _ _ H1).
    - intros done a s s' HI Hs. apply (port_step_numbered _ _ _ Hs HI).
    - reflexivity. }
  assert (N2 : numbered b).
  { rewrite <- (app_nil_l (cells mdl)) in H2.
    refine (foldM_invariant _ (fun _ b => numbered b) _ _ [] _ _ N1 H2).
    intros done a s s' HI Hs. apply (cell_step_numbered _ _ _ _ Hs HI). }
  unfold numbered in N2. rewrite N2. apply Finite.Injective_map_NoDup.
  - intros a b' Hab. apply gen_name_inj. exact Hab.
  - apply seq_NoDup.
Qed.

(** ** [layout_circuit] *)

Lemma obj_get_absent {V : Type} (o : obj V) (k : string) :
  obj_get o k = None -> ~ In k (keys o).
Proof.
  induction o as [| [k' v] o IH]; simpl; intros H; [tauto |].
  destruct (String.eqb k' k) eqn:E; [discriminate |].
  apply String.eqb_neq in E. intros [Heq | Hin]; [contradiction |].
  apply (IH H Hin).
Qed.

Lemma obj_set_absent {V : Type} (o : obj V) (k : string) (v : V) :
  ~ In k (keys o) -> obj_set o k v = o ++ [(k, v)].
Proof.
  induction o as [| [k' v'] o IH]; simpl; intros Hn; [reflexivity |].
  destruct (String.eqb k' k) eqn:E.
  - apply String.eqb_eq in E. exfalso. apply Hn. left. exact E.
  - rewrite IH; [reflexivity |]. intros H. apply Hn. right. exact H.
Qed.

Lemma device_graph_nodes (devs : list device) (g : graph) :
  NoDup (keys (g_nodes g) ++ map dev_id devs) ->
  g_nodes (fold_left (fun g dev => setNode g (dev_id dev)) devs g)
  = g_nodes g ++ map device_node devs.
Proof.
  revert g. induction devs as [| d devs IH]; intros g Hnd; simpl.
  - rewrite app_nil_r. reflexivity.
  - simpl in Hnd. pose proof (NoDup_remove_2 _ _ _ Hnd) as Hnotin.
    assert (Hset : g_nodes (setNode g (dev_id d))
                   = g_nodes g ++ [device_node d]).
    { unfold setNode. simpl. apply obj_set_absent.
      intros H. apply Hnotin. apply in_or_app. left. exact H. }
    rewrite IH.
    + rewrite Hset, <- app_assoc. reflexivity.
    + rewrite Hset. unfold keys. rewrite map_app, <- app_assoc. exact Hnd.
Qed.

Lemma ensure_node_nodes (nodes : obj (option string)) (v : string) :
  exists extra, ensure_node nodes v = nodes ++ extra /\ Forall unlabelled extra.
Proof.
  unfold ensure_node, obj_in. destruct (obj_get nodes v) eqn:E.
  - exists []. rewrite app_nil_r. split; [reflexivity | constructor].
  - exists [(v, None)]. split.
    + apply obj_set_absent. apply obj_get_absent. exact E.
    + constructor; [reflexivity | constructor].
Qed.

Lemma setEdge_nodes (g : graph) (v w : string) :
  exists extra,
    g_nodes (setEdge g v w) = g_nodes g ++ extra /\ Forall unlabelled extra.
Proof.
  unfold setEdge. destruct (has_edge g v w).
  - exists []. rewrite app_nil_r. split; [reflexivity | constructor].
  - simpl. destruct (ensure_node_nodes (g_nodes g) v) as (e1 & H1 & F1).
    destruct (ensure_node_nodes (ensure_node (g_nodes g) v) w) as (e2 & H2 & F2).
    exists (e1 ++ e2). rewrite H2, H1, <- app_assoc.
    split; [reflexivity | apply Forall_app; split; assumption].
Qed.

Lemma edge_loop_nodes (conns : list connector) (g g' : graph) :
  foldM edge_step conns g = Ok g' ->
  exists extra, g_nodes g' = g_nodes g ++ extra /\ Forall unlabelled extra.
Proof.
  revert g. induction conns as [| c conns IH]; intros g H; simpl in H.
  - injection H as <-. exists []. rewrite app_nil_r.
    split; [reflexivity | constructor].
  - apply bind_ok in H. destruct H as (g1 & H1 & H2).
    unfold edge_step in H1. destruct (conn_to c) as [to |]; [| discriminate].
    injection H1 as <-.
    destruct (setEdge_nodes g (before_dot (conn_from c)) (before_dot to))
      as (e1 & E1 & F1).
    destruct (IH _ H2) as (e2 & E2 & F2).
    exists (e1 ++ e2). rewrite E2, E1, <- app_assoc.
    split; [reflexivity | apply Forall_app; split; assumption].
Qed.

Lemma place_at (pre post : list device) (d : device) (xy : Q * Q) :
  ~ In (dev_id d) (map dev_id pre) -> ~ In (dev_id d) (map dev_id post) ->
  place (pre ++ d :: post) (dev_id d) xy = pre ++ move_to d xy :: post.
Proof.
  intros Hpre Hpost. induction pre as [| a pre IH]; simpl.
  - rewrite String.eqb_refl. simpl.
    assert (E : existsb (fun d' => String.eqb (dev_id d') (dev_id d)) post = false).
    { destruct (existsb _ post) eqn:E; [| reflexivity].
      apply existsb_exists in E. destruct E as (d' & Hin & Heq).
      apply String.eqb_eq in Heq. exfalso. apply Hpost. rewrite <- Heq.
      apply in_map. exact Hin. }
    rewrite E. reflexivity.
  - destruct (String.eqb (dev_id a) (dev_id d)) eqn:E.
    + apply String.eqb_eq in E. exfalso. apply Hpre. left. exact E.
    + simpl. rewrite IH; [reflexivity |].
      intros H. apply Hpre. right. exact H.
Qed.

Section LayoutFacts.
Variable dagre_layout : graph -> string -> Q * Q.

Lemma node_loop_labelled g l s s' :
  foldM (node_step dagre_layout g) l s = Ok s' ->
  Forall (fun kv => ~ unlabelled kv) l.
Proof.
  revert s. induction l as [| [nname node] l IH]; intros s H; simpl in H.
  - constructor.
  - apply bind_ok in H. destruct H as (s1 & H1 & H2).
    constructor; [| apply (IH _ H2)].
    unfold unlabelled. simpl. destruct node; [discriminate | discriminate H1].
Qed.

Lemma node_loop_devices g (post : list device) :
  forall pre s s',
    NoDup (map dev_id (pre ++ post)) ->
    pl_devices s = pre ++ post ->
    foldM (node_step dagre_layout g) (map device_node post) s = Ok s' ->
    pl_devices s'
    = pre ++ map (fun d => move_to d (dagre_layout g (dev_id d))) post
    /\ maxx s'
       = fold_left Qmax (map (fun d => fst (dagre_layout g (dev_id d))) post)
                   (maxx s)
    /\ maxy s'
       = fold_left Qmax (map (fun d => snd (dagre_layout g (dev_id d))) post)
                   (maxy s).
Proof.
  induction post as [| d post IH]; intros pre s s' Hnd Hs H; simpl in H.
  - injection H as <-. simpl. rewrite app_nil_r in *. auto.
  - rewrite Hs in H. rewrite map_app in Hnd. simpl in Hnd.
    pose proof (NoDup_remove_2 _ _ _ Hnd) as Hnotin.
    rewrite place_at in H.
    + replace (pre ++ move_to d (dagre_layout g (dev_id d)) :: post)
        with ((pre ++ [move_to d (dagre_layout g (dev_id d))]) ++ post) in H
        by (rewrite <- app_assoc; reflexivity).
      apply IH with (pre := pre ++ [move_to d (dagre_layout g (dev_id d))])
        in H.
      * simpl in H. destruct H as (Hd & Hx & Hy).
        rewrite Hd, Hx, Hy, <- app_assoc. simpl. auto.
      * rewrite !map_app. simpl. rewrite <- app_assoc. exact Hnd.
      * reflexivity.
    + intros Hin. apply Hnotin. apply in_or_app. left. exact Hin.
    + intros Hin. apply Hnotin. apply in_or_app. right. exact Hin.
Qed.
End LayoutFacts.

(** *** Maxima *)

Lemma fold_max_le_init (l : list Q) (a : Q) : (a <= fold_left Qmax l a)%Q.
Proof.
  revert a. induction l as [| x l IH]; intros a; simpl.
  - apply Qle_refl.
  - apply Qle_trans with (Qmax a x); [apply Q.le_max_l | apply IH].
Qed.

Lemma fold_max_upper (l : list Q) (a x : Q) :
  In x l -> (x <= fold_left Qmax l a)%Q.
Proof.
  revert a. induction l as [| y l IH]; intros a Hin; simpl; [contradiction |].
  destruct Hin as [-> | Hin].
  - apply Qle_trans with (Qmax a x); [apply Q.le_max_r | apply fold_max_le_init].
  - apply IH. exact Hin.
Qed.

Lemma fold_max_compat (l : list Q) (a b : Q) :
  (a == b)%Q -> (fold_left Qmax l a == fold_left Qmax l b)%Q.
Proof.
  revert a b. induction l as [| x l IH]; intros a b H; simpl.
  - exact H.
  - apply IH. apply Q.max_compat; [exact H | apply Qeq_refl].
Qed.

(** Over non-negative coordinates, the running maximum that starts at 0 is
    the maximum of the list, or 0 for the empty list. *)
Lemma fold_max_zero (xs : list Q) :
  Forall (fun x => 0 <= x)%Q xs -> (fold_left Qmax xs 0 == max_or_zero xs)%Q.
Proof.
  intros H. destruct xs as [| x xs]; simpl.
  - apply Qeq_refl.
  - apply fold_max_compat. apply Q.max_r. inversion H. assumption.
Qed.

(** *** The entries of [out] *)

Lemma yosys_to_simcir_entries data portmaps out name circ :
  yosys_to_simcir data portmaps = Ok out -> In (name, circ) out ->
  exists mdl, convert_module portmaps mdl = Ok circ.
Proof.
  unfold yosys_to_simcir. intros H. revert name circ.
  rewrite <- (app_nil_l (modules data)) in H.
  refine (foldM_invariant _
            (fun _ (out : obj diagram) =>
               forall name circ, In (name, circ) out ->
                                 exists mdl, convert_module portmaps mdl = Ok circ)
            _ _ [] _ _ _ H).
  - intros done [nm md] s s' HI Hs name circ Hin.
    apply bind_ok in Hs. destruct Hs as (mout & Hm & Hs). injection Hs as <-.
    apply obj_set_in in Hin. destruct Hin as [[-> ->] | Hin].
    + exists md. exact Hm.
    + apply (HI name circ Hin).
  - intros ? ? [].
Qed.

(** A converted module has one device per port and per cell. *)
Lemma convert_module_device_count portmaps mdl mout :
  convert_module portmaps mdl = Ok mout ->
  List.length (devices mout)
  = List.length (ports mdl) + List.length (cells mdl).
Proof.
  unfold convert_module, register_devices. intros H.
  apply bind_ok in H. destruct H as (b & Hb & H). injection H as <-. simpl.
  apply bind_ok in Hb. destruct Hb as (b1 & H1 & H2).
  assert (N1 : List.length (b_devices b1) = List.length ([] ++ ports mdl)).
  { refine (foldM_invariant _
              (fun done b => List.length (b_devices b) = List.length done)
              _ _ [] _ _ _ H1); [| reflexivity].
    intros done [pname p] s s' HI Hs. unfold port_step in Hs.
    apply bind_ok in Hs. destruct Hs as (u & _ & Hs).
    rewrite length_app. simpl.
    destruct (String.eqb (direction p) "input").
    - apply bind_ok in Hs. destruct Hs as (t & _ & Hs). injection Hs as <-.
      simpl. rewrite length_app, HI. reflexivity.
    - destruct (String.eqb (direction p) "output"); [| discriminate].
      injection Hs as <-. simpl. rewrite length_app, HI. reflexivity. }
  simpl in N1. rewrite <- N1.
  assert (N2 : List.length (b_devices b)
               = List.length (b_devices b1) + List.length ([] ++ cells mdl)).
  { refine (foldM_invariant _
              (fun done b => List.length (b_devices b)
                             = List.length (b_devices b1) + List.length done)
              _ _ [] _ _ _ H2); [| simpl; lia].
    intros done [cname c] s s' HI Hs. unfold cell_step in Hs.
    apply bind_ok in Hs. destruct Hs as (u & _ & Hs).
    apply bind_ok in Hs. destruct Hs as (t & _ & Hs). injection Hs as <-.
    simpl. rewrite !length_app, HI. simpl. lia. }
  exact N2.
Qed.

Section CanvasSize.
Variable dagre_layout : graph -> string -> Q * Q.

(** [dagre] lays a graph out in the quadrant of non-negative coordinates. *)
Hypothesis dagre_nonneg :
  forall g v, (0 <= fst (dagre_layout g v))%Q /\ (0 <= snd (dagre_layout g v))%Q.

Lemma layout_circuits_entries out out' name circ' :
  layout_circuits dagre_layout out = Ok out' -> In (name, circ') out' ->
  exists circ, In (name, circ) out /\ layout_circuit dagre_layout circ = Ok circ'.
Proof.
  unfold layout_circuits. intros H. revert name circ'.
  rewrite <- (app_nil_l out).
  rewrite <- (app_nil_l out) in H.
  refine (foldM_invariant _
            (fun done (res : obj diagram) =>
               forall name circ', In (name, circ') res ->
                 exists circ, In (name, circ) done
                              /\ layout_circuit dagre_layout circ = Ok circ')
            _ _ [] _ _ _ H).
  - intros done [nm c] s s' HI Hs name circ' Hin.
    apply bind_ok in Hs. destruct Hs as (c' & Hc & Hs). injection Hs as <-.
    apply in_app_or in Hin. destruct Hin as [Hin | [Heq | []]].
    + destruct (HI name circ' Hin) as (circ & Hd & Hl).
      exists circ. split; [apply in_or_app; left; exact Hd | exact Hl].
    + injection Heq as <- <-. exists c.
      split; [apply in_or_app; right; left; reflexivity | exact Hc].
  - intros ? ? [].
Qed.

Lemma layout_circuit_size circ circ' :
  NoDup (map dev_id (devices circ)) ->
  layout_circuit dagre_layout circ = Ok circ' ->
  (width circ' == max_or_zero (map dev_x (devices circ')) + 256)%Q
  /\ (height circ' == max_or_zero (map dev_y (devices circ')) + 64)%Q
  /\ (256 <= width circ')%Q
  /\ (64 <= height circ')%Q.
Proof.
  intros Hnd H. unfold layout_circuit in H.
  apply bind_ok in H. destruct H as (g & Hg & H).
  apply bind_ok in H. destruct H as (s & Hs & H). injection H as <-. simpl.
  apply edge_loop_nodes in Hg. destruct Hg as (extra & Hnodes & Hextra).
  rewrite device_graph_nodes in Hnodes by exact Hnd. simpl in Hnodes.
  pose proof (node_loop_labelled _ _ _ _ _ Hs) as Hlab.
  rewrite Hnodes in Hlab. apply Forall_app in Hlab. destruct Hlab as [_ Hlab].
  assert (extra = []) as ->.
  { destruct extra as [| kv extra]; [reflexivity |].
    inversion Hlab; subst. inversion Hextra; subst. contradiction. }
  rewrite app_nil_r in Hnodes. rewrite Hnodes in Hs.
  apply (node_loop_devices dagre_layout g (devices circ) []) in Hs;
    [| exact Hnd | reflexivity].
  simpl in Hs. destruct Hs as (Hd & Hx & Hy). rewrite Hd, Hx, Hy.
  rewrite !map_map. simpl.
  set (xs := map (fun d => fst (dagre_layout g (dev_id d))) (devices circ)).
  set (ys := map (fun d => snd (dagre_layout g (dev_id d))) (devices circ)).
  assert (Px : Forall (fun x => 0 <= x)%Q xs).
  { apply Forall_forall. intros x Hin. apply in_map_iff in Hin.
    destruct Hin as (d & <- & _). apply dagre_nonneg. }
  assert (Py : Forall (fun y => 0 <= y)%Q ys).
  { apply Forall_forall. intros y Hin. apply in_map_iff in Hin.
    destruct Hin as (d & <- & _). apply dagre_nonneg. }
  repeat split.
  - apply Qplus_comp; [apply fold_max_zero; exact Px | apply Qeq_refl].
  - apply Qplus_comp; [apply fold_max_zero; exact Py | apply Qeq_refl].
  - apply Qle_trans with (0 + 256)%Q; [apply Qle_refl |].
    apply Qplus_le_compat; [apply fold_max_le_init | apply Qle_refl].
  - apply Qle_trans with (0 + 64)%Q; [apply Qle_refl |].
    apply Qplus_le_compat; [apply fold_max_le_init | apply Qle_refl].
Qed.

(** C10: every diagram that [layout_circuits] returns for the output of
    [yosys_to_simcir] has width = (maximum device x, 0 without devices)
    + 256 and height = (maximum device y, 0 without devices) + 64, hence
    width at least 256 and height at least 64; and a converted module
    without devices is laid out without an exception, with width 256 and
    height 64. *)
Theorem layout_canvas_size :
  (forall data portmaps out out' name circ',
      yosys_to_simcir data portmaps = Ok out ->
      layout_circuits dagre_layout out = Ok out' ->
      In (name, circ') out' ->
      (width circ' == max_or_zero (map dev_x (devices circ')) + 256)%Q
      /\ (height circ' == max_or_zero (map dev_y (devices circ')) + 64)%Q
      /\ (256 <= width circ')%Q
      /\ (64 <= height circ')%Q)
  /\ (forall portmaps mdl circ,
         convert_module portmaps mdl = Ok circ ->
         devices circ = [] ->
         exists circ',
           layout_circuit dagre_layout circ = Ok circ'
           /\ devices circ' = []
           /\ width circ' = 256%Q
           /\ height circ' = 64%Q).
Proof.
  split.
  - intros data portmaps out out' name circ' Hout Hlay Hin.
    destruct (layout_circuits_entries _ _ _ _ Hlay Hin) as (circ & Hc & Hl).
    destruct (yosys_to_simcir_entries _ _ _ _ _ Hout Hc) as (mdl & Hm).
    apply (layout_circuit_size circ circ'); [| exact Hl].
    apply (convert_module_ids _ _ _ Hm).
  - intros portmaps mdl circ Hm Hd.
    pose proof (convert_module_device_count _ _ _ Hm) as Hn.
    rewrite Hd in Hn. simpl in Hn.
    destruct mdl as [ps cs]. simpl in Hn.
    destruct ps; [| discriminate]. destruct cs; [| discriminate].
    injection Hm as <-. eexists. split; [reflexivity |].
    repeat split.
Qed.
End CanvasSize.

Lemma row_layout_nonneg (g : graph) (v : string) :
  (0 <= fst (row_layout g v))%Q /\ (0 <= snd (row_layout g v))%Q.
Proof.
  unfold row_layout.
  destruct (position v (keys (g_nodes g))) as [i |];
    split; unfold Qle; cbn [fst snd inject_Z Qnum Qden]; lia.
Qed.

Lemma layout_canvas_size_witness :
  (forall name circ',
      In (name, circ') one_port_layout ->
      (width circ' == max_or_zero (map dev_x (devices circ')) + 256)%Q
      /\ (256 <= width circ')%Q)
  /\ exists circ',
       layout_circuit row_layout
         {| width := 800; height := 500; devices := []; connectors := [] |}
       = Ok circ'
       /\ width circ' = 256%Q
       /\ height circ' = 64%Q.
Proof.
  destruct (layout_canvas_size row_layout row_layout_nonneg) as [Hall Hnone].
  split.
  - intros name circ' Hin.
    destruct (Hall one_port_netlist [] one_port_out one_port_layout name circ')
      as (Hw & _ & Hb & _).
    + vm_compute. reflexivity.
    + vm_compute. reflexivity.
    + exact Hin.
    + split; assumption.
  - destruct (Hnone [] {| ports := []; cells := [] |}
                {| width := 800; height := 500; devices := []; connectors := [] |})
      as (circ' & Hl & _ & Hw & Hh).
    + reflexivity.
    + reflexivity.
    + exists circ'. auto.
Defined.

(** ** Inputs on which the script leaves the specification *)

(** *** A net without a driver *)

Lemma edge_loop_undefined (conns : list connector) (g : graph) (c : connector) :
  In c conns -> conn_to c = None -> foldM edge_step conns g = Err TypeError.
Proof.
  revert g. induction conns as [| c' conns IH]; intros g Hin Hc; [contradiction |].
  simpl. unfold edge_step at 1. destruct (conn_to c') as [to |] eqn:E; simpl.
  - destruct Hin as [-> | Hin]; [congruence |]. apply IH; assumption.
  - reflexivity.
Qed.

(** C1: a listener on a net without a registered driver does not stop
    [yosys_to_simcir]: the module converts and its connectors include one
    from that listener with [to] undefined, as on a module with one output
    port on the undriven net 5.  No check stands before the emission; what
    ends the run is [layout_circuit], where [conn.to.split] throws a
    TypeError on every diagram that has such a connector. *)
Theorem unresolved_net_connector :
  (forall portmaps mdl mout k target,
      convert_module portmaps mdl = Ok mout ->
      In (k, target) (module_listeners portmaps mdl) ->
      ~ In k (module_drivers mdl) ->
      In {| conn_from := target; conn_to := None |} (connectors mout))
  /\ (forall dagre_layout circ c,
         In c (connectors circ) -> conn_to c = None ->
         layout_circuit dagre_layout circ = Err TypeError)
  /\ (portmaps <- order_ports dangling_netlist ;;
      yosys_to_simcir dangling_netlist portmaps)
     = Ok [("top",
            {| width := 800; height := 500;
               devices := [{| dev_id := "dev0"; dev_x := 0; dev_y := 0;
                              dev_label := "y"; dev_order := Some 1;
                              dev_type := "Out" |}];
               connectors := [{| conn_from := "dev0.in0"; conn_to := None |}] |})]
  /\ forall dagre_layout topsort,
       process dagre_layout topsort dangling_netlist = Err TypeError.
Proof.
  split; [| split; [| split]].
  - intros portmaps mdl mout k target H Hin Hk.
    unfold convert_module in H. apply bind_ok in H.
    destruct H as (b & Hb & H). injection H as <-. simpl.
    rewrite push_connectors_flat_map. simpl.
    pose proof (listener_connector _ _ _ _ _ Hb Hin) as Hc.
    destruct (register_devices_driven _ _ _ Hb) as [_ Hdr].
    destruct (net_driver (b_nets b) k) as [s |] eqn:E; [| exact Hc].
    exfalso. apply Hk. apply Hdr. rewrite E. discriminate.
  - intros dagre_layout circ c Hin Hc. unfold layout_circuit.
    rewrite (edge_loop_undefined _ _ c Hin Hc). reflexivity.
  - vm_compute. reflexivity.
  - intros. vm_compute. reflexivity.
Qed.

(** *** A cell type without a port map *)

(** [order_ports] has entries for the three gates and the modules only. *)
Lemma order_ports_unknown data portmaps ty :
  order_ports data = Ok portmaps ->
  is_gate ty = false -> ~ In ty (keys (modules data)) ->
  obj_get portmaps ty = None.
Proof.
  unfold order_ports. intros H Hg Hn.
  set (out0 := fold_left (fun out nm => obj_set out nm binmap)
                 ["$and"; "$or"; "$xor"] []) in *.
  assert (H0 : obj_get out0 ty = None).
  { apply obj_get_none. simpl.
    intros [E | [E | [E | []]]]; subst ty; discriminate Hg. }
  rewrite <- H0. revert Hn. rewrite <- (app_nil_l (modules data)).
  rewrite <- (app_nil_l (modules data)) in H.
  refine (foldM_invariant _
            (fun done (out : obj (obj string)) =>
               ~ In ty (keys done) -> obj_get out ty = obj_get out0 ty)
            _ _ [] _ _ _ H).
  - intros done [nm md] s s' HI Hs Hn.
    apply bind_ok in Hs. destruct Hs as (pm & _ & Hs). injection Hs as <-.
    unfold keys in Hn. rewrite map_app in Hn. simpl in Hn.
    rewrite obj_get_set_other.
    + apply HI. intros Hin. apply Hn. apply in_or_app. left. exact Hin.
    + intros ->. apply Hn. apply in_or_app. right. left. reflexivity.
  - reflexivity.
Qed.

Lemma cell_step_unknown portmaps b cname c :
  obj_get portmaps (cell_type c) = None ->
  is_gate (cell_type c) = false ->
  port_directions c <> [] ->
  (forall pname pdir, In (pname, pdir) (port_directions c) ->
                      pdir = "input" \/ pdir = "output") ->
  cell_step portmaps b (cname, c) = Err TypeError.
Proof.
  intros Hpm Hg Hne Hdir. unfold cell_step, gate_asserts. rewrite Hg, Hpm.
  cbn [bind]. destruct (port_directions c) as [| [pname pdir] pds]; [congruence |].
  cbn [foldM]. unfold connection_step at 1, connection_args.
  destruct (Hdir pname pdir (or_introl eq_refl)) as [-> | ->].
  - change (String.eqb "input" "input") with true. cbn iota.
    destruct (obj_get (connections c) pname); reflexivity.
  - change (String.eqb "output" "input") with false.
    change (String.eqb "output" "output") with true. cbn iota.
    destruct (obj_get (connections c) pname); reflexivity.
Qed.

(** C2: a cell whose type is neither a gate nor a module of the netlist
    gets the device type of its cell type, but its type has no port map:
    when the cell has connections, all of direction [input] or [output],
    the first [portmap[pname]] throws a TypeError and the conversion fails,
    as for a [$not] cell with the connections A and Y.  Such a cell
    converts only without connections.  (The types that have no port map
    are the [plain] ones: under a name of [Object.prototype] the table
    holds the inherited member, and the general statement leaves those
    types out, as it does tables built over a module of such a name.) *)
Theorem unknown_cell_type_throws :
  (forall data portmaps b cname c,
      order_ports data = Ok portmaps ->
      forallb plain (keys (modules data)) = true ->
      plain (cell_type c) = true ->
      is_gate (cell_type c) = false ->
      ~ In (cell_type c) (keys (modules data)) ->
      port_directions c <> [] ->
      (forall pname pdir, In (pname, pdir) (port_directions c) ->
                          pdir = "input" \/ pdir = "output") ->
      cell_step portmaps b (cname, c) = Err TypeError)
  /\ (portmaps <- order_ports unknown_cell_netlist ;;
      yosys_to_simcir unknown_cell_netlist portmaps) = Err TypeError
  /\ (portmaps <- order_ports bare_cell_netlist ;;
      yosys_to_simcir bare_cell_netlist portmaps)
     = Ok [("top",
            {| width := 800; height := 500;
               devices := [{| dev_id := "dev0"; dev_x := 0; dev_y := 0;
                              dev_label := "u"; dev_order := None;
                              dev_type := "$not" |}];
               connectors := [] |})]
  /\ forall ty, is_gate ty = false -> display_type ty = ty.
Proof.
  split; [| split; [| split]].
  - intros data portmaps b cname c Hpm _ _ Hg Hn Hne Hdir.
    apply cell_step_unknown; try assumption.
    apply (order_ports_unknown data); assumption.
  - vm_compute. reflexivity.
  - vm_compute. reflexivity.
  - intros ty H. unfold is_gate in H. unfold display_type.
    destruct (String.eqb ty "$and"); [discriminate |].
    destruct (String.eqb ty "$or"); [discriminate |].
    destruct (String.eqb ty "$xor"); [discriminate | reflexivity].
Qed.

(** *** A connection of several bits *)

(** The width check of the ports does hold: a port with more or fewer than
    one bit makes [port_step] throw the assertion error. *)
Lemma port_width_asserted b pname p :
  List.length (bits p) <> 1 ->
  port_step b (pname, p) = Err (AssertionError port_bits_length).
Proof.
  intros H. unfold port_step.
  destruct (Nat.eqb (List.length (bits p)) 1) eqn:E.
  - apply Nat.eqb_eq in E. contradiction.
  - reflexivity.
Qed.

(** C8: the loop over the connections of a cell reads [pconn[0]] and never
    the length of [pconn]: a connection of several nets is handled exactly
    as the connection of its first net alone.  So a cell of module type
    [sub] with the nets 2 and 3 on one port converts; the cell listens on
    net 2 only and net 3 is dropped.  (Ports are checked: one with more or
    fewer than one bit fails the assertion.) *)
Theorem wide_connection_truncated :
  (forall portmap c c' dname t pname pdir k rest,
      obj_get (connections c) pname = Some (k :: rest) ->
      obj_get (connections c') pname = Some [k] ->
      connection_step portmap c dname t (pname, pdir)
      = connection_step portmap c' dname t (pname, pdir))
  /\ (portmaps <- order_ports wide_connection_netlist ;;
      yosys_to_simcir wide_connection_netlist portmaps)
     = Ok [("top",
            {| width := 800; height := 500;
               devices := [{| dev_id := "dev0"; dev_x := 0; dev_y := 0;
                              dev_label := "a"; dev_order := Some 1;
                              dev_type := "In" |};
                           {| dev_id := "dev1"; dev_x := 0; dev_y := 0;
                              dev_label := "u"; dev_order := None;
                              dev_type := "sub" |}];
               connectors := [{| conn_from := "dev1.in0";
                                 conn_to := Some "dev0.out0" |}] |});
           ("sub",
            {| width := 800; height := 500;
               devices := [{| dev_id := "dev0"; dev_x := 0; dev_y := 0;
                              dev_label := "i"; dev_order := Some 1;
                              dev_type := "In" |}];
               connectors := [] |})]
  /\ (forall b pname p,
         List.length (bits p) <> 1 ->
         port_step b (pname, p) = Err (AssertionError port_bits_length)).
Proof.
  split; [| split].
  - intros portmap c c' dname t pname pdir k rest Hc Hc'.
    unfold connection_step, connection_args. rewrite Hc, Hc'. reflexivity.
  - vm_compute. reflexivity.
  - intros b pname p H. apply port_width_asserted. exact H.
Qed.


(** ** Module order *)

Lemma obj_in_keys {V : Type} (o : obj V) (k : string) :
  obj_in k o = true <-> In k (keys o).
Proof.
  unfold obj_in. split.
  - destruct (obj_get o k) eqn:E; [| discriminate]. intros _.
    apply obj_get_in in E. apply (in_map fst) in E. exact E.
  - intros Hin. destruct (obj_get o k) eqn:E; [reflexivity |].
    apply obj_get_absent in E. contradiction.
Qed.

(** The edges of [module_deps] are the instantiations between modules. *)
Lemma module_deps_spec data used user :
  In (used, user) (module_deps data) <-> instantiates data user used.
Proof.
  unfold module_deps, instantiates. rewrite in_flat_map. split.
  - intros ([name mdl] & Hm & Hc). apply in_flat_map in Hc.
    destruct Hc as ([cname c] & Hc & Hin).
    destruct (obj_in (cell_type c) (modules data)) eqn:E; [| contradiction].
    destruct Hin as [Heq | []]. injection Heq as <- <-.
    exists mdl, cname, c. rewrite <- obj_in_keys. auto.
  - intros (mdl & cname & c & Hm & Hc & <- & Hk).
    exists (user, mdl). split; [exact Hm |]. apply in_flat_map.
    exists (cname, c). split; [exact Hc |].
    apply obj_in_keys in Hk. rewrite Hk. left. reflexivity.
Qed.

Lemma pop_spec {A : Type} (l : list A) :
  match pop l with
  | (l', Some a) => l = l' ++ [a]
  | (l', None) => l = [] /\ l' = []
  end.
Proof.
  unfold pop. destruct (rev l) as [| a r] eqn:E.
  - split; [| reflexivity].
    rewrite <- (rev_involutive l), E. reflexivity.
  - rewrite <- (rev_involutive l), E. reflexivity.
Qed.

(** Nothing comes after the last element of a list without repetitions. *)
Lemma last_not_before (l : list string) (a w : string) :
  NoDup (l ++ [a]) -> ~ before a w (l ++ [a]).
Proof.
  intros Hnd (l1 & l2 & l3 & H).
  apply (f_equal (@rev string)) in H.
  rewrite rev_app_distr in H. simpl in H.
  replace (l1 ++ a :: l2 ++ w :: l3) with ((l1 ++ a :: l2) ++ w :: l3) in H
    by (rewrite <- app_assoc; reflexivity).
  rewrite rev_app_distr in H. simpl in H.
  rewrite rev_app_distr in H. simpl in H.
  apply NoDup_remove_2 in Hnd. rewrite app_nil_r in Hnd. apply Hnd.
  apply in_rev.
  destruct (rev l3) as [| x r3]; simpl in H; injection H as _ H; rewrite H.
  - apply in_or_app. left. apply in_or_app. right. left. reflexivity.
  - apply in_or_app. right. apply in_or_app. left.
    apply in_or_app. right. left. reflexivity.
Qed.

(** *** The reference sort *)

Lemma mem_In (v : string) (l : list string) : mem v l = true <-> In v l.
Proof.
  unfold mem. rewrite existsb_exists. split.
  - intros (w & Hin & Heq). apply String.eqb_eq in Heq. subst. exact Hin.
  - intros Hin. exists v. split; [exact Hin | apply String.eqb_refl].
Qed.

Lemma nodupb_NoDup (l : list string) : nodupb l = true -> NoDup l.
Proof.
  induction l as [| v l IH]; simpl; intros H; [constructor |].
  apply andb_true_iff in H. destruct H as [Hm Hn]. constructor.
  - intros Hin. apply mem_In in Hin. rewrite Hin in Hm. discriminate.
  - apply IH. exact Hn.
Qed.

Lemma position_In (v : string) (l : list string) (i : nat) :
  position v l = Some i -> In v l.
Proof.
  revert i. induction l as [| w l IH]; simpl; intros i H; [discriminate |].
  destruct (String.eqb w v) eqn:E.
  - left. apply String.eqb_eq. exact E.
  - right. destruct (position v l) as [i' |]; [| discriminate].
    apply (IH i'). reflexivity.
Qed.

Lemma position_before (v w : string) (l : list string) (i j : nat) :
  position v l = Some i -> position w l = Some j -> i < j -> before v w l.
Proof.
  revert i j. induction l as [| x l IH]; simpl; intros i j Hv Hw Hlt.
  - discriminate.
  - destruct (String.eqb x v) eqn:Ev.
    + apply String.eqb_eq in Ev. subst x. injection Hv as <-.
      destruct (String.eqb v w) eqn:Ew.
      * injection Hw as <-. lia.
      * destruct (position w l) as [j' |] eqn:Pw; [| discriminate].
        apply position_In in Pw. apply in_split in Pw.
        destruct Pw as (l2 & l3 & ->). exists [], l2, l3. reflexivity.
    + destruct (position v l) as [i' |] eqn:Pv; [| discriminate].
      injection Hv as <-.
      destruct (String.eqb x w); [injection Hw as <-; lia |].
      destruct (position w l) as [j' |] eqn:Pw; [| discriminate].
      injection Hw as <-.
      destruct (IH i' j' eq_refl eq_refl) as (l1 & l2 & l3 & ->); [lia |].
      exists (x :: l1), l2, l3. reflexivity.
Qed.

Lemma is_topological_sound edges order :
  is_topological edges order = true -> topological edges order.
Proof.
  unfold is_topological. intros H.
  apply andb_true_iff in H. destruct H as [H Hfwd].
  apply andb_true_iff in H. destruct H as [H Hcov].
  apply andb_true_iff in H. destruct H as [Hnd Hsub].
  rewrite forallb_forall in Hfwd, Hcov, Hsub. constructor.
  - apply nodupb_NoDup. exact Hnd.
  - intros v. split; intros Hin.
    + apply mem_In. apply Hsub. exact Hin.
    + apply mem_In. apply Hcov. exact Hin.
  - intros v w Hin. specialize (Hfwd _ Hin). unfold forward in Hfwd. simpl in Hfwd.
    destruct (position v order) as [i |] eqn:Pv; [| discriminate].
    destruct (position w order) as [j |] eqn:Pw; [| discriminate].
    apply Nat.ltb_lt in Hfwd. apply (position_before _ _ _ _ _ Pv Pw Hfwd).
Qed.

Lemma topsort_ref_sorted edges order :
  topsort_ref edges = Some order -> topological edges order.
Proof.
  unfold topsort_ref.
  destruct (is_topological edges _) eqn:E; [| discriminate].
  intros H. injection H as <-. apply is_topological_sound. exact E.
Qed.

Section EmissionOrder.
Variable dagre_layout : graph -> string -> Q * Q.
Variable topsort : list (string * string) -> option (list string).

(** A result of [topsort] is a topological order of the edges it got. *)
Hypothesis topsort_sorted :
  forall edges order, topsort edges = Some order -> topological edges order.

(** The document shows the modules in the order [topsort] returned. *)
Lemma process_order data doc :
  process dagre_layout topsort data = Ok doc ->
  exists order,
    topsort (module_deps data) = Some order
    /\ emission_order doc = order
    /\ match toplevel doc with
       | Some root => order = map fst (registered doc) ++ [root]
       | None => order = []
       end.
Proof.
  unfold process. intros H.
  apply bind_ok in H. destruct H as (portmaps & _ & H).
  apply bind_ok in H. destruct H as (out & _ & H).
  apply bind_ok in H. destruct H as (out' & _ & H).
  apply bind_ok in H. destruct H as (order & Ho & H).
  destruct (topsort (module_deps data)) as [order' |]; [| discriminate].
  injection Ho as ->. exists order. split; [reflexivity |].
  pose proof (pop_spec order) as Hp.
  destruct (pop order) as [init [root |]]; injection H as <-;
    unfold emission_order; simpl; rewrite map_map; simpl; rewrite map_id.
  - subst order. auto.
  - destruct Hp as [-> ->]. auto.
Qed.

(** Every module the document shows takes part in a dependency edge. *)
Lemma emitted_module_has_edge data doc name :
  process dagre_layout topsort data = Ok doc ->
  In name (emission_order doc) ->
  exists other, instantiates data name other \/ instantiates data other name.
Proof.
  intros H Hin. destruct (process_order data doc H) as (order & Ht & Ho & _).
  pose proof (topsort_sorted _ _ Ht) as [_ Hnodes _].
  rewrite Ho in Hin. apply Hnodes in Hin. unfold edge_nodes in Hin.
  apply in_flat_map in Hin. destruct Hin as ([used user] & He & Hin).
  apply module_deps_spec in He. simpl in Hin.
  destruct Hin as [<- | [<- | []]].
  - exists user. right. exact He.
  - exists used. left. exact He.
Qed.

(** In a document the script emits, for every dependency edge the module
    used stands strictly before the module that uses it; and when the
    netlist has a dependency edge, the document ends with the diagram of a
    module of the netlist that no module instantiates. *)
Lemma emission_topological data doc :
  process dagre_layout topsort data = Ok doc ->
  (forall used user,
      instantiates data user used ->
      before used user (emission_order doc))
  /\ ((exists used user, instantiates data user used) ->
      exists root,
        toplevel doc = Some root
        /\ emission_order doc = map fst (registered doc) ++ [root]
        /\ In root (keys (modules data))
        /\ forall user, ~ instantiates data user root).
Proof.
  intros H. destruct (process_order data doc H) as (order & Ht & Ho & Hl).
  pose proof (topsort_sorted _ _ Ht) as [Hnd Hnodes Hbefore].
  split.
  - intros used user Hi. rewrite Ho. apply Hbefore.
    apply module_deps_spec. exact Hi.
  - intros (used & user & Hi). apply module_deps_spec in Hi.
    destruct (toplevel doc) as [root |].
    + exists root. split; [reflexivity |]. rewrite Ho.
      split; [exact Hl |].
      assert (Hroot : In root (edge_nodes (module_deps data))).
      { apply Hnodes. rewrite Hl. apply in_or_app. right. left. reflexivity. }
      split.
      * unfold edge_nodes in Hroot. apply in_flat_map in Hroot.
        destruct Hroot as ([a b] & He & Hin). apply module_deps_spec in He.
        destruct He as (mdl & cname & c & Hm & _ & _ & Hk). simpl in Hin.
        destruct Hin as [<- | [<- | []]]; [exact Hk |].
        apply (in_map fst) in Hm. exact Hm.
      * intros user' Hi'. apply module_deps_spec in Hi'.
        apply Hbefore in Hi'. rewrite Hl in Hi', Hnd.
        apply (last_not_before _ _ _ Hnd Hi').
    + exfalso. apply (@in_nil _ used). rewrite <- Hl. apply Hnodes.
      unfold edge_nodes. apply in_flat_map.
      exists (used, user). split; [exact Hi | left; reflexivity].
Qed.
End EmissionOrder.

(** C9: the document shows the modules that [topsort] returns, and those
    are the modules of the dependency edges: a module that neither
    instantiates a module nor is instantiated by one is never emitted.  On
    a netlist of one module [module_deps] is empty, so is [toporder]; no
    module is registered and the top-level diagram is [out[undefined]],
    which is undefined. *)
Theorem flat_netlist_not_emitted :
  (forall dagre_layout topsort,
      (forall edges order, topsort edges = Some order ->
                           topological edges order) ->
      forall data doc name,
        process dagre_layout topsort data = Ok doc ->
        In name (emission_order doc) ->
        exists other,
          instantiates data name other \/ instantiates data other name)
  /\ module_deps and_netlist = []
  /\ forall dagre_layout,
       process dagre_layout topsort_ref and_netlist
       = Ok {| registered := []; toplevel := None; toplevel_diagram := None |}.
Proof.
  split; [| split].
  - intros dagre_layout topsort Hsorted data doc name H Hin.
    apply (emitted_module_has_edge dagre_layout topsort Hsorted data doc name H Hin).
  - reflexivity.
  - intros. vm_compute. reflexivity.
Qed.

Lemma emission_topological_witness :
  exists doc,
    process row_layout topsort_ref hierarchy_netlist = Ok doc
    /\ before "sub" "top" (emission_order doc).
Proof.
  destruct (process row_layout topsort_ref hierarchy_netlist) as [doc | e] eqn:E.
  - exists doc. split; [reflexivity |].
    apply (proj1 (emission_topological row_layout topsort_ref topsort_ref_sorted
                    hierarchy_netlist doc E)).
    exists {| ports := [("i", in_port 2); ("o", out_port 3)];
              cells := [("u", {| cell_type := "sub";
                                 port_directions := [("a", "input");
                                                     ("q", "output")];
                                 connections := [("a", [2%N]); ("q", [3%N])] |})] |},
      "u", {| cell_type := "sub";
              port_directions := [("a", "input"); ("q", "output")];
              connections := [("a", [2%N]); ("q", [3%N])] |}.
    repeat split; simpl; auto.
  - vm_compute in E. discriminate E.
Defined.

(** The document of [hierarchy_netlist] registers [sub] and ends with the
    diagram of [top]. *)
Example hierarchy_order :
  option_map emission_order
    (match process row_layout topsort_ref hierarchy_netlist with
     | Ok doc => Some doc
     | Err _ => None
     end)
  = Some ["sub"; "top"].
Proof. vm_compute. reflexivity. Qed.

(** The table of diagrams has no name besides the module names. *)
Lemma yosys_to_simcir_keys data portmaps out :
  yosys_to_simcir data portmaps = Ok out ->
  forall k, In k (keys out) -> In k (keys (modules data)).
Proof.
  unfold yosys_to_simcir. intros H.
  rewrite <- (app_nil_l (modules data)). rewrite <- (app_nil_l (modules data)) in H.
  refine (foldM_invariant _
            (fun done (out : obj diagram) =>
               forall k, In k (keys out) -> In k (keys done))
            _ _ [] _ _ _ H).
  - intros done [nm md] s s' HI Hs k Hk.
    apply bind_ok in Hs. destruct Hs as (mout & _ & Hs). injection Hs as <-.
    unfold keys in Hk. apply in_map_iff in Hk.
    destruct Hk as ([k' v] & Hfst & Hin). simpl in Hfst. subst k'.
    unfold keys. rewrite map_app. apply in_or_app.
    apply obj_set_in in Hin. destruct Hin as [[-> _] | Hin].
    + right. left. reflexivity.
    + left. apply HI. apply (in_map fst) in Hin. exact Hin.
  - intros k [].
Qed.

Lemma layout_circuits_keys dagre_layout circs out :
  layout_circuits dagre_layout circs = Ok out -> keys out = keys circs.
Proof.
  unfold layout_circuits. intros H.
  rewrite <- (app_nil_l circs). rewrite <- (app_nil_l circs) in H.
  refine (foldM_invariant _
            (fun done (res : obj diagram) => keys res = keys done)
            _ _ [] _ _ _ H).
  - intros done [nm circ] s s' HI Hs.
    apply bind_ok in Hs. destruct Hs as (circ' & _ & Hs). injection Hs as <-.
    unfold keys in *. rewrite !map_app, HI. reflexivity.
  - reflexivity.
Qed.

(** C3: the script takes the last module of [toporder] for the top level
    and prints it after the registrations, but [toporder] holds the modules
    of the dependency edges only.  On the netlist of the one module [top],
    which no module instantiates, there is no edge: whatever order
    [topsort] returns for no edges is empty, [toporder.pop()] is
    undefined, and the document registers nothing and ends with
    [out[undefined]].  The root is not emitted last; it is not emitted. *)
Theorem root_not_emitted :
  keys (modules and_netlist) = ["top"]
  /\ (forall user, ~ instantiates and_netlist user "top")
  /\ module_deps and_netlist = []
  /\ (forall dagre_layout topsort,
         (forall edges order, topsort edges = Some order ->
                              topological edges order) ->
         forall doc,
           process dagre_layout topsort and_netlist = Ok doc ->
           emission_order doc = []
           /\ toplevel doc = None /\ toplevel_diagram doc = None)
  /\ forall dagre_layout,
        process dagre_layout topsort_ref and_netlist
        = Ok {| registered := []; toplevel := None; toplevel_diagram := None |}.
Proof.
  split; [reflexivity |]. split; [| split; [reflexivity | split]].
  - intros user (mdl & cname & c & Hm & Hc & Ht & _).
    destruct Hm as [Hm | []]. injection Hm as <- <-.
    destruct Hc as [Hc | []]. injection Hc as _ <-. discriminate Ht.
  - intros dagre_layout topsort Hsorted doc H.
    destruct (process_order dagre_layout topsort and_netlist doc H)
      as (order & Ht & _).
    pose proof (Hsorted _ _ Ht) as [_ Hnodes _].
    assert (Hnil : order = []).
    { destruct order as [| v order]; [reflexivity |].
      destruct (proj1 (Hnodes v) (or_introl eq_refl)). }
    subst order. unfold process in H.
    destruct (order_ports and_netlist) as [portmaps |]; [| discriminate H].
    cbn [bind] in H.
    destruct (yosys_to_simcir and_netlist portmaps) as [out |] eqn:Ey;
      [| discriminate H].
    cbn [bind] in H.
    destruct (layout_circuits dagre_layout out) as [out' |] eqn:El;
      [| discriminate H].
    cbn [bind] in H. rewrite Ht in H. unfold pop in H. simpl in H.
    injection H as <-. unfold emission_order. simpl.
    repeat split.
    pose proof (layout_circuits_keys dagre_layout _ _ El) as K2.
    pose proof (yosys_to_simcir_keys _ _ _ Ey) as K1.
    apply obj_get_none. intros Hin. rewrite K2 in Hin.
    apply K1 in Hin. destruct Hin as [Hin | []]. discriminate Hin.
  - intros. vm_compute. reflexivity.
Qed.

(** ** A port name that the port map lacks *)

(** C5: the loop over the connections of a cell never looks a port name up
    before it uses [portmap[pname]]: for a connection whose name the port
    map of the cell type lacks, nothing is thrown and the slot reads
    ["undefined"].  An input connection adds the listener
    ["devN.undefined"] to its net, and an output connection on a net
    without a driver makes ["devN.undefined"] the driver.  So an AND gate
    with a fourth connection [C] converts, and its connectors include one
    from ["dev3.undefined"]. *)
Theorem missing_port_slot_leaks :
  (forall (pm : obj string) (c : cell) (dname : string) (t : net_table)
          (pname : string) (pconn : list N),
      obj_get pm pname = None -> plain pname = true ->
      obj_get (connections c) pname = Some pconn ->
      (exists t',
          connection_step (Some pm) c dname t (pname, "input") = Ok t'
          /\ net_targets t' (nth_error pconn 0)
             = net_targets t (nth_error pconn 0)
               ++ [(dname ++ ".undefined")%string])
      /\ (net_driver t (nth_error pconn 0) = None ->
          exists t',
            connection_step (Some pm) c dname t (pname, "output") = Ok t'
            /\ net_driver t' (nth_error pconn 0)
               = Some (dname ++ ".undefined")%string))
  /\ (portmaps <- order_ports extra_port_netlist ;;
      out <- yosys_to_simcir extra_port_netlist portmaps ;;
      Ok (option_map connectors (obj_get out "top")))
     = Ok (Some [{| conn_from := "dev3.in0"; conn_to := Some "dev0.out0" |};
                 {| conn_from := "dev3.undefined";
                    conn_to := Some "dev0.out0" |};
                 {| conn_from := "dev3.in1"; conn_to := Some "dev1.out0" |};
                 {| conn_from := "dev2.in0"; conn_to := Some "dev3.out0" |}]).
Proof.
  split; [| vm_compute; reflexivity].
  intros pm c dname t pname pconn Hpm _ Hconn.
  unfold connection_step, connection_args.
  change (String.eqb "input" "input") with true.
  change (String.eqb "output" "input") with false.
  change (String.eqb "output" "output") with true.
  rewrite Hconn, Hpm. cbn [bind fst snd]. split.
  - eexists. split; [reflexivity |].
    rewrite add_net_target_targets, netkey_eqb_refl. reflexivity.
  - intros Hnone.
    destruct (add_net_source t (nth_error pconn 0) dname None) as [t' | e] eqn:E.
    + exists t'. split; [reflexivity |].
      apply add_net_source_ok in E. destruct E as (_ & Hs & _). exact Hs.
    + apply add_net_source_err in E. destruct E as (_ & s & Hs). congruence.
Qed.

(** * Further properties of the script *)

(** ** The devices of a module *)

Lemma map_from_app {A B : Type} (f : nat -> A -> B) (n : nat) (l1 l2 : list A) :
  map_from f n (l1 ++ l2) = map_from f n l1 ++ map_from f (n + List.length l1) l2.
Proof.
  revert n. induction l1 as [| a l1 IH]; intros n; simpl.
  - rewrite Nat.add_0_r. reflexivity.
  - rewrite IH, Nat.add_succ_r. reflexivity.
Qed.

Lemma map_from_length {A B : Type} (f : nat -> A -> B) (n : nat) (l : list A) :
  List.length (map_from f n l) = List.length l.
Proof.
  revert n. induction l as [| a l IH]; intros n; simpl; [| rewrite IH]; reflexivity.
Qed.

Lemma port_step_device b kv b' :
  port_step b kv = Ok b' ->
  b_n b' = S (b_n b) /\ b_devices b' = b_devices b ++ [port_device (b_n b) kv].
Proof.
  destruct kv as [pname p]. unfold port_step, port_device. simpl. intros H.
  apply bind_ok in H. destruct H as (u & _ & H).
  destruct (String.eqb (direction p) "input").
  - apply bind_ok in H. destruct H as (t & _ & H). injection H as <-. auto.
  - destruct (String.eqb (direction p) "output"); [| discriminate].
    injection H as <-. auto.
Qed.

Lemma cell_step_device portmaps b kv b' :
  cell_step portmaps b kv = Ok b' ->
  b_n b' = S (b_n b) /\ b_devices b' = b_devices b ++ [cell_device (b_n b) kv].
Proof.
  destruct kv as [cname c]. unfold cell_step, cell_device. simpl. intros H.
  apply bind_ok in H. destruct H as (u & _ & H).
  apply bind_ok in H. destruct H as (t & _ & H). injection H as <-. auto.
Qed.

Lemma register_devices_devices portmaps mdl b :
  register_devices portmaps mdl = Ok b ->
  b_n b = List.length (ports mdl) + List.length (cells mdl)
  /\ b_devices b = module_devices mdl.
Proof.
  unfold register_devices, module_devices. intros H.
  apply bind_ok in H. destruct H as (b1 & H1 & H2).
  assert (P1 : b_n b1 = List.length ([] ++ ports mdl)
               /\ b_devices b1 = map_from port_device 0 ([] ++ ports mdl)).
  { refine (foldM_invariant _
              (fun done b => b_n b = List.length done
                             /\ b_devices b = map_from port_device 0 done)
              _ _ [] _ _ _ H1); [| split; reflexivity].
    intros done a s s' [Hn Hd] Hs.
    destruct (port_step_device _ _ _ Hs) as [Hn' Hd']. split.
    - rewrite Hn', Hn, length_app. simpl. lia.
    - rewrite Hd', Hd, map_from_app, Hn. reflexivity. }
  simpl in P1. destruct P1 as [Hn1 Hd1].
  set (np := List.length (ports mdl)) in *.
  assert (P2 : b_n b = np + List.length ([] ++ cells mdl)
               /\ b_devices b
                  = map_from port_device 0 (ports mdl)
                    ++ map_from cell_device np ([] ++ cells mdl)).
  { refine (foldM_invariant _
              (fun done b => b_n b = np + List.length done
                             /\ b_devices b
                                = map_from port_device 0 (ports mdl)
                                  ++ map_from cell_device np done)
              _ _ [] _ _ _ H2).
    - intros done a s s' [Hn Hd] Hs.
      destruct (cell_step_device _ _ _ _ Hs) as [Hn' Hd']. split.
      + rewrite Hn', Hn, length_app. simpl. lia.
      + rewrite Hd', Hd, map_from_app, <- app_assoc, Hn. reflexivity.
    - simpl. rewrite Nat.add_0_r, app_nil_r. split; assumption. }
  simpl in P2. exact P2.
Qed.

Lemma map_from_ids {A : Type} (f : nat -> A -> device) (n : nat) (l : list A) :
  (forall i a, dev_id (f i a) = gen_name i) ->
  map dev_id (map_from f n l) = map gen_name (seq n (List.length l)).
Proof.
  intros Hf. revert n. induction l as [| a l IH]; intros n; simpl.
  - reflexivity.
  - rewrite Hf, IH. reflexivity.
Qed.

Lemma map_from_labels {A : Type} (f : nat -> string * A -> device) (n : nat)
  (l : obj A) :
  (forall i kv, dev_label (f i kv) = fst kv) ->
  map dev_label (map_from f n l) = keys l.
Proof.
  intros Hf. revert n. induction l as [| a l IH]; intros n; simpl.
  - reflexivity.
  - rewrite Hf, IH. reflexivity.
Qed.

(** X1: the devices of a converted module depend on its ports and cells
    only: one device per port in declaration order, of type In or Out and
    with [order] one more than its number, then one device per cell, of the
    display type of the cell; all at (0, 0) and with the ids dev0, dev1,
    ... in that order.  So there are as many devices as ports and cells,
    their labels are the port names followed by the cell names, and no two
    share an id. *)
Theorem converted_devices portmaps mdl mout :
  convert_module portmaps mdl = Ok mout ->
  devices mout = module_devices mdl
  /\ List.length (devices mout)
     = List.length (ports mdl) + List.length (cells mdl)
  /\ map dev_id (devices mout)
     = map gen_name (seq 0 (List.length (ports mdl) + List.length (cells mdl)))
  /\ map dev_label (devices mout) = keys (ports mdl) ++ keys (cells mdl).
Proof.
  unfold convert_module. intros H. apply bind_ok in H.
  destruct H as (b & Hb & H). injection H as <-. simpl.
  destruct (register_devices_devices _ _ _ Hb) as [_ Hd]. rewrite Hd.
  unfold module_devices. split; [reflexivity |]. split; [| split].
  - rewrite length_app, !map_from_length. reflexivity.
  - rewrite map_app, !map_from_ids by reflexivity.
    rewrite seq_app, map_app. reflexivity.
  - rewrite map_app, !map_from_labels by reflexivity. reflexivity.
Qed.

Lemma converted_devices_witness :
  exists mout,
    convert_module and_portmaps and_module = Ok mout
    /\ map dev_label (devices mout) = ["a"; "b"; "y"; "g"]
    /\ map dev_type (devices mout) = ["In"; "In"; "Out"; "AND"].
Proof.
  destruct (convert_module and_portmaps and_module) as [mout | e] eqn:E.
  - exists mout. split; [reflexivity |].
    destruct (converted_devices and_portmaps and_module mout E) as (Hd & _ & _ & Hl).
    split; [exact Hl |]. rewrite Hd. vm_compute. reflexivity.
  - vm_compute in E. discriminate E.
Defined.

(** ** What the loops throw *)

(** The outcome of a loop, read off the outcomes of its body. *)
Lemma foldM_outcome {A S : Type} (step : S -> A -> result S)
  (P : A -> Prop) (Q : A -> exn -> Prop) :
  (forall s a, match step s a with Ok _ => P a | Err e => Q a e end) ->
  forall l s,
    match foldM step l s with
    | Ok _ => forall a, In a l -> P a
    | Err e => exists a, In a l /\ Q a e
    end.
Proof.
  intros Hstep. induction l as [| a l IH]; intros s; simpl.
  - intros a [].
  - pose proof (Hstep s a) as Ha. destruct (step s a) as [s1 | e]; simpl.
    + pose proof (IH s1) as Hl. destruct (foldM step l s1) as [s2 | e].
      * intros a' [<- | Hin]; [exact Ha | apply Hl; exact Hin].
      * destruct Hl as (a' & Hin & Hq). exists a'. split; [right |]; assumption.
    + exists a. split; [left; reflexivity | exact Ha].
Qed.

Lemma direction_cases (d : string) :
  (String.eqb d "input" = true /\ d = "input")
  \/ (String.eqb d "input" = false /\ String.eqb d "output" = true /\ d = "output")
  \/ (String.eqb d "input" = false /\ String.eqb d "output" = false
      /\ ~ valid_direction d).
Proof.
  destruct (String.eqb d "input") eqn:Ein.
  - left. split; [reflexivity | apply String.eqb_eq; exact Ein].
  - destruct (String.eqb d "output") eqn:Eout.
    + right. left. repeat split. apply String.eqb_eq. exact Eout.
    + right. right. repeat split. intros [-> | ->]; discriminate.
Qed.

Lemma split_port_outcome acc kv :
  match split_port acc kv with
  | Ok _ => valid_direction (direction (snd kv))
  | Err e => ~ valid_direction (direction (snd kv))
             /\ e = invalid_direction (direction (snd kv))
  end.
Proof.
  destruct acc as [ins outs], kv as [pname p]. unfold split_port. simpl.
  destruct (direction_cases (direction p))
    as [[-> E] | [(-> & -> & E) | (-> & -> & E)]].
  - left. exact E.
  - right. exact E.
  - split; [exact E | reflexivity].
Qed.

Lemma module_portmap_outcome mdl :
  match module_portmap mdl with
  | Ok _ => forall kv, In kv (ports mdl) -> valid_direction (direction (snd kv))
  | Err e => exists kv, In kv (ports mdl)
                        /\ ~ valid_direction (direction (snd kv))
                        /\ e = invalid_direction (direction (snd kv))
  end.
Proof.
  unfold module_portmap.
  pose proof (foldM_outcome split_port
                (fun kv => valid_direction (direction (snd kv)))
                (fun kv e => ~ valid_direction (direction (snd kv))
                             /\ e = invalid_direction (direction (snd kv)))
                split_port_outcome (ports mdl) ([], [])) as H.
  destruct (foldM split_port (ports mdl) ([], [])); simpl; exact H.
Qed.

Lemma order_ports_outcome (data : netlist) :
  match order_ports data with
  | Ok _ => forall nm, In nm (modules data) ->
                       forall kv, In kv (ports (snd nm)) ->
                                  valid_direction (direction (snd kv))
  | Err e => exists nm, In nm (modules data)
                        /\ exists kv, In kv (ports (snd nm))
                                      /\ ~ valid_direction (direction (snd kv))
                                      /\ e = invalid_direction (direction (snd kv))
  end.
Proof.
  unfold order_ports.
  set (out0 := fold_left (fun out nm => obj_set out nm binmap)
                 ["$and"; "$or"; "$xor"] []).
  set (step := fun (out : obj (obj string)) '(name, mdl) =>
                 portmap <- module_portmap mdl ;; Ok (obj_set out name portmap)).
  apply (foldM_outcome step
           (fun nm => forall kv, In kv (ports (snd nm)) ->
                                 valid_direction (direction (snd kv)))
           (fun nm e => exists kv, In kv (ports (snd nm))
                                   /\ ~ valid_direction (direction (snd kv))
                                   /\ e = invalid_direction (direction (snd kv)))).
  intros s [name mdl]. unfold step. simpl.
  pose proof (module_portmap_outcome mdl) as Hm.
  destruct (module_portmap mdl); simpl; exact Hm.
Qed.

(** X2: [order_ports] returns exactly when every port of every module has
    the direction [input] or [output]; otherwise it throws the Error
    "Invalid port direction: " followed by the direction of a port that has
    neither.  It throws nothing else: bit lists, cells and nets are not
    looked at. *)
Theorem order_ports_directions (data : netlist) :
  match order_ports data with
  | Ok _ =>
      forall name mdl pname p,
        In (name, mdl) (modules data) -> In (pname, p) (ports mdl) ->
        valid_direction (direction p)
  | Err e =>
      exists name mdl pname p,
        In (name, mdl) (modules data) /\ In (pname, p) (ports mdl)
        /\ ~ valid_direction (direction p)
        /\ e = Error ("Invalid port direction: " ++ direction p)
  end.
Proof.
  pose proof (order_ports_outcome data) as H.
  destruct (order_ports data) as [pm | e].
  - intros name mdl pname p Hm Hp. apply (H (name, mdl) Hm (pname, p) Hp).
  - destruct H as ([name mdl] & Hm & [pname p] & Hp & Hv & He).
    exists name, mdl, pname, p. auto.
Qed.

Lemma add_net_source_outcome t k d p :
  match add_net_source t k d p with
  | Ok _ => True
  | Err e => e = AssertionError net_source_undefined
  end.
Proof.
  destruct (add_net_source t k d p) eqn:E; [exact I |].
  apply add_net_source_err in E. apply E.
Qed.

Lemma port_step_outcome b kv :
  match port_step b kv with
  | Ok _ => valid_direction (direction (snd kv))
  | Err e => e = AssertionError port_bits_length
             \/ e = AssertionError net_source_undefined
             \/ (~ valid_direction (direction (snd kv))
                 /\ e = invalid_direction (direction (snd kv)))
  end.
Proof.
  destruct kv as [pname p]. unfold port_step. simpl.
  destruct (Nat.eqb (List.length (bits p)) 1); simpl; [| left; reflexivity].
  destruct (direction_cases (direction p))
    as [[-> E] | [(-> & -> & E) | (-> & -> & E)]].
  - pose proof (add_net_source_outcome (b_nets b) (nth_error (bits p) 0)
                  (gen_name (b_n b)) (Some "out0")) as Hs.
    destruct (add_net_source _ _ _ _); simpl.
    + left. exact E.
    + right. left. exact Hs.
  - right. exact E.
  - right. right. split; [exact E | reflexivity].
Qed.

Lemma connection_step_outcome portmap c dname t kv :
  match connection_step portmap c dname t kv with
  | Ok _ => valid_direction (snd kv)
  | Err e => e = TypeError
             \/ e = AssertionError net_source_undefined
             \/ (~ valid_direction (snd kv) /\ e = invalid_direction (snd kv))
  end.
Proof.
  destruct kv as [pname pdir]. unfold connection_step. simpl.
  assert (Hargs : match connection_args portmap c pname with
                  | Ok _ => True
                  | Err e => e = TypeError
                  end).
  { unfold connection_args. destruct (obj_get (connections c) pname);
      [destruct portmap |]; simpl; auto. }
  destruct (direction_cases pdir) as [[-> E] | [(-> & -> & E) | (-> & -> & E)]].
  - destruct (connection_args portmap c pname); simpl.
    + left. exact E.
    + left. exact Hargs.
  - destruct (connection_args portmap c pname) as [a | e]; simpl.
    + pose proof (add_net_source_outcome t (fst a) dname (snd a)) as Hs.
      destruct (add_net_source _ _ _ _); [right; exact E | right; left; exact Hs].
    + left. exact Hargs.
  - right. right. split; [exact E | reflexivity].
Qed.

Lemma gate_asserts_outcome c :
  match gate_asserts c with
  | Ok _ => True
  | Err e => e = TypeError \/ exists a, e = AssertionError a
  end.
Proof.
  unfold gate_asserts. destruct (is_gate (cell_type c)); [| exact I].
  unfold assert_connection_length, assert_gate_direction, assert.
  repeat match goal with
         | |- context [obj_get ?o ?k] => destruct (obj_get o k); simpl; auto
         | |- context [if ?b then _ else _] => destruct b; simpl; eauto
         end.
Qed.

Lemma cell_step_outcome portmaps b kv :
  match cell_step portmaps b kv with
  | Ok _ => forall pd, In pd (port_directions (snd kv)) -> valid_direction (snd pd)
  | Err e => e = TypeError
             \/ (exists a, e = AssertionError a)
             \/ exists pd, In pd (port_directions (snd kv))
                           /\ ~ valid_direction (snd pd)
                           /\ e = invalid_direction (snd pd)
  end.
Proof.
  destruct kv as [cname c]. unfold cell_step. simpl.
  pose proof (gate_asserts_outcome c) as Hg.
  destruct (gate_asserts c) as [u | e]; simpl.
  - pose proof (foldM_outcome
                  (connection_step (obj_get portmaps (cell_type c)) c
                     (gen_name (b_n b)))
                  (fun pd => valid_direction (snd pd))
                  (fun pd e => e = TypeError
                               \/ e = AssertionError net_source_undefined
                               \/ (~ valid_direction (snd pd)
                                   /\ e = invalid_direction (snd pd)))
                  (connection_step_outcome _ _ _)
                  (port_directions c) (b_nets b)) as Hl.
    destruct (foldM _ (port_directions c) (b_nets b)) as [t | e]; simpl.
    + exact Hl.
    + destruct Hl as (pd & Hin & [-> | [-> | [Hv ->]]]).
      * left. reflexivity.
      * right. left. eexists. reflexivity.
      * right. right. exists pd. auto.
  - destruct Hg as [-> | Ha]; [left; reflexivity | right; left; exact Ha].
Qed.

(** The exceptions of one module: an assertion, a TypeError, or the
    direction of a port or of a connection. *)
Lemma convert_module_outcome portmaps mdl :
  match convert_module portmaps mdl with
  | Ok _ => True
  | Err e => e = TypeError
             \/ (exists a, e = AssertionError a)
             \/ (exists kv, In kv (ports mdl)
                            /\ ~ valid_direction (direction (snd kv))
                            /\ e = invalid_direction (direction (snd kv)))
             \/ exists cl pd, In cl (cells mdl)
                              /\ In pd (port_directions (snd cl))
                              /\ ~ valid_direction (snd pd)
                              /\ e = invalid_direction (snd pd)
  end.
Proof.
  unfold convert_module, register_devices.
  pose proof (foldM_outcome port_step
                (fun kv => valid_direction (direction (snd kv)))
                (fun kv e => e = AssertionError port_bits_length
                             \/ e = AssertionError net_source_undefined
                             \/ (~ valid_direction (direction (snd kv))
                                 /\ e = invalid_direction (direction (snd kv))))
                port_step_outcome (ports mdl) builder0) as Hp.
  destruct (foldM port_step (ports mdl) builder0) as [b1 | e]; simpl.
  - pose proof (foldM_outcome (cell_step portmaps)
                  (fun cl => forall pd, In pd (port_directions (snd cl)) ->
                                        valid_direction (snd pd))
                  (fun cl e => e = TypeError
                               \/ (exists a, e = AssertionError a)
                               \/ exists pd, In pd (port_directions (snd cl))
                                             /\ ~ valid_direction (snd pd)
                                             /\ e = invalid_direction (snd pd))
                  (cell_step_outcome portmaps) (cells mdl) b1) as Hc.
    destruct (foldM (cell_step portmaps) (cells mdl) b1) as [b2 | e]; simpl.
    + exact I.
    + destruct Hc as (cl & Hin & [-> | [Ha | (pd & Hpd & Hv & ->)]]).
      * left. reflexivity.
      * right. left. exact Ha.
      * right. right. right. exists cl, pd. auto.
  - destruct Hp as (kv & Hin & [-> | [-> | [Hv ->]]]).
    + right. left. eexists. reflexivity.
    + right. left. eexists. reflexivity.
    + right. right. left. exists kv. auto.
Qed.

(** X3: after [order_ports] has returned, the only exceptions of
    [yosys_to_simcir] are a failed assertion, the TypeError of a read on
    undefined, and the Error "Invalid port direction: " for the direction
    of a cell connection.  The same Error in its loop over the ports can no
    longer be thrown: [order_ports] has thrown it first. *)
Theorem conversion_errors data portmaps e :
  order_ports data = Ok portmaps ->
  yosys_to_simcir data portmaps = Err e ->
  (exists a, e = AssertionError a)
  \/ e = TypeError
  \/ exists name mdl cname c pname pdir,
       In (name, mdl) (modules data) /\ In (cname, c) (cells mdl)
       /\ In (pname, pdir) (port_directions c)
       /\ ~ valid_direction pdir
       /\ e = Error ("Invalid port direction: " ++ pdir).
Proof.
  intros Hpm H.
  pose proof (order_ports_outcome data) as Hvalid. rewrite Hpm in Hvalid.
  unfold yosys_to_simcir in H.
  pose proof (foldM_outcome
                (fun (out : obj diagram) '(name, mdl) =>
                   mout <- convert_module portmaps mdl ;;
                   Ok (obj_set out name mout))
                (fun _ => True)
                (fun nm e => match convert_module portmaps (snd nm) with
                             | Ok _ => False
                             | Err e' => e = e'
                             end)) as Hl.
  specialize (Hl (fun s nm => ltac:(
    destruct nm as [name mdl]; simpl;
    destruct (convert_module portmaps mdl); simpl; auto)) (modules data) []).
  rewrite H in Hl. destruct Hl as ([name mdl] & Hin & Hc). simpl in Hc.
  pose proof (convert_module_outcome portmaps mdl) as Ho.
  destruct (convert_module portmaps mdl) as [mout | e']; [contradiction |].
  subst e'. destruct Ho as [-> | [Ha | [(kv & Hkv & Hv & _) | Hcell]]].
  - right. left. reflexivity.
  - left. exact Ha.
  - exfalso. apply Hv. apply (Hvalid (name, mdl) Hin kv Hkv).
  - right. right. destruct Hcell as ([cname c] & [pname pdir] & Hc & Hpd & Hv & ->).
    exists name, mdl, cname, c, pname, pdir. auto.
Qed.

Lemma conversion_errors_witness :
  (exists a, AssertionError net_source_undefined = AssertionError a)
  \/ AssertionError net_source_undefined = TypeError
  \/ exists name mdl cname c pname pdir,
       In (name, mdl) (modules two_drivers_netlist) /\ In (cname, c) (cells mdl)
       /\ In (pname, pdir) (port_directions c)
       /\ ~ valid_direction pdir
       /\ AssertionError net_source_undefined
          = Error ("Invalid port direction: " ++ pdir).
Proof.
  apply (conversion_errors two_drivers_netlist and_portmaps).
  - vm_compute. reflexivity.
  - vm_compute. reflexivity.
Defined.

(** ** The assertions on gate cells *)

Lemma assert_connection_length_ok c pname :
  assert_connection_length c pname = Ok tt
  <-> exists k, obj_get (connections c) pname = Some [k].
Proof.
  unfold assert_connection_length. split.
  - destruct (obj_get (connections c) pname) as [[| k [| k' l]] |];
      simpl; try discriminate. intros _. exists k. reflexivity.
  - intros (k & ->). reflexivity.
Qed.

Lemma assert_gate_direction_ok c pname dir :
  assert_gate_direction c pname dir = Ok tt
  <-> obj_get (port_directions c) pname = Some dir.
Proof.
  unfold assert_gate_direction. split.
  - destruct (obj_get (port_directions c) pname) as [d |]; simpl; [| discriminate].
    destruct (String.eqb d dir) eqn:E; simpl; [| discriminate].
    apply String.eqb_eq in E. subst. reflexivity.
  - intros ->. rewrite String.eqb_refl. reflexivity.
Qed.

Lemma bind_unit_ok (r : result unit) (k : result unit) :
  (r ;;; k) = Ok tt <-> r = Ok tt /\ k = Ok tt.
Proof.
  split.
  - destruct r as [[] | e]; simpl; [auto | discriminate].
  - intros [-> ->]. reflexivity.
Qed.

(** X4: on a cell of type [$and], [$or] or [$xor] the assertions pass
    exactly when each of A, B and Y is connected to one net and A and B
    are declared inputs and Y an output.  The first check is on A: a cell
    without a connection A ends in a TypeError, and one whose A has no net
    or several in the assertion error on the length of A.  A cell of any
    other type is not checked: the assertions pass whatever its
    connections are. *)
Theorem gate_checks (c : cell) :
  (is_gate (cell_type c) = true ->
   (gate_asserts c = Ok tt <-> gate_shaped c)
   /\ (obj_get (connections c) "A" = None -> gate_asserts c = Err TypeError)
   /\ (forall pconn,
          obj_get (connections c) "A" = Some pconn ->
          List.length pconn <> 1 ->
          gate_asserts c = Err (AssertionError (connection_length "A"))))
  /\ (is_gate (cell_type c) = false -> gate_asserts c = Ok tt).
Proof.
  split.
  - intros Hg. unfold gate_asserts. rewrite Hg. split; [| split].
    + rewrite !bind_unit_ok, !assert_connection_length_ok,
        !assert_gate_direction_ok. unfold gate_shaped. split.
      * intros ((a & Ha) & (b & Hb) & (y & Hy) & Da & Db & Dy).
        split; [exists a, b, y |]; auto.
      * intros ((a & b & y & Ha & Hb & Hy) & Da & Db & Dy).
        repeat split; eauto.
    + intros Ha. unfold assert_connection_length at 1. rewrite Ha. reflexivity.
    + intros pconn Ha Hlen. unfold assert_connection_length at 1. rewrite Ha.
      destruct (Nat.eqb (List.length pconn) 1) eqn:E.
      * apply Nat.eqb_eq in E. contradiction.
      * reflexivity.
  - intros Hg. unfold gate_asserts. rewrite Hg. reflexivity.
Qed.

(** ** What [layout_circuit] keeps and what it sets *)

Lemma same_device_refl d : same_device d d.
Proof. repeat split. Qed.

Lemma same_device_trans d1 d2 d3 :
  same_device d1 d2 -> same_device d2 d3 -> same_device d1 d3.
Proof.
  intros (A1 & A2 & A3 & A4) (B1 & B2 & B3 & B4).
  repeat split; congruence.
Qed.

Lemma Forall2_same_refl l : Forall2 same_device l l.
Proof. induction l; constructor; [apply same_device_refl | assumption]. Qed.

Lemma Forall2_same_trans l1 l2 l3 :
  Forall2 same_device l1 l2 -> Forall2 same_device l2 l3 ->
  Forall2 same_device l1 l3.
Proof.
  intros H. revert l3. induction H as [| a b l1 l2 Hab H IH]; intros l3 H3.
  - inversion H3. constructor.
  - inversion H3 as [| b' c l2' l3' Hbc H3']; subst. constructor.
    + apply (same_device_trans _ _ _ Hab Hbc).
    + apply IH. exact H3'.
Qed.

Lemma place_same devs id xy : Forall2 same_device devs (place devs id xy).
Proof.
  induction devs as [| d devs IH]; simpl; [constructor |].
  destruct (String.eqb (dev_id d) id
            && negb (existsb (fun d' => String.eqb (dev_id d') id) devs)).
  - constructor; [repeat split | apply Forall2_same_refl].
  - constructor; [apply same_device_refl | exact IH].
Qed.

Lemma node_loop_same dagre_layout g l s s' :
  foldM (node_step dagre_layout g) l s = Ok s' ->
  Forall2 same_device (pl_devices s) (pl_devices s').
Proof.
  revert s. induction l as [| [nname node] l IH]; intros s H; simpl in H.
  - injection H as <-. apply Forall2_same_refl.
  - apply bind_ok in H. destruct H as (s1 & H1 & H2).
    destruct node as [id |]; [| discriminate]. injection H1 as <-.
    apply IH in H2. simpl in H2.
    apply (Forall2_same_trans _ _ _ (place_same _ _ _) H2).
Qed.

(** X5: [layout_circuit] changes positions and the canvas size only: the
    diagram it returns has the same connectors and, device by device in
    the same order, the same id, label, order and type. *)
Theorem layout_keeps_structure dagre_layout circ circ' :
  layout_circuit dagre_layout circ = Ok circ' ->
  connectors circ' = connectors circ
  /\ Forall2 same_device (devices circ) (devices circ')
  /\ List.length (devices circ') = List.length (devices circ).
Proof.
  unfold layout_circuit. intros H.
  apply bind_ok in H. destruct H as (g & _ & H).
  apply bind_ok in H. destruct H as (s & Hs & H). injection H as <-. simpl.
  apply node_loop_same in Hs. simpl in Hs.
  split; [reflexivity |]. split; [exact Hs |].
  symmetry. apply (Forall2_length Hs).
Qed.

Lemma layout_keeps_structure_witness :
  exists circ',
    layout_circuit row_layout
      {| width := 800; height := 500;
         devices := [{| dev_id := "dev0"; dev_x := 0; dev_y := 0;
                        dev_label := "a"; dev_order := Some 1;
                        dev_type := "In" |}];
         connectors := [] |} = Ok circ'
    /\ connectors circ' = []
    /\ List.length (devices circ') = 1.
Proof.
  eexists. split; [vm_compute; reflexivity |].
  destruct (layout_keeps_structure row_layout
              {| width := 800; height := 500;
                 devices := [{| dev_id := "dev0"; dev_x := 0; dev_y := 0;
                                dev_label := "a"; dev_order := Some 1;
                                dev_type := "In" |}];
                 connectors := [] |} _ eq_refl) as (Hc & _ & Hl).
  split; assumption.
Defined.

Lemma has_edge_In g v w : has_edge g v w = true <-> In (v, w) (g_edges g).
Proof.
  unfold has_edge. rewrite existsb_exists. split.
  - intros ([a b] & Hin & H). simpl in H. apply andb_true_iff in H.
    destruct H as [Ha Hb]. apply String.eqb_eq in Ha, Hb. subst. exact Hin.
  - intros Hin. exists (v, w). split; [exact Hin |]. simpl.
    rewrite !String.eqb_refl. reflexivity.
Qed.

Lemma setEdge_edges g v w e :
  In e (g_edges (setEdge g v w)) <-> In e (g_edges g) \/ e = (v, w).
Proof.
  unfold setEdge. destruct (has_edge g v w) eqn:E.
  - apply has_edge_In in E. split; [auto |]. intros [H | ->]; assumption.
  - simpl. rewrite in_app_iff. simpl. split.
    + intros [H | [H | []]]; auto.
    + intros [H | H]; auto.
Qed.

Lemma setEdge_nodup g v w : NoDup (g_edges g) -> NoDup (g_edges (setEdge g v w)).
Proof.
  intros Hnd. unfold setEdge. destruct (has_edge g v w) eqn:E; [exact Hnd |].
  simpl. apply NoDup_rev in Hnd. rewrite <- (rev_involutive (_ ++ _)).
  apply NoDup_rev. rewrite rev_app_distr. simpl. constructor; [| exact Hnd].
  intros Hin. apply in_rev in Hin. apply has_edge_In in Hin. congruence.
Qed.

Lemma edge_loop_edges conns g g' :
  foldM edge_step conns g = Ok g' ->
  (NoDup (g_edges g) -> NoDup (g_edges g'))
  /\ forall e, In e (g_edges g')
               <-> In e (g_edges g) \/ exists c, In c conns /\ connector_edge c e.
Proof.
  revert g. induction conns as [| c conns IH]; intros g H; simpl in H.
  - injection H as <-. split; [auto |]. intros e. split; [auto |].
    intros [H | (c & [] & _)]. exact H.
  - apply bind_ok in H. destruct H as (g1 & H1 & H2).
    unfold edge_step in H1. destruct (conn_to c) as [to |] eqn:Eto; [| discriminate].
    injection H1 as <-. destruct (IH _ H2) as [Hnd Hedges]. split.
    + intros Hg. apply Hnd. apply setEdge_nodup. exact Hg.
    + intros e. rewrite Hedges, setEdge_edges. split.
      * intros [[H | ->] | (c' & Hin & Hc)].
        -- left. exact H.
        -- right. exists c. split; [left; reflexivity |].
           exists to. split; [exact Eto | reflexivity].
        -- right. exists c'. split; [right; exact Hin | exact Hc].
      * intros [H | (c' & [<- | Hin] & Hc)].
        -- left. left. exact H.
        -- left. right. destruct Hc as (to' & Hto & ->).
           rewrite Eto in Hto. injection Hto as <-. reflexivity.
        -- right. exists c'. split; assumption.
Qed.

(** With distinct device ids, a layout that returns went through a graph
    whose nodes are the devices, and placed every device. *)
Lemma layout_circuit_run dagre_layout circ circ' :
  NoDup (map dev_id (devices circ)) ->
  layout_circuit dagre_layout circ = Ok circ' ->
  exists g,
    foldM edge_step (connectors circ)
      (fold_left (fun g dev => setNode g (dev_id dev)) (devices circ) graph0)
    = Ok g
    /\ g_nodes g = map device_node (devices circ)
    /\ devices circ'
       = map (fun d => move_to d (dagre_layout g (dev_id d))) (devices circ).
Proof.
  intros Hnd H. unfold layout_circuit in H.
  apply bind_ok in H. destruct H as (g & Hg & H).
  apply bind_ok in H. destruct H as (s & Hs & H). injection H as <-. simpl.
  exists g. split; [exact Hg |].
  apply edge_loop_nodes in Hg. destruct Hg as (extra & Hnodes & Hextra).
  rewrite device_graph_nodes in Hnodes by exact Hnd. simpl in Hnodes.
  pose proof (node_loop_labelled _ _ _ _ _ Hs) as Hlab.
  rewrite Hnodes in Hlab. apply Forall_app in Hlab. destruct Hlab as [_ Hlab].
  assert (extra = []) as ->.
  { destruct extra as [| kv extra]; [reflexivity |].
    inversion Hlab; subst. inversion Hextra; subst. contradiction. }
  rewrite app_nil_r in Hnodes. split; [exact Hnodes |].
  rewrite Hnodes in Hs.
  apply (node_loop_devices dagre_layout g (devices circ) []) in Hs;
    [| exact Hnd | reflexivity].
  apply Hs.
Qed.

(** X6: when the devices of a diagram have distinct ids and its layout
    returns, the graph handed to dagre has the device ids as its nodes, in
    device order, and one edge for each pair (device of the listener,
    device of the driver) that a connector joins, without repetition; every
    device then takes the position dagre gave to the node of its id. *)
Theorem layout_graph dagre_layout circ circ' :
  NoDup (map dev_id (devices circ)) ->
  layout_circuit dagre_layout circ = Ok circ' ->
  exists g,
    keys (g_nodes g) = map dev_id (devices circ)
    /\ NoDup (g_edges g)
    /\ (forall e, In e (g_edges g)
                  <-> exists c, In c (connectors circ) /\ connector_edge c e)
    /\ devices circ'
       = map (fun d => move_to d (dagre_layout g (dev_id d))) (devices circ).
Proof.
  intros Hnd H.
  destruct (layout_circuit_run _ _ _ Hnd H) as (g & Hg & Hnodes & Hdevs).
  exists g. split; [| split; [| split]].
  - rewrite Hnodes. unfold keys. rewrite map_map. reflexivity.
  - apply (proj1 (edge_loop_edges _ _ _ Hg)).
    assert (E : forall devs g0, g_edges (fold_left (fun g dev => setNode g (dev_id dev))
                                           devs g0) = g_edges g0).
    { induction devs as [| d devs IH]; intros g0; simpl; [reflexivity |].
      rewrite IH. reflexivity. }
    rewrite E. constructor.
  - intros e. rewrite (proj2 (edge_loop_edges _ _ _ Hg) e).
    assert (E : forall devs g0, g_edges (fold_left (fun g dev => setNode g (dev_id dev))
                                           devs g0) = g_edges g0).
    { induction devs as [| d devs IH]; intros g0; simpl; [reflexivity |].
      rewrite IH. reflexivity. }
    rewrite E. simpl. split; [intros [[] | Hc]; exact Hc | auto].
  - exact Hdevs.
Qed.

Lemma layout_graph_witness :
  exists circ' g,
    layout_circuit row_layout
      {| width := 800; height := 500;
         devices := [{| dev_id := "dev0"; dev_x := 0; dev_y := 0;
                        dev_label := "a"; dev_order := Some 1;
                        dev_type := "In" |}];
         connectors := [] |} = Ok circ'
    /\ keys (g_nodes g) = ["dev0"]
    /\ NoDup (g_edges g).
Proof.
  eexists.
  destruct (layout_graph row_layout
              {| width := 800; height := 500;
                 devices := [{| dev_id := "dev0"; dev_x := 0; dev_y := 0;
                                dev_label := "a"; dev_order := Some 1;
                                dev_type := "In" |}];
                 connectors := [] |}
              {| width := 16 + 256; height := 16 + 64;
                 devices := [{| dev_id := "dev0"; dev_x := 16; dev_y := 16;
                                dev_label := "a"; dev_order := Some 1;
                                dev_type := "In" |}];
                 connectors := [] |})
    as (g & Hk & Hnd & _).
  - simpl. constructor; [tauto | constructor].
  - vm_compute. reflexivity.
  - exists g. split; [vm_compute; reflexivity |]. split; assumption.
Defined.

(** ** The driver of each connector *)

Lemma source_on_app ss1 ss2 k :
  source_on (ss1 ++ ss2) k
  = match source_on ss1 k with
    | Some s => Some s
    | None => source_on ss2 k
    end.
Proof.
  unfold source_on. induction ss1 as [| e ss1 IH]; simpl; [reflexivity |].
  destruct (netkey_eqb (fst e) k); [reflexivity | exact IH].
Qed.

Lemma source_on_none ss k : source_on ss k = None <-> ~ In k (map fst ss).
Proof.
  unfold source_on. induction ss as [| e ss IH]; simpl; [tauto |].
  destruct (netkey_eqb (fst e) k) eqn:E; simpl.
  - apply netkey_eqb_eq in E. split; [discriminate | intros H; exfalso; auto].
  - apply netkey_eqb_neq in E. rewrite IH. tauto.
Qed.

Lemma source_on_in ss k s :
  NoDup (map fst ss) -> (source_on ss k = Some s <-> In (k, s) ss).
Proof.
  unfold source_on. induction ss as [| [k' s'] ss IH]; simpl; intros Hnd.
  - split; [discriminate | tauto].
  - inversion Hnd as [| ? ? Hnotin Hnd']; subst.
    destruct (netkey_eqb k' k) eqn:E; simpl.
    + apply netkey_eqb_eq in E. subst k'. split.
      * intros H. injection H as <-. left. reflexivity.
      * intros [H | H]; [injection H as <-; reflexivity |].
        exfalso. apply Hnotin. apply (in_map fst) in H. exact H.
    + apply netkey_eqb_neq in E. rewrite (IH Hnd'). split; [tauto |].
      intros [H | H]; [| exact H]. injection H as H _. contradiction.
Qed.

Lemma sourcing_source t k d p t' ss :
  add_net_source t k d p = Ok t' -> sourcing t ss ->
  sourcing t' (ss ++ [(k, endpoint d p)]).
Proof.
  intros H [Hnd Hs]. apply add_net_source_ok in H.
  destruct H as (Hnone & Hsome & Hother & _).
  rewrite Hs in Hnone. split.
  - rewrite map_app. simpl. apply NoDup_rev in Hnd.
    rewrite <- (rev_involutive (_ ++ _)). apply NoDup_rev.
    rewrite rev_app_distr. simpl. constructor; [| exact Hnd].
    rewrite <- in_rev. apply source_on_none. exact Hnone.
  - intros k'. rewrite source_on_app. destruct (netkey_eqb k k') eqn:E.
    + apply netkey_eqb_eq in E. subst k'. rewrite Hnone, Hsome.
      unfold source_on. simpl. rewrite netkey_eqb_refl. reflexivity.
    + pose proof E as Hne. apply netkey_eqb_neq in Hne.
      rewrite (Hother _ Hne), Hs. unfold source_on at 3. simpl. rewrite E.
      destruct (source_on ss k'); reflexivity.
Qed.

Lemma sourcing_target t k d p ss :
  sourcing t ss -> sourcing (add_net_target t k d p) ss.
Proof.
  intros [Hnd Hs]. split; [exact Hnd |].
  intros k'. rewrite add_net_target_driver. apply Hs.
Qed.

Lemma port_sources_app n ps1 ps2 :
  port_sources n (ps1 ++ ps2) =
  port_sources n ps1 ++ port_sources (n + List.length ps1) ps2.
Proof.
  revert n. induction ps1 as [| [pname p] ps1 IH]; intros n; simpl.
  - rewrite Nat.add_0_r. reflexivity.
  - rewrite IH, <- app_assoc, Nat.add_succ_r. reflexivity.
Qed.

Lemma cell_sources_app portmaps n cs1 cs2 :
  cell_sources portmaps n (cs1 ++ cs2) =
  cell_sources portmaps n cs1
  ++ cell_sources portmaps (n + List.length cs1) cs2.
Proof.
  revert n. induction cs1 as [| [cname c] cs1 IH]; intros n; simpl.
  - rewrite Nat.add_0_r. reflexivity.
  - rewrite IH, <- app_assoc, Nat.add_succ_r. reflexivity.
Qed.

Lemma port_step_sourcing b kv b' ss :
  port_step b kv = Ok b' -> sourcing (b_nets b) ss ->
  b_n b' = S (b_n b)
  /\ sourcing (b_nets b') (ss ++ port_sources (b_n b) [kv]).
Proof.
  destruct kv as [pname p]. unfold port_step. simpl.
  intros H Hl. apply bind_ok in H. destruct H as (u & _ & H).
  destruct (String.eqb (direction p) "input") eqn:Ein.
  - apply bind_ok in H. destruct H as (t & Ht & H). injection H as <-. simpl.
    split; [reflexivity |]. apply (sourcing_source _ _ _ _ _ _ Ht Hl).
  - destruct (String.eqb (direction p) "output"); [| discriminate].
    injection H as <-. simpl. split; [reflexivity |]. rewrite app_nil_r.
    apply sourcing_target. exact Hl.
Qed.

Lemma connection_step_sourcing portmap c dname t kv t' ss :
  connection_step portmap c dname t kv = Ok t' -> sourcing t ss ->
  sourcing t' (ss ++ connection_sources portmap c dname [kv]).
Proof.
  destruct kv as [pname pdir]. unfold connection_step, connection_sources.
  simpl. intros H Hl.
  destruct (String.eqb pdir "input") eqn:Ein.
  - assert (Eout : String.eqb pdir "output" = false).
    { apply String.eqb_eq in Ein. subst pdir. reflexivity. }
    rewrite Eout. simpl. rewrite app_nil_r.
    apply bind_ok in H. destruct H as (a & _ & H). injection H as <-.
    apply sourcing_target. exact Hl.
  - destruct (String.eqb pdir "output"); [| discriminate].
    apply bind_ok in H. destruct H as (a & Ha & H).
    unfold connection_args in Ha.
    destruct (obj_get (connections c) pname) as [pconn |]; [| discriminate].
    destruct portmap as [pm |]; [| discriminate].
    injection Ha as <-. simpl in H |- *.
    apply (sourcing_source _ _ _ _ _ _ H Hl).
Qed.

Lemma cell_step_sourcing portmaps b kv b' ss :
  cell_step portmaps b kv = Ok b' -> sourcing (b_nets b) ss ->
  b_n b' = S (b_n b)
  /\ sourcing (b_nets b') (ss ++ cell_sources portmaps (b_n b) [kv]).
Proof.
  destruct kv as [cname c]. unfold cell_step. simpl.
  intros H Hl. apply bind_ok in H. destruct H as (u & _ & H).
  apply bind_ok in H. destruct H as (t & Ht & H). injection H as <-. simpl.
  split; [reflexivity |]. rewrite app_nil_r.
  set (pm := obj_get portmaps (cell_type c)) in *.
  set (dname := gen_name (b_n b)) in *.
  rewrite <- (app_nil_l (port_directions c)).
  refine (foldM_invariant _
            (fun done t => sourcing t (ss ++ connection_sources pm c dname done))
            _ _ [] _ _ _ Ht).
  - intros done a s s' HI Hs. unfold connection_sources.
    rewrite flat_map_app, app_assoc.
    apply (connection_step_sourcing _ _ _ _ _ _ _ Hs HI).
  - simpl. rewrite app_nil_r. exact Hl.
Qed.

Lemma register_devices_sourcing portmaps mdl b :
  register_devices portmaps mdl = Ok b ->
  sourcing (b_nets b) (module_sources portmaps mdl).
Proof.
  unfold register_devices, module_sources. intros H.
  apply bind_ok in H. destruct H as (b1 & H1 & H2).
  assert (P1 : b_n b1 = List.length ([] ++ ports mdl)
               /\ sourcing (b_nets b1) (port_sources 0 ([] ++ ports mdl))).
  { refine (foldM_invariant _
              (fun done b => b_n b = List.length done
                             /\ sourcing (b_nets b) (port_sources 0 done))
              _ _ [] _ _ _ H1).
    - intros done a s s' [Hn HI] Hs.
      destruct (port_step_sourcing _ _ _ _ Hs HI) as [Hn' HI'].
      split.
      + rewrite Hn', Hn, length_app. simpl. lia.
      + rewrite port_sources_app. simpl (0 + _). rewrite <- Hn. exact HI'.
    - split; [reflexivity |]. split; [constructor | intros k; reflexivity]. }
  simpl in P1. destruct P1 as [Hn1 Hl1].
  set (np := List.length (ports mdl)) in *.
  assert (P2 : b_n b = np + List.length ([] ++ cells mdl)
               /\ sourcing (b_nets b)
                    (port_sources 0 (ports mdl)
                     ++ cell_sources portmaps np ([] ++ cells mdl))).
  { refine (foldM_invariant _
              (fun done b => b_n b = np + List.length done
                             /\ sourcing (b_nets b)
                                  (port_sources 0 (ports mdl)
                                   ++ cell_sources portmaps np done))
              _ _ [] _ _ _ H2).
    - intros done a s s' [Hn HI] Hs.
      destruct (cell_step_sourcing _ _ _ _ _ Hs HI) as [Hn' HI'].
      split.
      + rewrite Hn', Hn, length_app. simpl. lia.
      + rewrite cell_sources_app, app_assoc, <- Hn. exact HI'.
    - simpl. rewrite Nat.add_0_r, app_nil_r. split; assumption. }
  apply P2.
Qed.

(** The connectors of a converted module, from the module alone. *)
Lemma convert_module_connectors portmaps mdl mout c :
  convert_module portmaps mdl = Ok mout ->
  In c (connectors mout)
  <-> exists k, In (k, conn_from c) (module_listeners portmaps mdl)
                /\ conn_to c = source_on (module_sources portmaps mdl) k.
Proof.
  unfold convert_module. intros H. apply bind_ok in H.
  destruct H as (b & Hb & H). injection H as <-. simpl.
  rewrite push_connectors_flat_map. simpl.
  destruct (register_devices_sourcing _ _ _ Hb) as [_ Hs].
  split.
  - intros Hc. apply in_flat_map in Hc. destruct Hc as (kn & Hin & Hc).
    unfold net_connectors in Hc. apply in_map_iff in Hc.
    destruct Hc as (tg & <- & Htg). simpl.
    destruct (net_table_entry _ _ _ _ Hb Hin) as [Ht Hsrc].
    exists (fst kn). split; [| rewrite Hsrc; apply Hs].
    rewrite Ht in Htg. unfold listeners_on in Htg. apply in_map_iff in Htg.
    destruct Htg as ([k' tg'] & <- & Hf). apply filter_In in Hf.
    destruct Hf as [Hin' Heq]. simpl in *. apply netkey_eqb_eq in Heq.
    subst k'. exact Hin'.
  - intros (k & Hin & Hto).
    pose proof (listener_connector _ _ _ _ _ Hb Hin) as Hc.
    rewrite Hs, <- Hto in Hc. destruct c. exact Hc.
Qed.

(** X7: in a converted module a connector is exactly a listener
    registration paired with the driver of its net: [from] is the endpoint
    of the listener, [to] the endpoint ["devN.slot"] of the one driver the
    module registers on that net, or undefined when it registers none.  No
    net has two driver registrations. *)
Theorem connectors_to_drivers portmaps mdl mout :
  convert_module portmaps mdl = Ok mout ->
  NoDup (map fst (module_sources portmaps mdl))
  /\ (forall c, In c (connectors mout)
                <-> exists k, In (k, conn_from c) (module_listeners portmaps mdl)
                              /\ conn_to c
                                 = source_on (module_sources portmaps mdl) k)
  /\ (forall c to, In c (connectors mout) -> conn_to c = Some to ->
                   exists k, In (k, conn_from c) (module_listeners portmaps mdl)
                             /\ In (k, to) (module_sources portmaps mdl)).
Proof.
  intros H.
  assert (Hnd : NoDup (map fst (module_sources portmaps mdl))).
  { unfold convert_module in H. apply bind_ok in H.
    destruct H as (b & Hb & _).
    apply (proj1 (register_devices_sourcing _ _ _ Hb)). }
  split; [exact Hnd |]. split.
  - intros c. apply (convert_module_connectors _ _ _ _ H).
  - intros c to Hc Hto.
    apply (convert_module_connectors _ _ _ _ H) in Hc.
    destruct Hc as (k & Hin & Hs). exists k. split; [exact Hin |].
    apply (source_on_in _ _ _ Hnd). rewrite <- Hs. exact Hto.
Qed.

Lemma connectors_to_drivers_witness :
  exists mout,
    convert_module and_portmaps and_module = Ok mout
    /\ NoDup (map fst (module_sources and_portmaps and_module))
    /\ source_on (module_sources and_portmaps and_module) (Some 4%N)
       = Some "dev3.out0".
Proof.
  destruct (convert_module and_portmaps and_module) as [mout | e] eqn:E;
    [| vm_compute in E; discriminate E].
  exists mout. split; [reflexivity |].
  destruct (connectors_to_drivers and_portmaps and_module mout E) as (Hnd & _).
  split; [exact Hnd | vm_compute; reflexivity].
Defined.

(** ** The layout of a converted module *)

Lemma before_dot_digits (d : Decimal.uint) (s : string) :
  before_dot (NilEmpty.string_of_uint d ++ String "." s)
  = NilEmpty.string_of_uint d.
Proof.
  induction d; cbn [NilEmpty.string_of_uint String.append before_dot];
    [reflexivity | rewrite IHd; reflexivity ..].
Qed.

Lemma before_dot_uint (d : Decimal.uint) (s : string) :
  before_dot (NilZero.string_of_uint d ++ String "." s)
  = NilZero.string_of_uint d.
Proof.
  destruct d; [reflexivity | apply before_dot_digits ..].
Qed.

(** [(devN + '.' + p).split('.')[0]] is [devN]. *)
Lemma before_dot_endpoint (n : nat) (p : option string) :
  before_dot (endpoint (gen_name n) p) = gen_name n.
Proof.
  unfold endpoint, gen_name, dec. simpl. rewrite before_dot_uint. reflexivity.
Qed.

Lemma device_endpoint_mono n m s : n <= m -> device_endpoint n s -> device_endpoint m s.
Proof. intros Hle (i & p & Hi & Hs). exists i, p. split; [lia | exact Hs]. Qed.

Lemma port_listeners_endpoints n ps e :
  In e (port_listeners n ps) -> device_endpoint (n + List.length ps) (snd e).
Proof.
  revert n. induction ps as [| [pname p] ps IH]; intros n; simpl; [tauto |].
  intros H. apply in_app_or in H. destruct H as [H | H].
  - destruct (String.eqb (direction p) "output"); [| contradiction].
    destruct H as [<- | []]. exists n, (Some "in0"). split; [lia | reflexivity].
  - rewrite Nat.add_succ_r. apply (IH (S n)). exact H.
Qed.

Lemma port_sources_endpoints n ps e :
  In e (port_sources n ps) -> device_endpoint (n + List.length ps) (snd e).
Proof.
  revert n. induction ps as [| [pname p] ps IH]; intros n; simpl; [tauto |].
  intros H. apply in_app_or in H. destruct H as [H | H].
  - destruct (String.eqb (direction p) "input"); [| contradiction].
    destruct H as [<- | []]. exists n, (Some "out0"). split; [lia | reflexivity].
  - rewrite Nat.add_succ_r. apply (IH (S n)). exact H.
Qed.

Lemma cell_listeners_endpoints portmaps n cs e :
  In e (cell_listeners portmaps n cs) ->
  device_endpoint (n + List.length cs) (snd e).
Proof.
  revert n. induction cs as [| [cname c] cs IH]; intros n; simpl; [tauto |].
  intros H. apply in_app_or in H. destruct H as [H | H].
  - unfold connection_listeners in H. apply in_flat_map in H.
    destruct H as ([pname pdir] & _ & H). simpl in H.
    destruct (String.eqb pdir "input"); [| contradiction].
    destruct (obj_get (connections c) pname); [| contradiction].
    destruct (obj_get portmaps (cell_type c)) as [pm |]; [| contradiction].
    destruct H as [<- | []]. exists n, (obj_get pm pname).
    split; [lia | reflexivity].
  - rewrite Nat.add_succ_r. apply (IH (S n)). exact H.
Qed.

Lemma cell_sources_endpoints portmaps n cs e :
  In e (cell_sources portmaps n cs) ->
  device_endpoint (n + List.length cs) (snd e).
Proof.
  revert n. induction cs as [| [cname c] cs IH]; intros n; simpl; [tauto |].
  intros H. apply in_app_or in H. destruct H as [H | H].
  - unfold connection_sources in H. apply in_flat_map in H.
    destruct H as ([pname pdir] & _ & H). simpl in H.
    destruct (String.eqb pdir "output"); [| contradiction].
    destruct (obj_get (connections c) pname); [| contradiction].
    destruct (obj_get portmaps (cell_type c)) as [pm |]; [| contradiction].
    destruct H as [<- | []]. exists n, (obj_get pm pname).
    split; [lia | reflexivity].
  - rewrite Nat.add_succ_r. apply (IH (S n)). exact H.
Qed.

Lemma module_listeners_endpoints portmaps mdl e :
  In e (module_listeners portmaps mdl) ->
  device_endpoint (List.length (ports mdl) + List.length (cells mdl)) (snd e).
Proof.
  unfold module_listeners. intros H. apply in_app_or in H. destruct H as [H | H].
  - apply port_listeners_endpoints in H.
    apply (device_endpoint_mono _ _ _ (Nat.le_add_r _ _) H).
  - apply cell_listeners_endpoints in H. exact H.
Qed.

Lemma module_sources_endpoints portmaps mdl e :
  In e (module_sources portmaps mdl) ->
  device_endpoint (List.length (ports mdl) + List.length (cells mdl)) (snd e).
Proof.
  unfold module_sources. intros H. apply in_app_or in H. destruct H as [H | H].
  - apply port_sources_endpoints in H.
    apply (device_endpoint_mono _ _ _ (Nat.le_add_r _ _) H).
  - apply cell_sources_endpoints in H. exact H.
Qed.

Lemma module_devices_ids mdl :
  map dev_id (module_devices mdl)
  = map gen_name (seq 0 (List.length (ports mdl) + List.length (cells mdl))).
Proof.
  unfold module_devices. rewrite map_app, !map_from_ids by reflexivity.
  rewrite seq_app, map_app. reflexivity.
Qed.

(** The device an endpoint names is one of the first [n] devices. *)
Lemma device_endpoint_id n s :
  device_endpoint n s -> In (before_dot s) (map gen_name (seq 0 n)).
Proof.
  intros (i & p & Hi & ->). rewrite before_dot_endpoint.
  apply in_map. apply in_seq. lia.
Qed.

Lemma setEdge_known g v w :
  In v (keys (g_nodes g)) -> In w (keys (g_nodes g)) ->
  g_nodes (setEdge g v w) = g_nodes g.
Proof.
  intros Hv Hw. unfold setEdge. destruct (has_edge g v w); [reflexivity |].
  simpl. unfold ensure_node.
  apply obj_in_keys in Hv. rewrite Hv.
  apply obj_in_keys in Hw. rewrite Hw. reflexivity.
Qed.

(** Connectors between nodes of the graph add edges and no node. *)
Lemma edge_loop_known conns g :
  (forall c, In c conns ->
             In (before_dot (conn_from c)) (keys (g_nodes g))
             /\ exists to, conn_to c = Some to
                           /\ In (before_dot to) (keys (g_nodes g))) ->
  exists g', foldM edge_step conns g = Ok g' /\ g_nodes g' = g_nodes g.
Proof.
  revert g. induction conns as [| c conns IH]; intros g H; simpl.
  - exists g. split; reflexivity.
  - destruct (H c (or_introl eq_refl)) as (Hfrom & to & Hto & Hin).
    unfold edge_step at 1. rewrite Hto. simpl.
    pose proof (setEdge_known g _ _ Hfrom Hin) as Hg.
    destruct (IH (setEdge g (before_dot (conn_from c)) (before_dot to)))
      as (g' & Hg' & Hn).
    + intros c' Hc'. rewrite Hg. apply H. right. exact Hc'.
    + exists g'. split; [exact Hg' | rewrite Hn; exact Hg].
Qed.

Lemma node_loop_total dagre_layout g devs s :
  exists s', foldM (node_step dagre_layout g) (map device_node devs) s = Ok s'.
Proof.
  apply foldM_total. intros [nname node] s0 Hin. apply in_map_iff in Hin.
  destruct Hin as (d & Hd & _). injection Hd as <- <-. simpl.
  eexists. reflexivity.
Qed.

(** With every listened net driven, each connector of a converted module
    joins two devices of the module. *)
Lemma converted_connectors_joined portmaps mdl circ :
  convert_module portmaps mdl = Ok circ ->
  (forall e, In e (module_listeners portmaps mdl) ->
             In (fst e) (map fst (module_sources portmaps mdl))) ->
  forall c, In c (connectors circ) ->
            In (before_dot (conn_from c)) (map dev_id (devices circ))
            /\ exists to, conn_to c = Some to
                          /\ In (before_dot to) (map dev_id (devices circ)).
Proof.
  intros H Hdriven.
  assert (Hids : map dev_id (devices circ)
                 = map gen_name
                     (seq 0 (List.length (ports mdl) + List.length (cells mdl)))).
  { unfold convert_module in H. apply bind_ok in H.
    destruct H as (b & Hb & H). injection H as <-. simpl.
    rewrite (proj2 (register_devices_devices _ _ _ Hb)).
    apply module_devices_ids. }
  assert (Hnd : NoDup (map fst (module_sources portmaps mdl))).
  { unfold convert_module in H. apply bind_ok in H.
    destruct H as (b & Hb & _).
    apply (proj1 (register_devices_sourcing _ _ _ Hb)). }
  intros c Hc. apply (convert_module_connectors _ _ _ _ H) in Hc.
  destruct Hc as (k & Hin & Hto). rewrite Hids. split.
  - apply device_endpoint_id.
    apply (module_listeners_endpoints _ _ _ Hin).
  - destruct (source_on (module_sources portmaps mdl) k) as [to |] eqn:E.
    + exists to. split; [exact Hto |]. apply device_endpoint_id.
      apply (source_on_in _ _ _ Hnd) in E.
      apply (module_sources_endpoints _ _ _ E).
    + exfalso. apply source_on_none in E. apply E.
      apply (Hdriven _ Hin).
Qed.

(** A diagram whose connectors join its devices has a layout. *)
Lemma joined_layout_returns dagre_layout circ :
  NoDup (map dev_id (devices circ)) ->
  (forall c, In c (connectors circ) ->
             In (before_dot (conn_from c)) (map dev_id (devices circ))
             /\ exists to, conn_to c = Some to
                           /\ In (before_dot to) (map dev_id (devices circ))) ->
  exists circ', layout_circuit dagre_layout circ = Ok circ'.
Proof.
  intros Hnodup Hconn. unfold layout_circuit.
  set (g0 := fold_left (fun g dev => setNode g (dev_id dev)) (devices circ)
               graph0).
  assert (Hg0 : g_nodes g0 = map device_node (devices circ)).
  { unfold g0. rewrite device_graph_nodes by exact Hnodup. reflexivity. }
  assert (Hk0 : keys (g_nodes g0) = map dev_id (devices circ)).
  { rewrite Hg0. unfold keys. rewrite map_map. reflexivity. }
  destruct (edge_loop_known (connectors circ) g0) as (g & Hg & Hn).
  { rewrite Hk0. exact Hconn. }
  rewrite Hg. simpl. rewrite Hn, Hg0.
  destruct (node_loop_total dagre_layout g (devices circ)
              {| pl_devices := devices circ; maxx := 0; maxy := 0 |})
    as (s & Hs).
  rewrite Hs. simpl. eexists. reflexivity.
Qed.

(** A listener on a net without driver stops the layout. *)
Lemma undriven_layout_throws dagre_layout portmaps mdl circ e :
  convert_module portmaps mdl = Ok circ ->
  In e (module_listeners portmaps mdl) ->
  ~ In (fst e) (map fst (module_sources portmaps mdl)) ->
  layout_circuit dagre_layout circ = Err TypeError.
Proof.
  intros H Hin Hnone. destruct e as [k tg]. simpl in Hnone.
  apply source_on_none in Hnone.
  assert (Hc : In {| conn_from := tg; conn_to := None |} (connectors circ)).
  { apply (convert_module_connectors _ _ _ _ H). exists k. simpl.
    split; [exact Hin | symmetry; exact Hnone]. }
  unfold layout_circuit.
  rewrite (edge_loop_undefined _ _ _ Hc eq_refl). reflexivity.
Qed.

(** X8: the layout of a converted module returns exactly when every net
    that a port or a cell of the module listens on has a driver in the
    module.  Every connector then joins two devices of the module, so the
    graph gets no node besides the devices; a listener on a net without
    driver makes [layout_circuit] throw a TypeError. *)
Theorem converted_layout dagre_layout portmaps mdl circ :
  convert_module portmaps mdl = Ok circ ->
  ((forall e, In e (module_listeners portmaps mdl) ->
              In (fst e) (map fst (module_sources portmaps mdl))) ->
   (forall c, In c (connectors circ) ->
              In (before_dot (conn_from c)) (map dev_id (devices circ))
              /\ exists to, conn_to c = Some to
                            /\ In (before_dot to) (map dev_id (devices circ)))
   /\ exists circ', layout_circuit dagre_layout circ = Ok circ')
  /\ (forall e, In e (module_listeners portmaps mdl) ->
                ~ In (fst e) (map fst (module_sources portmaps mdl)) ->
                layout_circuit dagre_layout circ = Err TypeError).
Proof.
  intros H. split.
  - intros Hdriven.
    pose proof (converted_connectors_joined _ _ _ H Hdriven) as Hconn.
    split; [exact Hconn |].
    apply joined_layout_returns; [| exact Hconn].
    apply (convert_module_ids _ _ _ H).
  - intros e Hin Hnone.
    apply (undriven_layout_throws _ _ _ _ _ H Hin Hnone).
Qed.

Lemma converted_layout_witness :
  exists circ circ',
    convert_module and_portmaps and_module = Ok circ
    /\ layout_circuit row_layout circ = Ok circ'.
Proof.
  destruct (convert_module and_portmaps and_module) as [circ | e] eqn:E;
    [| vm_compute in E; discriminate E].
  destruct (converted_layout row_layout and_portmaps and_module circ E)
    as [Hok _].
  destruct Hok as (_ & circ' & Hl).
  - intros e He. vm_compute in He.
    repeat (destruct He as [<- | He]; [vm_compute; tauto |]). contradiction.
  - exists circ, circ'. split; [reflexivity | exact Hl].
Defined.

(** ** The stages, module by module *)

(** A loop that throws has a first turn that throws. *)
Lemma foldM_first_error {A S : Type} (step : S -> A -> result S) (l : list A)
  (s : S) (e : exn) :
  foldM step l s = Err e ->
  exists done a rest s1,
    l = done ++ a :: rest /\ foldM step done s = Ok s1 /\ step s1 a = Err e.
Proof.
  revert s. induction l as [| a l IH]; intros s H; simpl in H; [discriminate |].
  destruct (step s a) as [s1 | e1] eqn:E; simpl in H.
  - destruct (IH _ H) as (done & a' & rest & s2 & -> & Hd & Ha).
    exists (a :: done), a', rest, s2. split; [reflexivity |].
    split; [simpl; rewrite E; exact Hd | exact Ha].
  - injection H as <-. exists [], a, l, s. auto.
Qed.

Lemma Forall2_in_left {A B : Type} (R : A -> B -> Prop) l l' a :
  Forall2 R l l' -> In a l -> exists b, In b l' /\ R a b.
Proof.
  induction 1 as [| x y l l' Hxy _ IH]; intros Hin; [contradiction |].
  destruct Hin as [<- | Hin].
  - exists y. split; [left; reflexivity | exact Hxy].
  - destruct (IH Hin) as (b & Hb & Hr). exists b. split; [right |]; assumption.
Qed.


Lemma yosys_loop_ok portmaps l out0 out :
  NoDup (keys out0 ++ keys l) ->
  foldM (fun (out : obj diagram) '(name, mdl) =>
           mout <- convert_module portmaps mdl ;;
           Ok (obj_set out name mout)) l out0 = Ok out ->
  exists outs, out = out0 ++ outs /\ Forall2 (converts_to portmaps) l outs.
Proof.
  revert out0. induction l as [| [name mdl] l IH]; intros out0 Hnd H; simpl in H.
  - injection H as <-. exists []. rewrite app_nil_r. split; constructor.
  - apply bind_ok in H. destruct H as (out1 & H1 & H).
    apply bind_ok in H1. destruct H1 as (mout & Hm & H1). injection H1 as <-.
    simpl in Hnd. pose proof (NoDup_remove_2 _ _ _ Hnd) as Hnotin.
    rewrite obj_set_absent in H
      by (intros Hin; apply Hnotin; apply in_or_app; left; exact Hin).
    assert (Hnd1 : NoDup (keys (out0 ++ [(name, mout)]) ++ keys l)).
    { unfold keys. rewrite map_app, <- app_assoc. exact Hnd. }
    destruct (IH _ Hnd1 H) as (outs & -> & HF).
    exists ((name, mout) :: outs). rewrite <- app_assoc. split; [reflexivity |].
    constructor; [split; [reflexivity | exact Hm] | exact HF].
Qed.

Lemma layout_loop_ok dagre_layout l out0 out :
  foldM (fun (out : obj diagram) '(name, circ) =>
           circ' <- layout_circuit dagre_layout circ ;;
           Ok (out ++ [(name, circ')])) l out0 = Ok out ->
  exists outs, out = out0 ++ outs /\ Forall2 (laid_out dagre_layout) l outs.
Proof.
  revert out0. induction l as [| [name circ] l IH]; intros out0 H; simpl in H.
  - injection H as <-. exists []. rewrite app_nil_r. split; constructor.
  - apply bind_ok in H. destruct H as (out1 & H1 & H).
    apply bind_ok in H1. destruct H1 as (circ' & Hm & H1). injection H1 as <-.
    destruct (IH _ H) as (outs & -> & HF).
    exists ((name, circ') :: outs). rewrite <- app_assoc. split; [reflexivity |].
    constructor; [split; [reflexivity | exact Hm] | exact HF].
Qed.

Lemma yosys_to_simcir_ok data portmaps out :
  NoDup (keys (modules data)) ->
  yosys_to_simcir data portmaps = Ok out ->
  Forall2 (converts_to portmaps) (modules data) out.
Proof.
  intros Hnd H. destruct (yosys_loop_ok portmaps (modules data) [] out Hnd H)
    as (outs & -> & HF). exact HF.
Qed.

Lemma layout_circuits_ok dagre_layout circs out :
  layout_circuits dagre_layout circs = Ok out ->
  Forall2 (laid_out dagre_layout) circs out.
Proof.
  intros H. destruct (layout_loop_ok dagre_layout circs [] out H)
    as (outs & -> & HF). exact HF.
Qed.



(** X10: [layout_circuits] keeps the names and the order of the diagrams
    and lays each one out on its own; when it throws, it throws what the
    layout of the first diagram that fails throws. *)
Theorem layout_circuits_entrywise dagre_layout circs :
  match layout_circuits dagre_layout circs with
  | Ok out => Forall2 (laid_out dagre_layout) circs out
  | Err e =>
      exists done name circ rest,
        circs = done ++ (name, circ) :: rest
        /\ (forall c, In c done ->
                      exists c', layout_circuit dagre_layout (snd c) = Ok c')
        /\ layout_circuit dagre_layout circ = Err e
  end.
Proof.
  destruct (layout_circuits dagre_layout circs) as [out | e] eqn:H.
  - apply (layout_circuits_ok _ _ _ H).
  - unfold layout_circuits in H. apply foldM_first_error in H.
    destruct H as (done & [name circ] & rest & s1 & Hl & Hd & Ha).
    exists done, name, circ, rest. split; [exact Hl |]. split.
    + intros c Hc.
      destruct (layout_loop_ok _ _ _ _ Hd) as (outs & _ & HF).
      destruct (Forall2_in_left _ _ _ _ HF Hc) as (o & _ & _ & Ho).
      exists (snd o). exact Ho.
    + destruct (layout_circuit dagre_layout circ) as [c' | e'];
        [discriminate Ha |].
      simpl in Ha. injection Ha as ->. reflexivity.
Qed.

(** ** The diagrams of the document *)


Lemma position_split (v : string) (l1 r : list string) :
  ~ In v l1 -> position v (l1 ++ v :: r) = Some (List.length l1).
Proof.
  induction l1 as [| x l1 IH]; simpl; intros Hn.
  - rewrite String.eqb_refl. reflexivity.
  - destruct (String.eqb x v) eqn:E.
    + apply String.eqb_eq in E. exfalso. apply Hn. left. exact E.
    + rewrite IH by (intros H; apply Hn; right; exact H). reflexivity.
Qed.

(** In a list without repetitions, [before] compares positions. *)
Lemma before_positions (v w : string) (l : list string) :
  NoDup l -> before v w l ->
  exists i j, position v l = Some i /\ position w l = Some j /\ i < j.
Proof.
  intros Hnd (l1 & l2 & l3 & ->).
  exists (List.length l1), (List.length (l1 ++ v :: l2)). split; [| split].
  - apply position_split. apply NoDup_remove_2 in Hnd.
    intros H. apply Hnd. apply in_or_app. left. exact H.
  - replace (l1 ++ v :: l2 ++ w :: l3) with ((l1 ++ v :: l2) ++ w :: l3) in *
      by (rewrite <- app_assoc; reflexivity).
    apply position_split. apply NoDup_remove_2 in Hnd.
    intros H. apply Hnd. apply in_or_app. left. exact H.
  - rewrite length_app. simpl. lia.
Qed.


Section Emission.
Variable dagre_layout : graph -> string -> Q * Q.
Variable topsort : list (string * string) -> option (list string).

(** A result of [topsort] is a topological order of the edges it got. *)
Hypothesis topsort_sorted :
  forall edges order, topsort edges = Some order -> topological edges order.

(** The values of the stages in a run that returns. *)
Lemma process_stages data doc :
  process dagre_layout topsort data = Ok doc ->
  exists portmaps out out' order,
    order_ports data = Ok portmaps
    /\ yosys_to_simcir data portmaps = Ok out
    /\ layout_circuits dagre_layout out = Ok out'
    /\ topsort (module_deps data) = Some order
    /\ registered doc = map (fun x => (x, obj_get out' x)) (fst (pop order))
    /\ toplevel doc = snd (pop order)
    /\ toplevel_diagram doc = obj_get out' (js_str (snd (pop order))).
Proof.
  unfold process. intros H.
  apply bind_ok in H. destruct H as (portmaps & Hp & H).
  apply bind_ok in H. destruct H as (out & Hy & H).
  apply bind_ok in H. destruct H as (out' & Hl & H).
  apply bind_ok in H. destruct H as (order & Ho & H).
  destruct (topsort (module_deps data)) as [order' |]; [| discriminate].
  injection Ho as ->. exists portmaps, out, out', order.
  destruct (pop order) as [init top]. injection H as <-. simpl.
  repeat split; assumption || reflexivity.
Qed.


(** X12: a netlist in which a module instantiates itself, directly or
    through other modules, gives no document: the script throws. *)
Theorem cyclic_netlist_throws data a :
  depends_on data a a -> exists e, process dagre_layout topsort data = Err e.
Proof.
  intros Hcycle.
  destruct (process dagre_layout topsort data) as [doc | e] eqn:H;
    [exfalso | exists e; reflexivity].
  destruct (process_stages data doc H)
    as (_ & _ & _ & order & _ & _ & _ & Ht & _).
  pose proof (topsort_sorted _ _ Ht) as [Hnd _ Hbefore].
  assert (Hpos : forall user used,
             depends_on data user used ->
             exists i j, position used order = Some i
                         /\ position user order = Some j /\ i < j).
  { intros user used Hd. induction Hd as [user used Hi | user via used _ IH1 _ IH2].
    - apply (before_positions _ _ _ Hnd). apply Hbefore.
      apply module_deps_spec. exact Hi.
    - destruct IH1 as (i1 & j1 & Hv & Hu & Hlt1).
      destruct IH2 as (i2 & j2 & Hused & Hv' & Hlt2).
      rewrite Hv in Hv'. injection Hv' as <-.
      exists i2, j1. split; [exact Hused |]. split; [exact Hu | lia]. }
  destruct (Hpos a a Hcycle) as (i & j & Hi & Hj & Hlt).
  rewrite Hi in Hj. injection Hj as <-. lia.
Qed.
End Emission.


Lemma cyclic_netlist_throws_witness :
  exists e, process row_layout topsort_ref mutual_netlist = Err e.
Proof.
  apply (cyclic_netlist_throws row_layout topsort_ref topsort_ref_sorted
           mutual_netlist "a").
  apply (depends_trans _ "a" "b" "a"); apply depends_step.
  - exists {| ports := [];
              cells := [("u", {| cell_type := "b"; port_directions := [];
                                 connections := [] |})] |},
      "u", {| cell_type := "b"; port_directions := []; connections := [] |}.
    repeat split; simpl; auto.
  - exists {| ports := [];
              cells := [("v", {| cell_type := "a"; port_directions := [];
                                 connections := [] |})] |},
      "v", {| cell_type := "a"; port_directions := []; connections := [] |}.
    repeat split; simpl; auto.
Defined.

(** ** The modules that convert *)

(** A loop returns when each turn does, given what the turns before it
    established. *)
Lemma foldM_progress {A S : Type} (step : S -> A -> result S)
  (I : list A -> S -> Prop) (P : list A -> A -> Prop) :
  (forall done a s, I done s -> P done a ->
                    exists s', step s a = Ok s' /\ I (done ++ [a]) s') ->
  forall l done s,
    I done s ->
    (forall l1 a l2, l = l1 ++ a :: l2 -> P (done ++ l1) a) ->
    exists s', foldM step l s = Ok s' /\ I (done ++ l) s'.
Proof.
  intros Hstep. induction l as [| a l IH]; intros done s HI HP; simpl.
  - exists s. rewrite app_nil_r. auto.
  - pose proof (HP [] a l eq_refl) as Pa. rewrite app_nil_r in Pa.
    destruct (Hstep done a s HI Pa) as (s1 & H1 & I1). rewrite H1. simpl.
    destruct (IH (done ++ [a]) s1 I1) as (s' & Hs' & I').
    + intros l1 a' l2 ->. rewrite <- app_assoc. apply (HP (a :: l1) a' l2).
      reflexivity.
    + exists s'. split; [exact Hs' |]. rewrite <- app_assoc in I'. exact I'.
Qed.

Lemma NoDup_app_disjoint {A : Type} (l1 l2 : list A) (x : A) :
  NoDup (l1 ++ l2) -> In x l2 -> ~ In x l1.
Proof.
  induction l1 as [| y l1 IH]; simpl; intros Hnd H2 H1; [contradiction |].
  inversion Hnd as [| ? ? Hnotin Hnd']; subst.
  destruct H1 as [-> | H1].
  - apply Hnotin. apply in_or_app. right. exact H2.
  - apply (IH Hnd' H2 H1).
Qed.

Lemma add_net_source_free t k d p :
  net_driver t k = None -> exists t', add_net_source t k d p = Ok t'.
Proof.
  intros Hnone. destruct (add_net_source t k d p) as [t' | e] eqn:E.
  - exists t'. reflexivity.
  - apply add_net_source_err in E. destruct E as (_ & s & Hs). congruence.
Qed.

Lemma driven_free t ds k : driven t ds -> ~ In k ds -> net_driver t k = None.
Proof.
  intros [_ Hd] Hn. destruct (net_driver t k) eqn:E; [| reflexivity].
  exfalso. apply Hn. apply Hd. rewrite E. discriminate.
Qed.

Lemma gate_asserts_ok c :
  (exists u, gate_asserts c = Ok u)
  <-> (is_gate (cell_type c) = true -> gate_shaped c).
Proof.
  unfold gate_asserts. destruct (is_gate (cell_type c)).
  - assert (Hu : forall r : result unit, (exists u, r = Ok u) <-> r = Ok tt).
    { intros r. split; [intros ([] & ->); reflexivity | intros ->; eauto]. }
    rewrite Hu, !bind_unit_ok, !assert_connection_length_ok,
      !assert_gate_direction_ok. unfold gate_shaped. split.
    + intros ((a & Ha) & (b & Hb) & (y & Hy) & Da & Db & Dy) _.
      split; [exists a, b, y |]; auto.
    + intros H. destruct (H eq_refl) as ((a & b & y & Ha & Hb & Hy) & Da & Db & Dy).
      repeat split; eauto.
  - split; [intros _ H; discriminate H | intros _; exists tt; reflexivity].
Qed.

Lemma port_step_port_ok b kv b' : port_step b kv = Ok b' -> port_ok (snd kv).
Proof.
  intros H. pose proof (port_step_outcome b kv) as Ho. rewrite H in Ho.
  split; [| exact Ho]. destruct kv as [pname p]. unfold port_step in H. simpl.
  destruct (Nat.eqb (List.length (bits p)) 1) eqn:E; [| discriminate H].
  apply Nat.eqb_eq. exact E.
Qed.

Lemma connection_step_args portmap c dname t kv t' :
  connection_step portmap c dname t kv = Ok t' ->
  valid_direction (snd kv)
  /\ obj_get (connections c) (fst kv) <> None /\ portmap <> None.
Proof.
  intros H. pose proof (connection_step_outcome portmap c dname t kv) as Ho.
  rewrite H in Ho. split; [exact Ho |].
  destruct kv as [pname pdir]. unfold connection_step in H. simpl.
  assert (Ha : exists a, connection_args portmap c pname = Ok a).
  { destruct (String.eqb pdir "input").
    - apply bind_ok in H. destruct H as (a & Ha & _). eauto.
    - destruct (String.eqb pdir "output"); [| discriminate H].
      apply bind_ok in H. destruct H as (a & Ha & _). eauto. }
  destruct Ha as (a & Ha). unfold connection_args in Ha.
  destruct (obj_get (connections c) pname); [| discriminate Ha].
  destruct portmap; [| discriminate Ha]. split; discriminate.
Qed.

Lemma cell_step_cell_ok portmaps b kv b' :
  cell_step portmaps b kv = Ok b' -> cell_ok portmaps (snd kv).
Proof.
  destruct kv as [cname c]. unfold cell_step. simpl. intros H.
  apply bind_ok in H. destruct H as (u & Hg & H).
  apply bind_ok in H. destruct H as (t & Ht & _). split.
  - apply gate_asserts_ok. exists u. exact Hg.
  - intros pname pdir Hin.
    set (pm := obj_get portmaps (cell_type c)) in *.
    pose proof (foldM_outcome (connection_step pm c (gen_name (b_n b)))
                  (fun kv => valid_direction (snd kv)
                             /\ obj_get (connections c) (fst kv) <> None
                             /\ pm <> None)
                  (fun _ _ => True)) as Hl.
    specialize (Hl (fun s a => ltac:(
      destruct (connection_step pm c (gen_name (b_n b)) s a) eqn:E;
      [apply (connection_step_args _ _ _ _ _ _ E) | exact I]))
      (port_directions c) (b_nets b)).
    rewrite Ht in Hl. apply (Hl (pname, pdir) Hin).
Qed.

Lemma port_step_progress b kv ds :
  driven (b_nets b) ds -> port_ok (snd kv) ->
  (direction (snd kv) = "input" -> ~ In (nth_error (bits (snd kv)) 0) ds) ->
  exists b', port_step b kv = Ok b'.
Proof.
  destruct kv as [pname p]. cbn [fst snd]. intros Hd [Hlen Hdir] Hfree.
  unfold port_step. cbv zeta. rewrite Hlen.
  destruct Hdir as [E | E].
  - destruct (add_net_source_free (b_nets b) (nth_error (bits p) 0)
                (gen_name (b_n b)) (Some "out0")) as (t & Ht).
    + apply (driven_free _ _ _ Hd). apply Hfree. exact E.
    + rewrite E, Ht. eexists. reflexivity.
  - rewrite E. eexists. reflexivity.
Qed.

Lemma connection_step_progress portmap c dname t kv ds :
  driven t ds ->
  valid_direction (snd kv) ->
  obj_get (connections c) (fst kv) <> None -> portmap <> None ->
  (snd kv = "output" -> forall k, In k (connection_drivers c [kv]) -> ~ In k ds) ->
  exists t', connection_step portmap c dname t kv = Ok t'.
Proof.
  destruct kv as [pname pdir]. cbn [fst snd]. intros Hd Hdir Hconn Hpm Hfree.
  unfold connection_step, connection_args.
  destruct (obj_get (connections c) pname) as [pconn |] eqn:Ec; [| congruence].
  destruct portmap as [pm |]; [| congruence].
  destruct Hdir as [E | E]; rewrite E.
  - eexists. reflexivity.
  - change (String.eqb "output" "input") with false.
    change (String.eqb "output" "output") with true.
    cbn [bind fst snd].
    apply add_net_source_free. apply (driven_free _ _ _ Hd).
    apply (Hfree E). unfold connection_drivers. cbn [flat_map fst snd].
    rewrite E, Ec. left. reflexivity.
Qed.

Lemma cell_step_progress portmaps b kv ds :
  driven (b_nets b) ds -> cell_ok portmaps (snd kv) ->
  NoDup (ds ++ connection_drivers (snd kv) (port_directions (snd kv))) ->
  exists b', cell_step portmaps b kv = Ok b'.
Proof.
  destruct kv as [cname c]. cbn [fst snd]. intros Hd [Hgate Hconn] Hnd.
  unfold cell_step. apply gate_asserts_ok in Hgate. destruct Hgate as (u & ->).
  simpl.
  set (pm := obj_get portmaps (cell_type c)) in *.
  set (dname := gen_name (b_n b)).
  destruct (foldM_progress (connection_step pm c dname)
              (fun done t => driven t (ds ++ connection_drivers c done))
              (fun done kv =>
                 valid_direction (snd kv)
                 /\ obj_get (connections c) (fst kv) <> None /\ pm <> None
                 /\ (snd kv = "output" ->
                     forall k, In k (connection_drivers c [kv]) ->
                               ~ In k (ds ++ connection_drivers c done)))
              ltac:(
                intros done a s HI (Hv & Hc & Hp & Hf);
                destruct (connection_step_progress pm c dname s a _ HI Hv Hc Hp Hf)
                  as (s' & Hs');
                exists s'; split; [exact Hs' |];
                unfold connection_drivers; rewrite flat_map_app, app_assoc;
                apply (connection_step_driven _ _ _ _ _ _ _ Hs' HI))
              (port_directions c) [] (b_nets b)) as (t & Ht & _).
  - simpl. rewrite app_nil_r. exact Hd.
  - intros l1 [pname pdir] l2 Hl. simpl.
    destruct (Hconn pname pdir) as (Hv & Hc & Hp).
    { rewrite Hl. apply in_or_app. right. left. reflexivity. }
    repeat split; try assumption.
    intros _ k Hk. rewrite Hl in Hnd. unfold connection_drivers in Hnd.
    rewrite flat_map_app, app_assoc in Hnd.
    apply (NoDup_app_disjoint _ _ k Hnd).
    change (pname, pdir) with (fst (pname, pdir), snd (pname, pdir)) in Hk.
    simpl flat_map. apply in_or_app. left.
    unfold connection_drivers in Hk. simpl in Hk. rewrite app_nil_r in Hk.
    exact Hk.
  - rewrite Ht. simpl. eexists. reflexivity.
Qed.

(** The conversion of one module returns exactly when the module passes
    the checks of the two loops. *)
Lemma convert_module_domain portmaps mdl :
  (exists mout, convert_module portmaps mdl = Ok mout)
  <-> convertible portmaps mdl.
Proof.
  split.
  - intros (mout & H). unfold convert_module in H. apply bind_ok in H.
    destruct H as (b & Hb & _).
    pose proof (register_devices_driven _ _ _ Hb) as [Hnd _].
    unfold register_devices in Hb. apply bind_ok in Hb.
    destruct Hb as (b1 & H1 & H2). split; [| split; [| exact Hnd]].
    + intros pname p Hin.
      pose proof (foldM_outcome port_step (fun kv => port_ok (snd kv))
                    (fun _ _ => True)) as Hl.
      specialize (Hl (fun s a => ltac:(
        destruct (port_step s a) eqn:E;
        [apply (port_step_port_ok _ _ _ E) | exact I])) (ports mdl) builder0).
      rewrite H1 in Hl. apply (Hl (pname, p) Hin).
    + intros cname c Hin.
      pose proof (foldM_outcome (cell_step portmaps)
                    (fun kv => cell_ok portmaps (snd kv))
                    (fun _ _ => True)) as Hl.
      specialize (Hl (fun s a => ltac:(
        destruct (cell_step portmaps s a) eqn:E;
        [apply (cell_step_cell_ok _ _ _ _ E) | exact I])) (cells mdl) b1).
      rewrite H2 in Hl. apply (Hl (cname, c) Hin).
  - intros (Hports & Hcells & Hnd). unfold convert_module, register_devices.
    unfold module_drivers in Hnd.
    destruct (foldM_progress port_step
                (fun done b => driven (b_nets b) (port_drivers done))
                (fun done kv =>
                   port_ok (snd kv)
                   /\ (direction (snd kv) = "input" ->
                       ~ In (nth_error (bits (snd kv)) 0) (port_drivers done)))
                ltac:(
                  intros done a s HI [Hok Hfree];
                  destruct (port_step_progress s a _ HI Hok Hfree) as (s' & Hs');
                  exists s'; split; [exact Hs' |];
                  unfold port_drivers; rewrite flat_map_app;
                  apply (port_step_driven _ _ _ _ Hs' HI))
                (ports mdl) [] builder0) as (b1 & H1 & I1).
    + split; [constructor | intros k; simpl; tauto].
    + intros l1 [pname p] l2 Hl. simpl. split.
      * apply (Hports pname). rewrite Hl. apply in_or_app. right. left.
        reflexivity.
      * intros Edir. rewrite Hl in Hnd. unfold port_drivers in Hnd.
        rewrite flat_map_app, <- app_assoc in Hnd.
        apply (NoDup_app_disjoint _ _ _ Hnd). simpl. rewrite Edir. simpl.
        left. reflexivity.
    + simpl in I1. rewrite H1. simpl.
      destruct (foldM_progress (cell_step portmaps)
                  (fun done b =>
                     driven (b_nets b)
                       (port_drivers (ports mdl) ++ cell_drivers done))
                  (fun done kv =>
                     cell_ok portmaps (snd kv)
                     /\ NoDup ((port_drivers (ports mdl) ++ cell_drivers done)
                               ++ connection_drivers (snd kv)
                                    (port_directions (snd kv))))
                  ltac:(
                    intros done a s HI [Hok Hfree];
                    destruct (cell_step_progress portmaps s a _ HI Hok Hfree)
                      as (s' & Hs');
                    exists s'; split; [exact Hs' |];
                    unfold cell_drivers at 1; rewrite flat_map_app, app_assoc;
                    apply (cell_step_driven _ _ _ _ _ Hs' HI))
                  (cells mdl) [] b1) as (b2 & H2 & _).
      * simpl. rewrite app_nil_r. exact I1.
      * intros l1 [cname c] l2 Hl. simpl. split.
        -- apply (Hcells cname). rewrite Hl. apply in_or_app. right. left.
           reflexivity.
        -- rewrite Hl in Hnd. unfold cell_drivers in Hnd |- *.
           rewrite flat_map_app in Hnd. simpl in Hnd.
           rewrite !app_assoc in Hnd. apply NoDup_app_remove_r in Hnd.
           exact Hnd.
      * rewrite H2. simpl. eexists. reflexivity.
Qed.

(** X13: on a netlist of [plain] names, [yosys_to_simcir] returns exactly
    when, in every module, every port has one bit and the direction input
    or output, every cell passes the gate assertions if it is a gate and
    has, for each declared connection, a valid direction, an entry in its
    connections and a port map for its type, and no net is driven twice.
    On any other such netlist it throws.  (Under a name of
    [Object.prototype] a lookup finds the inherited member where the
    netlist and the table have no entry; those netlists are left out.) *)
Theorem conversion_domain data portmaps :
  plain_netlist data = true ->
  ((exists out, yosys_to_simcir data portmaps = Ok out)
   <-> forall name mdl, In (name, mdl) (modules data) ->
                        convertible portmaps mdl)
  /\ ((exists e, yosys_to_simcir data portmaps = Err e)
      <-> exists name mdl, In (name, mdl) (modules data)
                           /\ ~ convertible portmaps mdl).
Proof.
  intros _.
  assert (Hok : (exists out, yosys_to_simcir data portmaps = Ok out)
                <-> forall name mdl, In (name, mdl) (modules data) ->
                                     convertible portmaps mdl).
  { split.
    - intros (out & H) name mdl Hin. apply convert_module_domain.
      apply (yosys_to_simcir_modules _ _ _ _ _ H Hin).
    - intros Hall. unfold yosys_to_simcir. apply foldM_total.
      intros [name mdl] s Hin.
      destruct (proj2 (convert_module_domain portmaps mdl) (Hall _ _ Hin))
        as (mout & ->).
      simpl. eexists. reflexivity. }
  split; [exact Hok |]. split.
  - intros (e & H). unfold yosys_to_simcir in H.
    apply foldM_first_error in H.
    destruct H as (done & [name mdl] & rest & s1 & Hl & _ & Ha).
    exists name, mdl. split.
    + rewrite Hl. apply in_or_app. right. left. reflexivity.
    + intros Hc. apply convert_module_domain in Hc. destruct Hc as (mout & Hc).
      rewrite Hc in Ha. discriminate Ha.
  - intros (name & mdl & Hin & Hbad).
    destruct (yosys_to_simcir data portmaps) as [out | e] eqn:H.
    + exfalso. apply Hbad. apply (proj1 Hok (ex_intro _ out eq_refl) _ _ Hin).
    + exists e. reflexivity.
Qed.

Lemma conversion_domain_witness :
  ((exists out, yosys_to_simcir and_netlist and_portmaps = Ok out)
   <-> forall name mdl, In (name, mdl) (modules and_netlist) ->
                        convertible and_portmaps mdl)
  /\ ((exists e, yosys_to_simcir and_netlist and_portmaps = Err e)
      <-> exists name mdl, In (name, mdl) (modules and_netlist)
                           /\ ~ convertible and_portmaps mdl).
Proof. apply (conversion_domain and_netlist and_portmaps). reflexivity. Defined.

(** ** The slots of a port map *)











(** ** The cell types that have a port map *)

Lemma gate_cases (ty : string) :
  (is_gate ty = true /\ In ty ["$and"; "$or"; "$xor"])
  \/ (is_gate ty = false /\ ~ In ty ["$and"; "$or"; "$xor"]).
Proof.
  unfold is_gate.
  destruct (String.eqb_spec ty "$and") as [-> | N1]; [left; simpl; auto |].
  destruct (String.eqb_spec ty "$or") as [-> | N2]; [left; simpl; auto |].
  destruct (String.eqb_spec ty "$xor") as [-> | N3]; [left; simpl; auto |].
  right. split; [reflexivity |]. simpl. intuition congruence.
Qed.

(** X15: when no module bears a name of [Object.prototype], the table of
    [order_ports] has a port map for a [plain] cell type exactly when the
    type is [$and], [$or], [$xor] or the name of a module of the netlist;
    every other plain type looks up undefined. *)
Theorem portmaps_domain data portmaps :
  order_ports data = Ok portmaps ->
  forallb plain (keys (modules data)) = true ->
  forall ty, plain ty = true ->
             (obj_get portmaps ty <> None
              <-> is_gate ty = true \/ In ty (keys (modules data))).
Proof.
  unfold order_ports. intros H _ ty _. revert ty.
  set (out0 := fold_left (fun out nm => obj_set out nm binmap)
                 ["$and"; "$or"; "$xor"] []) in *.
  rewrite <- (app_nil_l (modules data)). rewrite <- (app_nil_l (modules data)) in H.
  refine (foldM_invariant _
            (fun done (out : obj (obj string)) =>
               forall ty, obj_get out ty <> None
                          <-> is_gate ty = true \/ In ty (keys done))
            _ _ [] _ _ _ H).
  - intros done [nm md] s s' HI Hs ty.
    apply bind_ok in Hs. destruct Hs as (pm & _ & Hs). injection Hs as <-.
    unfold keys. rewrite map_app, in_app_iff. simpl.
    destruct (string_dec nm ty) as [-> | Hne].
    + rewrite obj_get_set_same. split; [auto | discriminate].
    + rewrite obj_get_set_other by exact Hne. rewrite (HI ty). unfold keys.
      tauto.
  - intros ty. destruct (gate_cases ty) as [[Hg Hin] | [Hg Hn]].
    + split; [auto | intros _].
      destruct Hin as [<- | [<- | [<- | []]]]; vm_compute; discriminate.
    + rewrite Hg. split; [| intros [H0 | H0]; [discriminate H0 | destruct H0]].
      intros Hsome. exfalso. apply Hsome. apply obj_get_none. exact Hn.
Qed.

Lemma portmaps_domain_witness :
  exists portmaps,
    order_ports hierarchy_netlist = Ok portmaps
    /\ obj_get portmaps "sub" <> None.
Proof.
  destruct (order_ports hierarchy_netlist) as [portmaps | e] eqn:E;
    [| vm_compute in E; discriminate E].
  exists portmaps. split; [reflexivity |].
  apply (portmaps_domain hierarchy_netlist portmaps E eq_refl "sub" eq_refl).
  right. simpl. auto.
Defined.

(** ** The port maps a module needs *)

Lemma foldM_ext {A S : Type} (step step' : S -> A -> result S) (l : list A) :
  (forall s a, In a l -> step s a = step' s a) ->
  forall s, foldM step l s = foldM step' l s.
Proof.
  induction l as [| a l IH]; intros Hext s; simpl; [reflexivity |].
  rewrite (Hext s a (or_introl eq_refl)).
  destruct (step' s a) as [s1 | e]; simpl; [| reflexivity].
  apply IH. intros s0 a' Hin. apply Hext. right. exact Hin.
Qed.

(** X16: the conversion of a module reads the table of port maps at the
    types of the cells of that module only: two tables that agree there
    give the same diagram, or the same exception. *)
Theorem conversion_reads_cell_types portmaps portmaps' mdl :
  (forall cname c, In (cname, c) (cells mdl) ->
                   obj_get portmaps (cell_type c)
                   = obj_get portmaps' (cell_type c)) ->
  convert_module portmaps mdl = convert_module portmaps' mdl.
Proof.
  intros Hagree. unfold convert_module, register_devices.
  destruct (foldM port_step (ports mdl) builder0) as [b1 | e]; simpl;
    [| reflexivity].
  rewrite (foldM_ext (cell_step portmaps) (cell_step portmaps') (cells mdl));
    [reflexivity |].
  intros s [cname c] Hin. unfold cell_step.
  rewrite (Hagree cname c Hin). reflexivity.
Qed.

Lemma conversion_reads_cell_types_witness :
  convert_module and_portmaps and_module
  = convert_module [("$and", binmap)] and_module.
Proof.
  apply conversion_reads_cell_types.
  intros cname c [H | []]. injection H as <- <-. reflexivity.
Defined.

(** ** The order of the connectors *)

Lemma array_index_some k i : array_index k = Some i -> k = Some i.
Proof.
  unfold array_index. destruct k as [n |]; [| discriminate].
  destruct (n <? 4294967295)%N; [| discriminate].
  intros H. injection H as <-. reflexivity.
Qed.

Lemma net_before_trans k1 k2 k3 :
  net_before k1 k2 -> net_before k2 k3 -> net_before k1 k3.
Proof.
  unfold net_before.
  destruct (array_index k1), (array_index k2), (array_index k3);
    try tauto; lia.
Qed.

Lemma enumerated_before_net k k' :
  enumerated_before k k' = true -> net_before k k'.
Proof.
  unfold enumerated_before, net_before.
  destruct (array_index k), (array_index k'); try discriminate; auto.
  intros H. apply N.ltb_lt. exact H.
Qed.

Lemma enumerated_after_net k k' :
  enumerated_before k k' = false -> k <> k' -> net_before k' k.
Proof.
  unfold enumerated_before, net_before.
  destruct (array_index k) as [i |] eqn:Ei, (array_index k') as [j |] eqn:Ej;
    try discriminate; auto.
  intros H Hne. apply N.ltb_ge in H.
  apply array_index_some in Ei, Ej. subst k k'.
  assert (i <> j) by congruence. lia.
Qed.

Lemma nets_new_sorted t k nt :
  StronglySorted net_before (map fst t) -> ~ In k (map fst t) ->
  StronglySorted net_before (map fst (nets_new t k nt)).
Proof.
  induction t as [| [k' nt'] t IH]; simpl; intros Hs Hnotin.
  - constructor; constructor.
  - inversion Hs as [| ? ? Hs' Hall]; subst.
    destruct (enumerated_before k k') eqn:E; simpl.
    + apply enumerated_before_net in E. constructor; [exact Hs |].
      constructor; [exact E |].
      apply (Forall_impl _ (fun x Hx => net_before_trans _ _ _ E Hx) Hall).
    + constructor; [apply IH; tauto |].
      apply Forall_forall. intros x Hx. apply nets_new_keys in Hx.
      destruct Hx as [-> | Hx].
      * apply (enumerated_after_net _ _ E). intros ->. tauto.
      * rewrite Forall_forall in Hall. apply Hall. exact Hx.
Qed.

Lemma get_net_sorted t k :
  StronglySorted net_before (map fst t) ->
  StronglySorted net_before (map fst (fst (get_net t k))).
Proof.
  unfold get_net. intros Hs.
  destruct (nets_get t k) eqn:E; simpl; [exact Hs |].
  apply nets_new_sorted; [exact Hs | apply nets_get_none; exact E].
Qed.

Lemma tidy_target t k d p : tidy t -> tidy (add_net_target t k d p).
Proof.
  intros [Hs Hp]. unfold add_net_target.
  pose proof (get_net_sorted t k Hs) as Hs1.
  destruct (get_net t k) as [t1 nt] eqn:G. simpl in Hs1.
  apply get_net_spec in G. destruct G as (Hg & _ & _ & Ho). split.
  - rewrite nets_put_keys. exact Hs1.
  - intros k' nt' H. destruct (netkey_eqb k k') eqn:E.
    + apply netkey_eqb_eq in E. subst k'.
      rewrite (nets_get_put_same _ _ _ _ Hg) in H. injection H as <-. simpl.
      right. destruct (targets nt); discriminate.
    + apply netkey_eqb_neq in E.
      rewrite nets_get_put_other, Ho in H by exact E. apply (Hp _ _ H).
Qed.

Lemma tidy_source t k d p t' :
  add_net_source t k d p = Ok t' -> tidy t -> tidy t'.
Proof.
  unfold add_net_source. intros H [Hs Hp].
  pose proof (get_net_sorted t k Hs) as Hs1.
  destruct (get_net t k) as [t1 nt] eqn:G. simpl in Hs1.
  apply get_net_spec in G. destruct G as (Hg & _ & _ & Ho).
  apply bind_ok in H. destruct H as (u & _ & H). injection H as <-. split.
  - rewrite nets_put_keys. exact Hs1.
  - intros k' nt' H. destruct (netkey_eqb k k') eqn:E.
    + apply netkey_eqb_eq in E. subst k'.
      rewrite (nets_get_put_same _ _ _ _ Hg) in H. injection H as <-. simpl.
      left. discriminate.
    + apply netkey_eqb_neq in E.
      rewrite nets_get_put_other, Ho in H by exact E. apply (Hp _ _ H).
Qed.

(** A property of the net table that both registrations keep holds when
    the two loops are done. *)
Section TableInvariant.
Variable J : net_table -> Prop.
Hypothesis J_target : forall t k d p, J t -> J (add_net_target t k d p).
Hypothesis J_source :
  forall t k d p t', add_net_source t k d p = Ok t' -> J t -> J t'.

Lemma port_step_table b kv b' :
  port_step b kv = Ok b' -> J (b_nets b) -> J (b_nets b').
Proof.
  destruct kv as [pname p]. unfold port_step. intros H HJ.
  apply bind_ok in H. destruct H as (u & _ & H).
  destruct (String.eqb (direction p) "input").
  - apply bind_ok in H. destruct H as (t & Ht & H). injection H as <-.
    apply (J_source _ _ _ _ _ Ht HJ).
  - destruct (String.eqb (direction p) "output"); [| discriminate].
    injection H as <-. apply J_target. exact HJ.
Qed.

Lemma connection_step_table portmap c dname t kv t' :
  connection_step portmap c dname t kv = Ok t' -> J t -> J t'.
Proof.
  destruct kv as [pname pdir]. unfold connection_step. intros H HJ.
  destruct (String.eqb pdir "input").
  - apply bind_ok in H. destruct H as (a & _ & H). injection H as <-.
    apply J_target. exact HJ.
  - destruct (String.eqb pdir "output"); [| discriminate].
    apply bind_ok in H. destruct H as (a & _ & H).
    apply (J_source _ _ _ _ _ H HJ).
Qed.

Lemma cell_step_table portmaps b kv b' :
  cell_step portmaps b kv = Ok b' -> J (b_nets b) -> J (b_nets b').
Proof.
  destruct kv as [cname c]. unfold cell_step. intros H HJ.
  apply bind_ok in H. destruct H as (u & _ & H).
  apply bind_ok in H. destruct H as (t & Ht & H). injection H as <-. simpl.
  rewrite <- (app_nil_l (port_directions c)) in Ht.
  refine (foldM_invariant _ (fun _ t => J t) _ _ [] _ _ HJ Ht).
  intros done a s s' HI Hs. apply (connection_step_table _ _ _ _ _ _ Hs HI).
Qed.

Lemma register_devices_table portmaps mdl b :
  J [] -> register_devices portmaps mdl = Ok b -> J (b_nets b).
Proof.
  unfold register_devices. intros J0 H.
  apply bind_ok in H. destruct H as (b1 & H1 & H2).
  assert (J1 : J (b_nets b1)).
  { rewrite <- (app_nil_l (ports mdl)) in H1.
    refine (foldM_invariant _ (fun _ b => J (b_nets b)) _ _ [] _ _ _ H1).
    - intros done a s s' HI Hs. apply (port_step_table _ _ _ Hs HI).
    - exact J0. }
  rewrite <- (app_nil_l (cells mdl)) in H2.
  refine (foldM_invariant _ (fun _ b => J (b_nets b)) _ _ [] _ _ J1 H2).
  intros done a s s' HI Hs. apply (cell_step_table _ _ _ _ Hs HI).
Qed.
End TableInvariant.

Lemma source_on_some_in ss k s : source_on ss k = Some s -> In k (map fst ss).
Proof.
  intros H. destruct (in_dec (fun a b : netkey =>
                                ltac:(decide equality; apply N.eq_dec))
                        k (map fst ss)) as [Hin | Hn]; [exact Hin |].
  apply source_on_none in Hn. congruence.
Qed.

Lemma flat_map_ext_in {A B : Type} (f g : A -> list B) (l : list A) :
  (forall a, In a l -> f a = g a) -> flat_map f l = flat_map g l.
Proof.
  induction l as [| a l IH]; intros H; simpl; [reflexivity |].
  rewrite (H a (or_introl eq_refl)), IH; [reflexivity |].
  intros a' Hin. apply H. right. exact Hin.
Qed.

Lemma flat_map_on_map {A B C : Type} (f : B -> list C) (g : A -> B) (l : list A) :
  flat_map f (map g l) = flat_map (fun a => f (g a)) l.
Proof.
  induction l as [| a l IH]; simpl; [| rewrite IH]; reflexivity.
Qed.

(** X17: the connectors of a converted module are determined by its
    listener and driver registrations: net by net, one connector per
    listener of the net in registration order, to the driver of the net.
    The nets are those with a listener or a driver, each once, in the
    order in which JavaScript enumerates the table: net ids below 2^32 - 1
    ascending, before any other. *)
Theorem connectors_by_net portmaps mdl mout :
  convert_module portmaps mdl = Ok mout ->
  exists ks,
    connectors mout
    = flat_map (connectors_on (module_listeners portmaps mdl)
                              (module_sources portmaps mdl)) ks
    /\ NoDup ks
    /\ StronglySorted net_before ks
    /\ forall k, In k ks
                 <-> In k (map fst (module_listeners portmaps mdl))
                     \/ In k (map fst (module_sources portmaps mdl)).
Proof.
  unfold convert_module. intros H. apply bind_ok in H.
  destruct H as (b & Hb & H). injection H as <-. simpl.
  rewrite push_connectors_flat_map. simpl.
  pose proof (register_devices_nodup _ _ _ Hb) as Hnd.
  destruct (register_devices_sourcing _ _ _ Hb) as [_ Hsrc].
  pose proof (register_devices_listening _ _ _ Hb) as Hlis.
  destruct (register_devices_table tidy tidy_target tidy_source portmaps mdl b)
    as [Hsorted Hpop]; [| exact Hb |].
  { split; [constructor | intros k nt H0; discriminate H0]. }
  set (ls := module_listeners portmaps mdl) in *.
  set (ss := module_sources portmaps mdl) in *.
  exists (map fst (b_nets b)). split; [| split; [exact Hnd |
                                       split; [exact Hsorted |]]].
  - rewrite flat_map_on_map. apply flat_map_ext_in. intros kn Hin.
    destruct (net_table_entry _ _ _ _ Hb Hin) as [Ht Hs].
    unfold net_connectors, connectors_on. fold ls in Ht.
    rewrite Ht, Hs, Hsrc. reflexivity.
  - intros k. split.
    + intros Hin. apply in_map_iff in Hin. destruct Hin as ([k' nt] & Hk & Hin).
      simpl in Hk. subst k'.
      pose proof (nets_get_in _ _ _ Hnd Hin) as Hg.
      destruct (Hpop _ _ Hg) as [Hsome | Hsome].
      * right. destruct (net_table_entry _ _ _ _ Hb Hin) as [_ Hs].
        simpl in Hs. rewrite Hs, Hsrc in Hsome.
        destruct (source_on ss k) as [s |] eqn:E; [| contradiction].
        apply (source_on_some_in _ _ _ E).
      * left. destruct (net_table_entry _ _ _ _ Hb Hin) as [Ht _].
        simpl in Ht. fold ls in Ht. rewrite Ht in Hsome.
        destruct (listeners_on ls k) as [| tg l] eqn:E; [contradiction |].
        assert (Htg : In tg (listeners_on ls k)) by (rewrite E; left; reflexivity).
        unfold listeners_on in Htg. apply in_map_iff in Htg.
        destruct Htg as ([k' tg'] & _ & Hf). apply filter_In in Hf.
        destruct Hf as [Hin' Heq]. simpl in Heq. apply netkey_eqb_eq in Heq.
        subst k'. apply (in_map fst) in Hin'. exact Hin'.
    + intros [Hin | Hin].
      * apply in_map_iff in Hin. destruct Hin as ([k' tg] & Hk & Hin).
        simpl in Hk. subst k'.
        destruct (listener_net_entry _ _ _ _ _ Hb Hin) as (nt & Hkn).
        apply (in_map fst) in Hkn. exact Hkn.
      * destruct (net_driver (b_nets b) k) as [s |] eqn:E.
        -- unfold net_driver in E.
           destruct (nets_get (b_nets b) k) as [nt |] eqn:G; [| discriminate].
           apply nets_get_some in G. apply (in_map fst) in G. exact G.
        -- rewrite Hsrc in E. apply source_on_none in E. contradiction.
Qed.

Lemma connectors_by_net_witness :
  exists mout ks,
    convert_module and_portmaps and_module = Ok mout
    /\ connectors mout
       = flat_map (connectors_on (module_listeners and_portmaps and_module)
                                 (module_sources and_portmaps and_module)) ks
    /\ StronglySorted net_before ks.
Proof.
  destruct (convert_module and_portmaps and_module) as [mout | e] eqn:E;
    [| vm_compute in E; discriminate E].
  destruct (connectors_by_net and_portmaps and_module mout E)
    as (ks & Hc & _ & Hs & _).
  exists mout, ks. split; [reflexivity |]. split; assumption.
Defined.

(** ** The netlists the script accepts *)

Lemma netkey_eq_dec (k k' : netkey) : {k = k'} + {k <> k'}.
Proof. decide equality. apply N.eq_dec. Qed.

Lemma Forall2_in_right {A B : Type} (R : A -> B -> Prop) l l' b :
  Forall2 R l l' -> In b l' -> exists a, In a l /\ R a b.
Proof.
  induction 1 as [| x y l l' Hxy _ IH]; intros Hin; [contradiction |].
  destruct Hin as [<- | Hin].
  - exists x. split; [left; reflexivity | exact Hxy].
  - destruct (IH Hin) as (a & Ha & Hr). exists a. split; [right |]; assumption.
Qed.

Section Acceptance.
Variable dagre_layout : graph -> string -> Q * Q.
Variable topsort : list (string * string) -> option (list string).

(** X18: on a netlist of [plain] names with distinct module names the
    script returns a document exactly when [order_ports] returns, every
    module passes the checks of the conversion, every net that is listened
    on has a driver in its module, and [topsort] returns an order.  In
    every other case it throws. *)
Theorem process_domain data :
  plain_netlist data = true ->
  NoDup (keys (modules data)) ->
  ((exists doc, process dagre_layout topsort data = Ok doc)
   <-> exists portmaps order,
         order_ports data = Ok portmaps
         /\ (forall name mdl,
                In (name, mdl) (modules data) ->
                convertible portmaps mdl /\ all_driven portmaps mdl)
         /\ topsort (module_deps data) = Some order).
Proof.
  intros _ Hnd. split.
  - intros (doc & H).
    destruct (process_stages dagre_layout topsort data doc H)
      as (portmaps & out & out' & order & Hp & Hy & Hl & Ht & _).
    exists portmaps, order. split; [exact Hp |]. split; [| exact Ht].
    intros name mdl Hin. split.
    + apply convert_module_domain.
      apply (yosys_to_simcir_modules _ _ _ _ _ Hy Hin).
    + pose proof (yosys_to_simcir_ok _ _ _ Hnd Hy) as F1.
      pose proof (layout_circuits_ok _ _ _ Hl) as F2.
      destruct (Forall2_in_left _ _ _ _ F1 Hin) as ([x circ] & Hc & _ & Hconv).
      destruct (Forall2_in_left _ _ _ _ F2 Hc) as ([x' circ'] & _ & _ & Hlay).
      simpl in Hconv, Hlay. intros e He.
      destruct (in_dec netkey_eq_dec (fst e)
                  (map fst (module_sources portmaps mdl))) as [Hd | Hn];
        [exact Hd |].
      rewrite (undriven_layout_throws dagre_layout _ _ _ _ Hconv He Hn) in Hlay.
      discriminate Hlay.
  - intros (portmaps & order & Hp & Hmods & Ht).
    destruct (foldM_total
                (fun (out : obj diagram) '(name, mdl) =>
                   mout <- convert_module portmaps mdl ;;
                   Ok (obj_set out name mout))
                (modules data)) with (s := @nil (string * diagram))
      as (out & Hy).
    { intros [name mdl] s Hin.
      destruct (proj2 (convert_module_domain portmaps mdl)
                  (proj1 (Hmods _ _ Hin))) as (mout & ->).
      simpl. eexists. reflexivity. }
    change (yosys_to_simcir data portmaps = Ok out) in Hy.
    pose proof (yosys_to_simcir_ok _ _ _ Hnd Hy) as F1.
    destruct (foldM_total
                (fun (res : obj diagram) '(name, circ) =>
                   circ' <- layout_circuit dagre_layout circ ;;
                   Ok (res ++ [(name, circ')]))
                out) with (s := @nil (string * diagram))
      as (out' & Hl).
    { intros [name circ] s Hin.
      destruct (Forall2_in_right _ _ _ _ F1 Hin) as ([x mdl] & Hm & _ & Hconv).
      simpl in Hconv.
      destruct (joined_layout_returns dagre_layout circ) as (circ' & ->).
      - apply (convert_module_ids _ _ _ Hconv).
      - apply (converted_connectors_joined _ _ _ Hconv).
        apply (proj2 (Hmods _ _ Hm)).
      - simpl. eexists. reflexivity. }
    change (layout_circuits dagre_layout out = Ok out') in Hl.
    unfold process. rewrite Hp. cbn [bind]. rewrite Hy. cbn [bind].
    rewrite Hl. cbn [bind]. rewrite Ht. cbn [bind].
    destruct (pop order) as [init top].
    eexists. reflexivity.
Qed.
End Acceptance.

Lemma process_domain_witness :
  (exists doc, process row_layout topsort_ref hierarchy_netlist = Ok doc)
  <-> exists portmaps order,
        order_ports hierarchy_netlist = Ok portmaps
        /\ (forall name mdl,
               In (name, mdl) (modules hierarchy_netlist) ->
               convertible portmaps mdl /\ all_driven portmaps mdl)
        /\ topsort_ref (module_deps hierarchy_netlist) = Some order.
Proof.
  apply (process_domain row_layout topsort_ref hierarchy_netlist);
    [reflexivity |].
  simpl. constructor; [simpl; intros [H1 | []]; discriminate H1 |].
  constructor; [tauto | constructor].
Defined.

(** ** The modules of the document *)

Section EmissionCover.
Variable dagre_layout : graph -> string -> Q * Q.
Variable topsort : list (string * string) -> option (list string).

(** A result of [topsort] is a topological order of the edges it got. *)
Hypothesis topsort_sorted :
  forall edges order, topsort edges = Some order -> topological edges order.

(** X19: on a netlist of [plain] names, the document shows every module
    that instantiates a module of the netlist or is instantiated by one,
    each exactly once, and no other module: a document without a top level
    registers nothing and, unless a module is named [undefined], its
    top-level diagram [out[undefined]] is undefined. *)
Theorem emission_cover data doc :
  plain_netlist data = true ->
  process dagre_layout topsort data = Ok doc ->
  NoDup (emission_order doc)
  /\ (forall name,
         In name (emission_order doc)
         <-> exists other,
               instantiates data name other \/ instantiates data other name)
  /\ (toplevel doc = None ->
      registered doc = []
      /\ (~ In "undefined" (keys (modules data)) ->
          toplevel_diagram doc = None)).
Proof.
  intros _ H.
  destruct (process_order dagre_layout topsort data doc H)
    as (order & Ht & Ho & _).
  pose proof (topsort_sorted _ _ Ht) as [Hnd Hnodes _].
  rewrite Ho. split; [exact Hnd |]. split.
  - intros name. rewrite Hnodes. unfold edge_nodes. rewrite in_flat_map. split.
    + intros ([used user] & He & Hin). apply module_deps_spec in He.
      simpl in Hin. destruct Hin as [<- | [<- | []]].
      * exists user. right. exact He.
      * exists used. left. exact He.
    + intros (other & [Hi | Hi]); apply module_deps_spec in Hi.
      * exists (other, name). split; [exact Hi | simpl; auto].
      * exists (name, other). split; [exact Hi | simpl; auto].
  - intros Hnone.
    destruct (process_stages dagre_layout topsort data doc H)
      as (portmaps & out & out' & order' & _ & Hy & Hl & _ & Hr & Htop & Hd).
    pose proof (pop_spec order') as Hpop.
    rewrite Hr, Hd. rewrite Htop in Hnone.
    destruct (pop order') as [init top]. simpl in Hnone. subst top.
    destruct Hpop as [_ ->]. split; [reflexivity |].
    intros Hundef. simpl. apply obj_get_none. intros Hin. apply Hundef.
    rewrite (layout_circuits_keys _ _ _ Hl) in Hin.
    apply (yosys_to_simcir_keys _ _ _ Hy _ Hin).
Qed.
End EmissionCover.

Lemma emission_cover_witness :
  exists doc,
    process row_layout topsort_ref hierarchy_netlist = Ok doc
    /\ NoDup (emission_order doc).
Proof.
  destruct (process row_layout topsort_ref hierarchy_netlist) as [doc | e] eqn:E;
    [| vm_compute in E; discriminate E].
  exists doc. split; [reflexivity |].
  apply (emission_cover row_layout topsort_ref topsort_ref_sorted
           hierarchy_netlist doc eq_refl E).
Defined.
